(** * WebSocket gateway: connection registry, client sessions, bus adapter

    A shallow embedding of the Go gateway under
    [Backend/Websocket-gateway] and the properties its specification
    states about it.

    Conventions of the embedding.
    - Go [int64]/[uint32] values are [Z] with the wrap-around written out.
    - [time.Time] and [time.Duration] are [Z] nanoseconds; every
      [time.Now()] of the source is an explicit [now] argument.
    - [*Client] pointers are addresses into a heap of client objects, so
      that the primary map, the user index and the pumps alias one object.
    - Go maps are [gmap]s; a map of maps is written back after an in-place
      update of the inner map.
    - A run-time panic (index out of range, nil dereference, send on a
      closed channel) is [None].
    - Hook invocations are recorded in an event log. *)

From Stdlib Require Import ZArith Lia.
From stdpp Require Import base option list gmap strings pretty.

Local Open Scope Z_scope.

(** ** Machine integers *)

Module Int.

Definition wrap64 (z : Z) : Z := (z + 2 ^ 63) mod 2 ^ 64 - 2 ^ 63.
Definition wrap32 (z : Z) : Z := z mod 2 ^ 32.

Definition in_int64 (z : Z) : Prop := - 2 ^ 63 <= z < 2 ^ 63.

End Int.

(** ** hash/fnv and the shard-count rounding of manager.go *)

Module Hash.

Definition offset32 : Z := 2166136261.
Definition prime32 : Z := 16777619.

Definition byte_of (a : Ascii.ascii) : Z := Z.of_N (Ascii.N_of_ascii a).

(** [fnv.New32a]: xor the byte in, then multiply by the prime, modulo 2^32. *)
Fixpoint fnv32a_from (h : Z) (s : string) : Z :=
  match s with
  | EmptyString => h
  | String a s' => fnv32a_from (Int.wrap32 (Z.lxor h (byte_of a) * prime32)) s'
  end.

Definition fnv32a (s : string) : Z := fnv32a_from offset32 s.

(** [nextPowerOfTwo] on uint32. *)
Definition nextPowerOfTwo (n : Z) : Z :=
  let n := Int.wrap32 (n - 1) in
  let n := Z.lor n (Z.shiftr n 1) in
  let n := Z.lor n (Z.shiftr n 2) in
  let n := Z.lor n (Z.shiftr n 4) in
  let n := Z.lor n (Z.shiftr n 8) in
  let n := Z.lor n (Z.shiftr n 16) in
  Int.wrap32 (n + 1).

End Hash.

(** ** Buffered channels (the part of Go's [chan []byte] the gateway uses) *)

Module Chan.

Record chan := mkChan {
  buf : list string;   (* queued messages, oldest first *)
  cap : nat;           (* make(chan []byte, cap) *)
  closed : bool        (* close(ch) was executed *)
}.

Definition make (n : nat) : chan := mkChan [] n false.

Definition len (ch : chan) : nat := length (buf ch).

(** The send case of a [select] that has a [default] branch. *)
Inductive send_result :=
| Sent (ch' : chan)     (* the send case was ready and ran *)
| WouldBlock            (* buffer full: the default branch runs *)
| SendOnClosed.         (* send on a closed channel panics *)

Definition trySend (ch : chan) (m : string) : send_result :=
  if closed ch then SendOnClosed
  else if bool_decide (len ch < cap ch)%nat
       then Sent (mkChan (buf ch ++ [m]) (cap ch) false)
       else WouldBlock.

(** [close(ch)]; queued messages stay readable. *)
Definition close (ch : chan) : chan := mkChan (buf ch) (cap ch) true.

End Chan.

(** ** encoding/json, as far as the gateway uses it *)

Module Json.

#[local] Set Warnings "-register-all".

Inductive value :=
| Null
| Bool (b : bool)
| Num (z : Z)
| Str (s : string)
| Arr (l : list value)
| Obj (fields : list (string * value)).

(** Field names match as [foldName] of encoding/json makes them: ASCII
    letters without regard to case, and the two letters outside ASCII
    whose case folding is an ASCII letter, U+017F (the bytes C5 BF) with
    s and U+212A (the bytes E2 84 AA) with k.  The field name is the one
    of a struct tag, which is ASCII throughout this program; every other
    byte outside ASCII folds to bytes outside ASCII and is kept as it is. *)
Definition lower (a : Ascii.ascii) : Ascii.ascii :=
  let n := Ascii.N_of_ascii a in
  if bool_decide (65 <= n <= 90)%N then Ascii.ascii_of_N (n + 32) else a.

Definition long_s (a b : Ascii.ascii) : bool :=
  bool_decide (Ascii.N_of_ascii a = 197 /\ Ascii.N_of_ascii b = 191)%N.

Definition kelvin (a b c : Ascii.ascii) : bool :=
  bool_decide (Ascii.N_of_ascii a = 226 /\ Ascii.N_of_ascii b = 132 /\
               Ascii.N_of_ascii c = 170)%N.

Fixpoint fold_case (s : string) : string :=
  match s with
  | EmptyString => EmptyString
  | String a s1 =>
      match s1 with
      | EmptyString => String (lower a) EmptyString
      | String b s2 =>
          if long_s a b then String (Ascii.ascii_of_N 115) (fold_case s2)
          else match s2 with
               | EmptyString => String (lower a) (fold_case s1)
               | String c s3 =>
                   if kelvin a b c then String (Ascii.ascii_of_N 107) (fold_case s3)
                   else String (lower a) (fold_case s1)
               end
      end
  end.

Definition names (key field : string) : bool :=
  bool_decide (fold_case key = fold_case field).

(** Decoding into a [string] field and into an [int64] field: [null]
    leaves the field alone, a value of another kind is a type error. *)
Definition into_string (old : string) (v : value) : option string :=
  match v with
  | Str s => Some s
  | Null => Some old
  | _ => None
  end.

Definition into_int64 (old : Z) (v : value) : option Z :=
  match v with
  | Num z => if bool_decide (- 2 ^ 63 <= z < 2 ^ 63) then Some z else None
  | Null => Some old
  | _ => None
  end.

(** The 64 digits of [base64.StdEncoding], which is how a [[]byte]
    value is marshalled. *)
Definition digit (n : N) : Ascii.ascii :=
  if bool_decide (n < 26)%N then Ascii.ascii_of_N (65 + n)
  else if bool_decide (n < 52)%N then Ascii.ascii_of_N (97 + (n - 26))
  else if bool_decide (n < 62)%N then Ascii.ascii_of_N (48 + (n - 52))
  else if bool_decide (n = 62)%N then Ascii.ascii_of_N 43
  else Ascii.ascii_of_N 47.

Definition pad : Ascii.ascii := Ascii.ascii_of_N 61.

Fixpoint base64 (s : string) : string :=
  match s with
  | EmptyString => EmptyString
  | String a EmptyString =>
      let x := Ascii.N_of_ascii a in
      String (digit (x / 4)) (String (digit (x mod 4 * 16)) (String pad (String pad EmptyString)))
  | String a (String b EmptyString) =>
      let x := Ascii.N_of_ascii a in
      let y := Ascii.N_of_ascii b in
      String (digit (x / 4)) (String (digit (x mod 4 * 16 + y / 16))
        (String (digit (y mod 16 * 4)) (String pad EmptyString)))
  | String a (String b (String c s')) =>
      let x := Ascii.N_of_ascii a in
      let y := Ascii.N_of_ascii b in
      let z := Ascii.N_of_ascii c in
      String (digit (x / 4)) (String (digit (x mod 4 * 16 + y / 16))
        (String (digit (y mod 16 * 4 + z / 64)) (String (digit (z mod 64)) (base64 s'))))
  end.

(** Coercion of a string to valid UTF-8 by [json.Marshal].

    Every byte that does not start a well-formed sequence becomes
    U+FFFD, the bytes EF BF BD. *)
Definition cont (b : N) : bool := bool_decide (128 <= b <= 191)%N.

Definition replacement (rest : string) : string :=
  String (Ascii.ascii_of_N 239) (String (Ascii.ascii_of_N 191)
    (String (Ascii.ascii_of_N 189) rest)).

(** The number of bytes of the well-formed sequence that starts [s], or 0. *)
Definition rune_len (s : string) : nat :=
  match s with
  | EmptyString => 0
  | String a s1 =>
      let x := Ascii.N_of_ascii a in
      if bool_decide (x < 128)%N then 1
      else match s1 with
      | EmptyString => 0
      | String b s2 =>
          let y := Ascii.N_of_ascii b in
          if bool_decide (194 <= x <= 223)%N then (if cont y then 2 else 0)
          else match s2 with
          | EmptyString => 0
          | String c s3 =>
              let z := Ascii.N_of_ascii c in
              if bool_decide (224 <= x <= 239)%N then
                if bool_decide (x = 224)%N && negb (bool_decide (160 <= y <= 191)%N) then 0
                else if bool_decide (x = 237)%N && negb (bool_decide (128 <= y <= 159)%N) then 0
                else if cont y && cont z then 3 else 0
              else match s3 with
              | EmptyString => 0
              | String d _ =>
                  let w := Ascii.N_of_ascii d in
                  if bool_decide (240 <= x <= 244)%N then
                    if bool_decide (x = 240)%N && negb (bool_decide (144 <= y <= 191)%N) then 0
                    else if bool_decide (x = 244)%N && negb (bool_decide (128 <= y <= 143)%N) then 0
                    else if cont y && cont z && cont w then 4 else 0
                  else 0
              end
          end
      end
  end%nat.

(** [skip n] copies [n] more bytes of a sequence already accepted. *)
Fixpoint coerce_from (skip : nat) (s : string) : string :=
  match s with
  | EmptyString => EmptyString
  | String a s' =>
      match skip with
      | S k => String a (coerce_from k s')
      | O =>
          match rune_len s with
          | O => replacement (coerce_from O s')
          | S k => String a (coerce_from k s')
          end
      end
  end.

Definition toValidUTF8 (s : string) : string := coerce_from 0 s.

(** The text [json.Marshal] writes between the quotes of a string, as
    the go 1.21 of go.mod does it: a quote and a backslash get a
    backslash, newline, carriage return and tab their letter, every
    other byte below 0x20 and the characters <, > and & the form u00XX,
    a byte that starts no well-formed sequence the form ufffd, and
    U+2028 and U+2029 the forms u2028 and u2029. *)
Definition backslash : Ascii.ascii := Ascii.ascii_of_N 92.

Definition hex (n : N) : Ascii.ascii :=
  if bool_decide (n < 10)%N then Ascii.ascii_of_N (48 + n) else Ascii.ascii_of_N (87 + n).

Definition short (letter : Ascii.ascii) (rest : string) : string :=
  String backslash (String letter rest).

Definition u00 (b : N) (rest : string) : string :=
  String backslash (String (Ascii.ascii_of_N 117) (String (Ascii.ascii_of_N 48)
    (String (Ascii.ascii_of_N 48) (String (hex (b / 16)) (String (hex (b mod 16)) rest))))).

Definition escape_byte (a : Ascii.ascii) (rest : string) : string :=
  let b := Ascii.N_of_ascii a in
  if bool_decide (b = 34 \/ b = 92)%N then short a rest
  else if bool_decide (b = 10)%N then short (Ascii.ascii_of_N 110) rest
  else if bool_decide (b = 13)%N then short (Ascii.ascii_of_N 114) rest
  else if bool_decide (b = 9)%N then short (Ascii.ascii_of_N 116) rest
  else if bool_decide (b < 32 \/ b = 60 \/ b = 62 \/ b = 38)%N then u00 b rest
  else String a rest.

Definition ufffd (rest : string) : string :=
  String backslash (String (Ascii.ascii_of_N 117) (String (Ascii.ascii_of_N 102)
    (String (Ascii.ascii_of_N 102) (String (Ascii.ascii_of_N 102)
      (String (Ascii.ascii_of_N 100) rest))))).

Definition u202 (last : N) (rest : string) : string :=
  String backslash (String (Ascii.ascii_of_N 117) (String (Ascii.ascii_of_N 50)
    (String (Ascii.ascii_of_N 48) (String (Ascii.ascii_of_N 50)
      (String (hex last) rest))))).

(** U+2028 and U+2029 are the bytes E2 80 A8 and E2 80 A9. *)
Definition separator (a b c : Ascii.ascii) : bool :=
  bool_decide (Ascii.N_of_ascii a = 226 /\ Ascii.N_of_ascii b = 128 /\
               (Ascii.N_of_ascii c = 168 \/ Ascii.N_of_ascii c = 169))%N.

Fixpoint escape_from (skip : nat) (s : string) : string :=
  match s with
  | EmptyString => EmptyString
  | String a s1 =>
      match skip with
      | S k => String a (escape_from k s1)
      | O =>
          if bool_decide (Ascii.N_of_ascii a < 128)%N
          then escape_byte a (escape_from O s1)
          else match rune_len s with
               | O => ufffd (escape_from O s1)
               | S k =>
                   match s1 with
                   | String b (String c s3) =>
                       if separator a b c
                       then u202 (Ascii.N_of_ascii c mod 16) (escape_from O s3)
                       else String a (escape_from k s1)
                   | _ => String a (escape_from k s1)
                   end
               end
      end
  end.

Definition escape (s : string) : string := escape_from 0 s.

End Json.

(** ** internal/connection/client.go *)

Module Client.

(** [ErrClientClosed] ("client connection closed") and [ErrClientSlow]
    ("client send channel full"). *)
Inductive error := ErrClientClosed | ErrClientSlow.

Record ClientMetrics := mkMetrics {
  MessagesSent : Z;
  MessagesReceived : Z;
  BytesSent : Z;
  BytesReceived : Z;
  LastPingTime : Z
}.

Record Client := mkClient {
  ID : string;
  UserID : string;
  DeviceID : string;
  IP : string;
  Send : Chan.chan;
  connClosed : bool;       (* Conn: whether c.Conn.Close() has run *)
  ConnectedAt : Z;
  LastActivity : Z;
  ShardID : Z;
  cancelled : bool;        (* ctx: whether c.cancel() has run *)
  authenticated : bool;
  closing : bool;
  metrics : ClientMetrics;
  closeLog : list string   (* reasons logged by Close, latest last *)
}.

Definition sendCap : nat := 256.

Definition NewClient (clientID ip : string) (shardID : Z) (now : Z) : Client :=
  {| ID := clientID; UserID := ""; DeviceID := ""; IP := ip;
     Send := Chan.make sendCap;
     connClosed := false;
     ConnectedAt := now; LastActivity := now;
     ShardID := shardID;
     cancelled := false;
     authenticated := false; closing := false;
     metrics := mkMetrics 0 0 0 0 0;
     closeLog := [] |}.

Definition SetAuthenticated (c : Client) (userID deviceID : string) : Client :=
  {| ID := ID c; UserID := userID; DeviceID := deviceID; IP := IP c;
     Send := Send c; connClosed := connClosed c;
     ConnectedAt := ConnectedAt c; LastActivity := LastActivity c;
     ShardID := ShardID c; cancelled := cancelled c;
     authenticated := true; closing := closing c;
     metrics := metrics c; closeLog := closeLog c |}.

Definition IsAuthenticated (c : Client) : bool := authenticated c.

Definition with_Send (c : Client) (ch : Chan.chan) (m : ClientMetrics) : Client :=
  {| ID := ID c; UserID := UserID c; DeviceID := DeviceID c; IP := IP c;
     Send := ch; connClosed := connClosed c;
     ConnectedAt := ConnectedAt c; LastActivity := LastActivity c;
     ShardID := ShardID c; cancelled := cancelled c;
     authenticated := authenticated c; closing := closing c;
     metrics := m; closeLog := closeLog c |}.

Definition sent_metrics (m : ClientMetrics) (message : string) : ClientMetrics :=
  {| MessagesSent := Int.wrap64 (MessagesSent m + 1);
     MessagesReceived := MessagesReceived m;
     BytesSent := Int.wrap64 (BytesSent m + Z.of_nat (String.length message));
     BytesReceived := BytesReceived m;
     LastPingTime := LastPingTime m |}.

(** [WriteMessage]: the closing guard, then a non-blocking send.  The
    result is [None] only for the panic of a send on a closed channel. *)
Definition WriteMessage (c : Client) (message : string)
  : option (option error * Client) :=
  if closing c then Some (Some ErrClientClosed, c)
  else match Chan.trySend (Send c) message with
       | Chan.Sent ch' => Some (None, with_Send c ch' (sent_metrics (metrics c) message))
       | Chan.WouldBlock => Some (Some ErrClientSlow, c)
       | Chan.SendOnClosed => None
       end.

(** The body both [Close] and [cleanup] run once the closing flag flips:
    [c.cancel(); close(c.Send); c.Conn.Close()]. *)
Definition shut (c : Client) (log : list string) : Client :=
  {| ID := ID c; UserID := UserID c; DeviceID := DeviceID c; IP := IP c;
     Send := Chan.close (Send c); connClosed := true;
     ConnectedAt := ConnectedAt c; LastActivity := LastActivity c;
     ShardID := ShardID c; cancelled := true;
     authenticated := authenticated c; closing := true;
     metrics := metrics c; closeLog := log |}.

Definition Close (c : Client) (reason : string) : Client :=
  if closing c then c else shut c (closeLog c ++ [reason]).

Definition cleanup (c : Client) : Client :=
  if negb (closing c) then shut c (closeLog c) else c.

(** *** The send case of [WritePump] *)

Definition newline : string := String (Ascii.ascii_of_nat 10) EmptyString.

(** One turn of the case that receives from [c.Send], on a queue that
    holds a message: that message and the ones queued behind it are
    written as one frame, separated by newlines, and the queue is left
    empty.  [None] when there is nothing to receive. *)
Definition WritePump_drain (c : Client) : option (string * Client) :=
  match Chan.buf (Send c) with
  | [] => None
  | message :: pending =>
      Some (foldl (fun frame m => (frame ++ newline ++ m)%string) message pending,
            with_Send c (Chan.mkChan [] (Chan.cap (Send c)) (Chan.closed (Send c)))
              (metrics c))
  end.

(** *** One iteration of [ReadPump] *)

(** The read limit [ReadPump] installs with [SetReadLimit]. *)
Definition readLimit : Z := 1024 * 1024.

Inductive read_result := ReadOk (message : string) | ReadErr.

(** [Conn.ReadMessage] of gorilla/websocket under a read limit: [None] is a
    read that fails on its own (close frame, deadline, network error); a
    frame longer than the limit fails with [ErrReadLimit]. *)
Definition ReadMessage (limit : Z) (frame : option string) : read_result :=
  match frame with
  | None => ReadErr
  | Some message =>
      if bool_decide (limit < Z.of_nat (String.length message)) then ReadErr
      else ReadOk message
  end.

(** [json.Marshal(protocol.NewErrorMessage(code, message, details))] with
    the generated message id and the timestamp in milliseconds. *)
Definition dquote : string := String (Ascii.ascii_of_nat 34) EmptyString.
Definition quoted (s : string) : string := (dquote ++ Json.escape s ++ dquote)%string.
Definition member (key value : string) : string := (quoted key ++ ":" ++ value)%string.

Definition ErrorMessageJSON (code message details msgID : string) (ts : Z) : string :=
  ("{" ++ member "type" (quoted "error") ++
   (if bool_decide (msgID = "") then "" else "," ++ member "message_id" (quoted msgID)) ++
   "," ++ member "timestamp" (pretty ts) ++
   "," ++ member "code" (quoted code) ++
   "," ++ member "message" (quoted message) ++
   (if bool_decide (details = "") then "" else "," ++ member "details" (quoted details)) ++
   "}")%string.

(** What an iteration of the loop does next. *)
Inductive pump_action :=
| Dispatch (message : string)   (* messageHandler(c, message) is called *)
| Throttled                     (* rate limited: error frame queued, continue *)
| Return.                       (* the loop returns; the deferred teardown runs *)

Definition received (c : Client) (now : Z) (message : string) : Client :=
  {| ID := ID c; UserID := UserID c; DeviceID := DeviceID c; IP := IP c;
     Send := Send c; connClosed := connClosed c;
     ConnectedAt := ConnectedAt c; LastActivity := now;
     ShardID := ShardID c; cancelled := cancelled c;
     authenticated := authenticated c; closing := closing c;
     metrics :=
       {| MessagesSent := MessagesSent (metrics c);
          MessagesReceived := Int.wrap64 (MessagesReceived (metrics c) + 1);
          BytesSent := BytesSent (metrics c);
          BytesReceived :=
            Int.wrap64 (BytesReceived (metrics c) + Z.of_nat (String.length message));
          LastPingTime := LastPingTime (metrics c) |};
     closeLog := closeLog c |}.

(** [frame] is what the socket delivers, [allowed] the answer of the
    client's [rate.Limiter], [msgID] the id minted for an error frame. *)
Definition ReadPump_step (c : Client) (now : Z) (frame : option string)
    (allowed : bool) (msgID : string) : option (pump_action * Client) :=
  if cancelled c then Some (Return, c)
  else match ReadMessage readLimit frame with
       | ReadErr => Some (Return, c)
       | ReadOk message =>
           let c1 := received c now message in
           if negb allowed then
             '(_, c2) ← WriteMessage c1
                (ErrorMessageJSON "RATE_LIMIT_EXCEEDED" "Too many messages"
                   "Please slow down" msgID (now / 1000000));
             Some (Throttled, c2)
           else Some (Dispatch message, c1)
       end.

End Client.

(** ** Keyed rate limiters

    manager.go uses [*IPRateLimiter] and [*UserRateLimiter] through a
    constructor taking a rate and a burst and through [Allow(key)].  The
    manager is modelled over that interface. *)

Class KeyedLimiter (L : Type) := {
  NewLimiter : Z -> Z -> L;                (* rate per second, burst *)
  Allow : L -> string -> Z -> bool * L     (* key, time of the call *)
}.

Module TokenBucket.

(** Modelled from the spec: the types [IPRateLimiter] and [UserRateLimiter]
    are not among the sources.  The spec's data model gives each key a
    bucket with a refill rate, a burst capacity and a last-refill
    timestamp; a call is admitted when a whole token is available.  Tokens
    are counted in billionths so that refilling [rate] tokens per second is
    exact on nanosecond clocks; a bucket starts full. *)
Record bucket := mkBucket {
  tokens : Z;   (* billionths of a token *)
  last : Z      (* time of the last admitted call *)
}.

Record limiter := mkLimiter {
  rate : Z;
  burst : Z;
  buckets : gmap string bucket
}.

Definition nano : Z := 1000000000.

Definition available (l : limiter) (key : string) (now : Z) : Z :=
  match buckets l !! key with
  | None => burst l * nano
  | Some b => Z.min (burst l * nano) (tokens b + rate l * Z.max 0 (now - last b))
  end.

Definition allow (l : limiter) (key : string) (now : Z) : bool * limiter :=
  let t := available l key now in
  if bool_decide (nano <= t)
  then (true, mkLimiter (rate l) (burst l) (<[key := mkBucket (t - nano) now]> (buckets l)))
  else (false, l).

End TokenBucket.

#[export] Instance TokenBucket_limiter : KeyedLimiter TokenBucket.limiter := {
  NewLimiter r b := TokenBucket.mkLimiter r b ∅;
  Allow := TokenBucket.allow
}.

(** ** internal/connection/shard.go *)

Module Shard.

Import Client.

(** A [*Client]: the address of a client object in the heap. *)
Abbreviation ptr := nat (only parsing).

Record ShardStats := mkStats {
  TotalConnections : Z;
  ActiveConnections : Z;
  Disconnections : Z;
  MessagesProcessed : Z;
  BytesProcessed : Z;
  LastCleanup : Z
}.

Record Shard := mkShard {
  SID : Z;
  clients : gmap string ptr;
  userClients : gmap string (gmap string ptr);
  stats : ShardStats
}.

Definition NewShard (id : Z) : Shard :=
  mkShard id ∅ ∅ (mkStats 0 0 0 0 0 0).

Definition AddClient (h : list Client) (s : Shard) (p : ptr) : option Shard :=
  c ← h !! p;
  Some (mkShard (SID s) (<[ID c := p]> (clients s)) (userClients s)
          (mkStats (Int.wrap64 (TotalConnections (stats s) + 1))
                   (Int.wrap64 (ActiveConnections (stats s) + 1))
                   (Disconnections (stats s)) (MessagesProcessed (stats s))
                   (BytesProcessed (stats s)) (LastCleanup (stats s)))).

(** The user-index clean-up shared by [RemoveClient] and
    [CleanupInactive]: delete the device entry, then the user's map once
    it is empty. *)
Definition dropDevice (uc : gmap string (gmap string ptr)) (userID deviceID : string)
  : gmap string (gmap string ptr) :=
  match uc !! userID with
  | Some devices =>
      let devices' := delete deviceID devices in
      if bool_decide (size devices' = 0%nat) then delete userID uc
      else <[userID := devices']> uc
  | None => uc
  end.

Definition unindex (uc : gmap string (gmap string ptr)) (c : Client)
  : gmap string (gmap string ptr) :=
  if bool_decide (UserID c ≠ "") then dropDevice uc (UserID c) (DeviceID c) else uc.

(** [RemoveClient] returns the removed client, [nil] when the id is
    unknown. *)
Definition RemoveClient (h : list Client) (s : Shard) (clientID : string)
  : option (Shard * option ptr) :=
  match clients s !! clientID with
  | None => Some (s, None)
  | Some p =>
      c ← h !! p;
      Some (mkShard (SID s) (delete clientID (clients s)) (unindex (userClients s) c)
              (mkStats (TotalConnections (stats s))
                 (Int.wrap64 (ActiveConnections (stats s) - 1))
                 (Int.wrap64 (Disconnections (stats s) + 1))
                 (MessagesProcessed (stats s)) (BytesProcessed (stats s))
                 (LastCleanup (stats s))),
            Some p)
  end.

Definition GetClient (s : Shard) (clientID : string) : option ptr :=
  clients s !! clientID.

(** The clients of a user, in the iteration order of the device map. *)
Definition GetUserClients (s : Shard) (userID : string) : list ptr :=
  match userClients s !! userID with
  | None => []
  | Some devices => (map_to_list devices).*2
  end.

(** [RegisterAuthenticatedClient]: mark the client, then store it under
    [userID][deviceID], overwriting what was there. *)
Definition RegisterAuthenticatedClient (h : list Client) (s : Shard) (p : ptr)
    (userID deviceID : string) : option (list Client * Shard) :=
  c ← h !! p;
  let h' := <[p := SetAuthenticated c userID deviceID]> h in
  let devices := default ∅ (userClients s !! userID) in
  Some (h', mkShard (SID s) (clients s)
              (<[userID := <[deviceID := p]> devices]> (userClients s)) (stats s)).

(** One iteration of the loop of [CleanupInactive] over an entry of
    [s.clients]. *)
Definition sweep_entry (h : list Client) (now timeout : Z)
    (acc : option (gmap string ptr * gmap string (gmap string ptr) * list string))
    (e : string * ptr)
  : option (gmap string ptr * gmap string (gmap string ptr) * list string) :=
  '(cl, uc, removed) ← acc;
  c ← h !! e.2;
  if bool_decide (timeout < now - LastActivity c)
  then Some (delete e.1 cl, unindex uc c, removed ++ [e.1])
  else Some (cl, uc, removed).

(** [CleanupInactive]; the entries are visited in the order of
    [map_to_list], one of the orders Go's map iteration may take. *)
Definition CleanupInactive (h : list Client) (s : Shard) (now timeout : Z)
  : option (Shard * list string) :=
  '(cl, uc, removed) ←
     foldl (sweep_entry h now timeout) (Some (clients s, userClients s, []))
       (map_to_list (clients s));
  Some (mkShard (SID s) cl uc
          (mkStats (TotalConnections (stats s))
             (Int.wrap64 (ActiveConnections (stats s) - Z.of_nat (length removed)))
             (Disconnections (stats s)) (MessagesProcessed (stats s))
             (BytesProcessed (stats s)) now),
        removed).

Definition GetStats (s : Shard) : ShardStats :=
  mkStats (TotalConnections (stats s)) (Z.of_nat (size (clients s)))
    (Disconnections (stats s)) (MessagesProcessed (stats s))
    (BytesProcessed (stats s)) (LastCleanup (stats s)).

End Shard.

(** ** internal/config/config.go *)

Module Config.

Definition second : Z := 1000000000.

Record Config := mkConfig {
  MaxMessageSize : Z;
  PongWait : Z;
  MaxConnsPerIP : Z;
  JWTSecret : string;
  TokenExpiry : Z;
  NodeID : string;
  MessagesPerSecond : Z;
  Burst : Z;
  ConnectionsPerUser : Z;
  GlobalConnections : Z;
  ShardCount : Z
}.

(** The values of [setDefaults]; the secret and the node id come from the
    environment, and the token expiry has no default. *)
Definition setDefaults (secret nodeID : string) (expiry : Z) : Config :=
  {| MaxMessageSize := 512 * 1024;
     PongWait := 60 * second;
     MaxConnsPerIP := 10;
     JWTSecret := secret;
     TokenExpiry := expiry;
     NodeID := nodeID;
     MessagesPerSecond := 100;
     Burst := 150;
     ConnectionsPerUser := 5;
     GlobalConnections := 1000000;
     ShardCount := 64 |}.

Definition validateConfig (cfg : Config) : option string :=
  if bool_decide (JWTSecret cfg = "") then Some "jwt_secret is required"
  else if bool_decide (10 * 1024 * 1024 < MaxMessageSize cfg)
       then Some "max_message_size cannot exceed 10MB"
  else if bool_decide (ShardCount cfg <= 0) then Some "shard_count must be positive"
  else if bool_decide (GlobalConnections cfg <= 0)
       then Some "global_connections limit must be positive"
  else None.

End Config.

(** ** internal/connection/manager.go *)

Module Manager.

Import Client Shard.

(** Calls of the registered hooks. *)
Inductive Event :=
| EvConnect (p : ptr)
| EvDisconnect (p : ptr) (reason : string).

Section WithLimiters.

Context {IPL UL : Type} `{!KeyedLimiter IPL} `{!KeyedLimiter UL}.

Record Manager := mkManager {
  heap : list Client;        (* the client objects, by address *)
  shards : list Shard;
  shardCount : Z;
  shardMask : Z;
  pongWait : Z;              (* config.Server.PongWait *)
  globalConns : Z;
  maxConns : Z;
  ipLimiter : IPL;
  userLimiter : UL;
  onConnect : bool;          (* whether the hook is set *)
  onDisconnect : bool;
  events : list Event        (* hook calls so far, latest last *)
}.

Definition NewManager (cfg : Config.Config) : Manager :=
  let shardCount := Int.wrap32 (Config.ShardCount cfg) in
  let shardCount := if bool_decide (shardCount = 0) then 64 else shardCount in
  let shardCount := Hash.nextPowerOfTwo shardCount in
  {| heap := [];
     shards := NewShard <$> seqZ 0 shardCount;
     shardCount := shardCount;
     shardMask := Int.wrap32 (shardCount - 1);
     pongWait := Config.PongWait cfg;
     globalConns := 0;
     maxConns := Int.wrap64 (Config.GlobalConnections cfg);
     ipLimiter := NewLimiter (Config.ConnectionsPerUser cfg) (Config.Burst cfg);
     userLimiter :=
       NewLimiter (Config.ConnectionsPerUser cfg) (Config.ConnectionsPerUser cfg);
     onConnect := false;
     onDisconnect := false;
     events := [] |}.

Definition RegisterHandlers (m : Manager) : Manager :=
  {| heap := heap m; shards := shards m; shardCount := shardCount m;
     shardMask := shardMask m; pongWait := pongWait m;
     globalConns := globalConns m; maxConns := maxConns m;
     ipLimiter := ipLimiter m; userLimiter := userLimiter m;
     onConnect := true; onDisconnect := true; events := events m |}.

Definition getShardID (m : Manager) (key : string) : Z :=
  Z.land (Hash.fnv32a key) (shardMask m).

(** [m.shards[shardID]]; out of range panics. *)
Definition shardAt (m : Manager) (shardID : Z) : option Shard :=
  shards m !! Z.to_nat shardID.

(** The fields an operation of the manager rewrites. *)
Definition update (m : Manager) (h : list Client) (ss : list Shard) (g : Z)
    (ipl : IPL) (ul : UL) (ev : list Event) : Manager :=
  {| heap := h; shards := ss; shardCount := shardCount m;
     shardMask := shardMask m; pongWait := pongWait m;
     globalConns := g; maxConns := maxConns m;
     ipLimiter := ipl; userLimiter := ul;
     onConnect := onConnect m; onDisconnect := onDisconnect m; events := ev |}.

(** [AddConnection]; [clientID] is the value of [uuid.New().String()].
    The result is the new client or the error text. *)
Definition AddConnection (m : Manager) (now : Z) (clientID ip : string)
  : option (Manager * (ptr + string)) :=
  if bool_decide (maxConns m <= globalConns m)
  then Some (m, inr "global connection limit reached")
  else
    let '(ok, ipl) := Allow (ipLimiter m) ip now in
    if negb ok
    then Some (update m (heap m) (shards m) (globalConns m) ipl (userLimiter m) (events m),
               inr "ip rate limit exceeded")
    else
      let shardID := getShardID m clientID in
      shard ← shardAt m shardID;
      let p := length (heap m) in
      let h := heap m ++ [NewClient clientID ip shardID now] in
      shard' ← AddClient h shard p;
      Some (update m h (<[Z.to_nat shardID := shard']> (shards m))
              (Int.wrap64 (globalConns m + 1)) ipl (userLimiter m)
              (events m ++ if onConnect m then [EvConnect p] else []),
            inl p).

(** [AuthenticateClient]; the result is the error text, if any. *)
Definition AuthenticateClient (m : Manager) (now : Z) (clientID userID deviceID : string)
  : option (Manager * option string) :=
  let shardID := getShardID m clientID in
  shard ← shardAt m shardID;
  match GetClient shard clientID with
  | None => Some (m, Some "client not found")
  | Some p =>
      let '(ok, ul) := Allow (userLimiter m) userID now in
      if negb ok
      then Some (update m (heap m) (shards m) (globalConns m) (ipLimiter m) ul (events m),
                 Some "user connection limit exceeded")
      else
        '(h, shard') ← RegisterAuthenticatedClient (heap m) shard p userID deviceID;
        Some (update m h (<[Z.to_nat shardID := shard']> (shards m))
                (globalConns m) (ipLimiter m) ul (events m),
              None)
  end.

Definition GetClient (m : Manager) (clientID : string) : option (option ptr) :=
  shard ← shardAt m (getShardID m clientID);
  Some (Shard.GetClient shard clientID).

Definition GetUserClients (m : Manager) (userID : string) : list ptr :=
  concat ((λ s, Shard.GetUserClients s userID) <$> shards m).

Definition SendToClient (m : Manager) (clientID message : string)
  : option (Manager * option string) :=
  shard ← shardAt m (getShardID m clientID);
  match Shard.GetClient shard clientID with
  | None => Some (m, Some "client not found")
  | Some p =>
      c ← heap m !! p;
      '(err, c') ← WriteMessage c message;
      Some (update m (<[p := c']> (heap m)) (shards m) (globalConns m)
              (ipLimiter m) (userLimiter m) (events m),
            match err with
            | None => None
            | Some ErrClientClosed => Some "client connection closed"
            | Some ErrClientSlow => Some "client send channel full"
            end)
  end.

(** [RemoveClient]: remove from the shard, and for a client that was
    there decrement the counter, close it and call the disconnect hook. *)
Definition RemoveClient (m : Manager) (clientID reason : string) : option Manager :=
  let shardID := getShardID m clientID in
  shard ← shardAt m shardID;
  '(shard', removed) ← Shard.RemoveClient (heap m) shard clientID;
  match removed with
  | None => Some m
  | Some p =>
      c ← heap m !! p;
      Some (update m (<[p := Close c reason]> (heap m))
              (<[Z.to_nat shardID := shard']> (shards m))
              (Int.wrap64 (globalConns m - 1)) (ipLimiter m) (userLimiter m)
              (events m ++ if onDisconnect m then [EvDisconnect p reason] else []))
  end.

(** [handleDisconnect], then [cleanup]: what [ReadPump] defers. *)
Definition ReadPump_exit (m : Manager) (p : ptr) : option Manager :=
  c ← heap m !! p;
  m1 ← RemoveClient m (ID c) "client_disconnected";
  c1 ← heap m1 !! p;
  Some (update m1 (<[p := cleanup c1]> (heap m1)) (shards m1) (globalConns m1)
          (ipLimiter m1) (userLimiter m1) (events m1)).

(** The body of the loop over [removed] in [cleanupInactiveConnections],
    for the shard [s] as [CleanupInactive] left it. *)
Definition report_removed (hook : bool) (s : Shard) (acc : Z * list Event)
    (clientID : string) : Z * list Event :=
  (Int.wrap64 (acc.1 - 1),
   if hook then
     match Shard.GetClient s clientID with
     | Some p => acc.2 ++ [EvDisconnect p "inactive_timeout"]
     | None => acc.2
     end
   else acc.2).

Definition sweep_shard (h : list Client) (now timeout : Z) (hook : bool)
    (acc : option (list Shard * (Z * list Event))) (s : Shard)
  : option (list Shard * (Z * list Event)) :=
  '(swept, ge) ← acc;
  '(s', removed) ← CleanupInactive h s now timeout;
  Some (swept ++ [s'], foldl (report_removed hook s') ge removed).

Definition cleanupInactiveConnections (m : Manager) (now : Z) : option Manager :=
  let timeout := Int.wrap64 (pongWait m * 2) in
  '(ss, ge) ←
     foldl (sweep_shard (heap m) now timeout (onDisconnect m))
       (Some ([], (globalConns m, events m))) (shards m);
  Some (update m (heap m) ss ge.1 (ipLimiter m) (userLimiter m) ge.2).

End WithLimiters.

Arguments Manager : clear implicits.

End Manager.

(** ** internal/server/websocket.go *)

Module Server.

Import Manager.

Record Request := mkRequest {
  XForwardedFor : string;   (* the header, empty when absent *)
  RemoteAddr : string;
  handshake : bool          (* whether the upgrade handshake succeeds *)
}.

(** What [ServeHTTP] does to the connection, in order. *)
Inductive Effect :=
| HTTPError (status : Z) (body : string)   (* http.Error(w, body, status) *)
| Upgraded                                 (* upgrader.Upgrade succeeded *)
| UpgradeFailed                            (* upgrader.Upgrade answered itself *)
| ConnClose.                               (* conn.Close() *)

Definition StatusTooManyRequests : Z := 429.
Definition StatusServiceUnavailable : Z := 503.

Definition getClientIP (r : Request) : string :=
  if bool_decide (XForwardedFor r ≠ "") then XForwardedFor r else RemoteAddr r.

Definition checkIPLimit (ip : string) : bool := true.

Section WithLimiters.

Context {IPL UL : Type} `{!KeyedLimiter IPL} `{!KeyedLimiter UL}.

Record WebSocketServer := mkServer {
  config : Config.Config;
  connManager : Manager IPL UL
}.

(** [ServeHTTP]; [clientID] is the id [AddConnection] will mint. *)
Definition ServeHTTP (s : WebSocketServer) (now : Z) (clientID : string) (r : Request)
  : option (WebSocketServer * list Effect) :=
  let ip := getClientIP r in
  if negb (checkIPLimit ip)
  then Some (s, [HTTPError StatusTooManyRequests "too many connections from this IP"])
  else if negb (handshake r) then Some (s, [UpgradeFailed])
  else
    '(m, res) ← AddConnection (connManager s) now clientID ip;
    match res with
    | inr _ => Some (mkServer (config s) m, [Upgraded; ConnClose])
    | inl _ => Some (mkServer (config s) m, [Upgraded])
    end.

End WithLimiters.

Arguments WebSocketServer : clear implicits.

End Server.

(** ** pkg/protocol/messages.go *)

Module Protocol.

Record BaseMessage := mkBase {
  Type_ : string;        (* the field Type *)
  MessageID : string;
  Timestamp : Z
}.

Definition zero : BaseMessage := mkBase "" "" 0.

Definition decode_field (acc : option BaseMessage) (kv : string * Json.value)
  : option BaseMessage :=
  b ← acc;
  if Json.names kv.1 "type"
  then t ← Json.into_string (Type_ b) kv.2; Some (mkBase t (MessageID b) (Timestamp b))
  else if Json.names kv.1 "message_id"
  then i ← Json.into_string (MessageID b) kv.2; Some (mkBase (Type_ b) i (Timestamp b))
  else if Json.names kv.1 "timestamp"
  then t ← Json.into_int64 (Timestamp b) kv.2; Some (mkBase (Type_ b) (MessageID b) t)
  else Some b.

(** [json.Unmarshal(raw, &baseMsg)] on a zero [BaseMessage]: an object
    fills the fields it names, [null] changes nothing, anything else is a
    type error. *)
Definition Unmarshal (v : Json.value) : option BaseMessage :=
  match v with
  | Json.Obj fields => foldl decode_field (Some zero) fields
  | Json.Null => Some zero
  | _ => None
  end.

End Protocol.

(** ** internal/pubsub/redis.go *)

Module PubSub.

Import Protocol.

Record Envelope := mkEnvelope {
  NodeID : string;
  Timestamp : Z;
  Message : option Json.value   (* json.RawMessage; None when the field is absent *)
}.

Record RedisPubSub := mkPubSub {
  channel : string;
  nodeID : string;
  handlers : gmap string nat    (* message type -> the handler registered *)
}.

Definition RegisterHandler (r : RedisPubSub) (msgType : string) (handler : nat)
  : RedisPubSub :=
  mkPubSub (channel r) (nodeID r) (<[msgType := handler]> (handlers r)).

(** [Publish]: [msgBytes] is [json.Marshal(msg)].  The envelope is a map,
    so its keys are written in sorted order; [msgBytes] is a byte slice
    stored in an interface value, which is marshalled as a base64 string;
    the node id is a string, which is marshalled coerced to valid UTF-8.
    The result is the JSON value that the bytes put on the bus denote. *)
Definition Publish (r : RedisPubSub) (now : Z) (msgBytes : string) : Json.value :=
  Json.Obj [("message", Json.Str (Json.base64 msgBytes));
            ("node_id", Json.Str (Json.toValidUTF8 (nodeID r)));
            ("timestamp", Json.Num (now / 1000000))].

Definition envelope_field (acc : option Envelope) (kv : string * Json.value)
  : option Envelope :=
  e ← acc;
  if Json.names kv.1 "node_id"
  then n ← Json.into_string (NodeID e) kv.2; Some (mkEnvelope n (Timestamp e) (Message e))
  else if Json.names kv.1 "timestamp"
  then t ← Json.into_int64 (Timestamp e) kv.2; Some (mkEnvelope (NodeID e) t (Message e))
  else if Json.names kv.1 "message"
  then Some (mkEnvelope (NodeID e) (Timestamp e) (Some kv.2))
  else Some e.

(** Decoding the payload into the envelope struct; [None] is an error of
    [json.Unmarshal]. *)
Definition parseEnvelope (payload : option Json.value) : option Envelope :=
  match payload with
  | Some (Json.Obj fields) => foldl envelope_field (Some (mkEnvelope "" 0 None)) fields
  | Some Json.Null => Some (mkEnvelope "" 0 None)
  | _ => None
  end.

(** Decoding [envelope.Message]; an absent field is empty input. *)
Definition parseInner (e : Envelope) : option BaseMessage :=
  raw ← Message e; Unmarshal raw.

(** [processMessage]: the handler calls it makes, as (handler, argument).
    [payload] is the JSON value of [redisMsg.Payload], [None] when the
    payload is not JSON. *)
Definition processMessage (r : RedisPubSub) (payload : option Json.value)
  : list (nat * BaseMessage) :=
  match parseEnvelope payload with
  | None => []
  | Some envelope =>
      if bool_decide (NodeID envelope = nodeID r) then []
      else match parseInner envelope with
           | None => []
           | Some baseMsg =>
               match handlers r !! Type_ baseMsg with
               | None => []
               | Some handler => [(handler, baseMsg)]
               end
           end
  end.

End PubSub.

(** ** golang-jwt/jwt v5, as far as the authenticator uses it

    A token is kept in parsed form, and an HMAC signature is represented
    by the key it was computed with: it verifies under that key and no
    other.  Claims travel as JSON, so string claims come back coerced to
    valid UTF-8 and dates come back in whole seconds. *)

Module Jwt.

Inductive SigningMethod := HS256 | HS384 | HS512 | RS256 | ES256 | NoneMethod.

Definition isHMAC (m : SigningMethod) : bool :=
  match m with
  | HS256 | HS384 | HS512 => true
  | _ => false
  end.

Record RegisteredClaims := mkRegistered {
  Issuer : string;
  ExpiresAt : option Z;   (* NumericDate, nanoseconds, a multiple of a second *)
  NotBefore : option Z;
  IssuedAt : option Z;
  ID : string
}.

Record Claims := mkClaims {
  UserID : string;
  DeviceID : string;
  SessionID : string;
  Registered : RegisteredClaims
}.

Record Token := mkToken {
  Method : SigningMethod;
  TokenClaims : Claims;
  signedWith : string
}.

(** A token string either has the three-part form of a token or not. *)
Inductive TokenString := Malformed | Compact (t : Token).

(** [NewNumericDate]: truncation to [TimePrecision], one second. *)
Definition NewNumericDate (t : Z) : Z := t - t mod Config.second.

(** The claims as they read back from the token's JSON. *)
Definition through_json (c : Claims) : Claims :=
  mkClaims (Json.toValidUTF8 (UserID c)) (Json.toValidUTF8 (DeviceID c))
    (Json.toValidUTF8 (SessionID c))
    (mkRegistered (Json.toValidUTF8 (Issuer (Registered c)))
       (ExpiresAt (Registered c)) (NotBefore (Registered c))
       (IssuedAt (Registered c)) (Json.toValidUTF8 (ID (Registered c)))).

(** [NewWithClaims(method, claims).SignedString(key)]. *)
Definition SignedString (m : SigningMethod) (c : Claims) (key : string) : TokenString :=
  Compact (mkToken m (through_json c) key).

(** The validator's checks on the registered claims at time [now]: the
    expiry must lie after [now], not-before must not; issued-at is not
    checked by default, and an absent claim passes. *)
Definition Validate (c : RegisteredClaims) (now : Z) : bool :=
  match ExpiresAt c with
  | Some exp => bool_decide (now < exp)
  | None => true
  end &&
  match NotBefore c with
  | Some nbf => bool_decide (nbf <= now)
  | None => true
  end.

(** [ParseWithClaims] with a key function that answers [None] when it
    refuses the token. *)
Definition ParseWithClaims (ts : TokenString) (keyFunc : Token -> option string) (now : Z)
  : option Token :=
  match ts with
  | Malformed => None
  | Compact t =>
      key ← keyFunc t;
      if isHMAC (Method t) && bool_decide (signedWith t = key)
           && Validate (Registered (TokenClaims t)) now
      then Some t else None
  end.

End Jwt.

(** ** internal/auth/jwt.go *)

Module Auth.

Import Jwt.

Inductive error := ErrInvalidToken | ErrExpiredToken | ErrInvalidIssuer | ErrMissingUserID.

Record Authenticator := mkAuthenticator {
  secret : string;
  issuer : string;
  expiry : Z
}.

Definition NewAuthenticator (cfg : Config.Config) : Authenticator :=
  {| secret := Config.JWTSecret cfg;
     issuer := "websocket-gateway";
     expiry := Config.TokenExpiry cfg |}.

(** The key function of [ValidateToken]: HMAC methods only. *)
Definition keyFunc (a : Authenticator) (t : Token) : option string :=
  if isHMAC (Method t) then Some (secret a) else None.

Definition ValidateToken (a : Authenticator) (tokenString : TokenString) (now : Z)
  : Claims + error :=
  match ParseWithClaims tokenString (keyFunc a) now with
  | None => inr ErrInvalidToken
  | Some token =>
      let claims := TokenClaims token in
      if bool_decide (Issuer (Registered claims) ≠ issuer a) then inr ErrInvalidIssuer
      else if bool_decide (UserID claims = "") then inr ErrMissingUserID
      else inl claims
  end.

Definition GenerateToken (a : Authenticator) (userID deviceID : string) (now : Z)
  : TokenString :=
  SignedString HS256
    {| UserID := userID;
       DeviceID := deviceID;
       SessionID := "";
       Registered :=
         {| ExpiresAt := Some (NewNumericDate (now + expiry a));
            IssuedAt := Some (NewNumericDate now);
            NotBefore := Some (NewNumericDate now);
            Issuer := issuer a;
            ID := (userID ++ "-" ++ pretty now)%string |} |}
    (secret a).

End Auth.

(** * Properties *)

(** ** Machine integers and hashing *)

Module IntFacts.

Import Int.

Lemma wrap64_id z : in_int64 z -> wrap64 z = z.
Proof.
  unfold in_int64, wrap64. intros Hz.
  rewrite Z.mod_small; lia.
Qed.

Lemma wrap64_in_int64 z : in_int64 (wrap64 z).
Proof.
  unfold in_int64, wrap64.
  pose proof (Z.mod_pos_bound (z + 2 ^ 63) (2 ^ 64)). lia.
Qed.

Lemma wrap32_range z : 0 <= wrap32 z < 2 ^ 32.
Proof. unfold wrap32. apply Z.mod_pos_bound. lia. Qed.

Lemma wrap32_id z : 0 <= z < 2 ^ 32 -> wrap32 z = z.
Proof. unfold wrap32. intros Hz. apply Z.mod_small. lia. Qed.

End IntFacts.

(** ** Shard selection *)

Module HashFacts.

(** The published test vectors of FNV-1a, and the rounding at a few
    shard counts. *)
Example fnv32a_vectors :
  Hash.fnv32a "" = 2166136261 /\ Hash.fnv32a "a" = 3826002220 /\
  Hash.fnv32a "foobar" = 3214735720.
Proof. repeat split. Qed.

Example nextPowerOfTwo_values :
  Hash.nextPowerOfTwo <$> [1; 2; 3; 64; 65; 1000] = [1; 2; 4; 64; 128; 1024].
Proof. reflexivity. Qed.

(** Masking selects an index within the mask, whatever the hash. *)
Lemma land_le_r h m : 0 <= m -> 0 <= Z.land h m <= m.
Proof.
  intros Hm. split; [apply Z.land_nonneg; by right|].
  assert (Hsum : Z.ldiff m h + Z.land m h = m).
  { rewrite Z.add_nocarry_lxor.
    - rewrite <- (Z.lor_ldiff_and m h) at 3.
      rewrite Z.lxor_lor; [done|].
      rewrite (Z.land_comm m h), Z.land_assoc, Z.land_ldiff. done.
    - rewrite (Z.land_comm m h), Z.land_assoc, Z.land_ldiff. done. }
  assert (0 <= Z.ldiff m h) by (apply Z.ldiff_nonneg; by left).
  rewrite (Z.land_comm h m). lia.
Qed.

Lemma lor_bound a b k : 0 <= k -> 0 <= a < 2 ^ k -> 0 <= b < 2 ^ k -> 0 <= Z.lor a b < 2 ^ k.
Proof.
  intros Hk Ha Hb. split; [apply Z.lor_nonneg; lia|].
  destruct (decide (Z.lor a b = 0)) as [->|Hne]; [apply Z.pow_pos_nonneg; lia|].
  assert (0 <= Z.lor a b) by (apply Z.lor_nonneg; lia).
  assert (0 < k).
  { destruct (decide (k = 0)) as [->|]; [|lia].
    assert (a = 0) as -> by lia. assert (b = 0) as -> by lia. done. }
  assert (Hlog : forall x, 0 <= x < 2 ^ k -> Z.log2 x < k).
  { intros x Hx. destruct (decide (x = 0)) as [->|]; [done|].
    apply Z.log2_lt_pow2; lia. }
  apply Z.log2_lt_pow2; [lia|].
  rewrite Z.log2_lor by lia.
  apply Z.max_lub_lt; by apply Hlog.
Qed.

Lemma shiftr_bound a n k : 0 <= n -> 0 <= a < 2 ^ k -> 0 <= Z.shiftr a n < 2 ^ k.
Proof.
  intros Hn Ha. split; [apply Z.shiftr_nonneg; lia|].
  rewrite Z.shiftr_div_pow2 by done.
  assert (0 < 2 ^ n) by (apply Z.pow_pos_nonneg; lia).
  assert (a `div` 2 ^ n <= a); [|lia].
  apply Z.div_le_upper_bound; [done|]. nia.
Qed.

Lemma fnv32a_from_nonneg s : forall h, 0 <= h -> 0 <= Hash.fnv32a_from h s.
Proof.
  induction s as [|a s IH]; intros h Hh; simpl; [done|].
  apply IH. apply IntFacts.wrap32_range.
Qed.

Lemma fnv32a_nonneg s : 0 <= Hash.fnv32a s.
Proof. apply fnv32a_from_nonneg. unfold Hash.offset32. lia. Qed.

Lemma smear_bound x n : 0 <= n -> 0 <= x < 2 ^ 31 -> 0 <= Z.lor x (Z.shiftr x n) < 2 ^ 31.
Proof.
  intros Hn Hx. apply lor_bound; [lia|done|]. by apply shiftr_bound.
Qed.

(** For a shard count of at most 2^31 the rounding does not overflow. *)
Lemma nextPowerOfTwo_range n :
  1 <= n <= 2 ^ 31 -> 1 <= Hash.nextPowerOfTwo n <= 2 ^ 31.
Proof.
  intros Hn. unfold Hash.nextPowerOfTwo.
  rewrite (IntFacts.wrap32_id (n - 1)) by lia.
  assert (H0 : 0 <= n - 1 < 2 ^ 31) by lia.
  pose proof (smear_bound _ 1 ltac:(lia) H0) as H1.
  pose proof (smear_bound _ 2 ltac:(lia) H1) as H2.
  pose proof (smear_bound _ 4 ltac:(lia) H2) as H3.
  pose proof (smear_bound _ 8 ltac:(lia) H3) as H4.
  pose proof (smear_bound _ 16 ltac:(lia) H4) as H5.
  rewrite IntFacts.wrap32_id; lia.
Qed.

End HashFacts.

(** ** Client sessions *)

Module ClientFacts.

Import Client.

(** The state a session object keeps between calls: the queue was made
    with capacity 256 and never holds more, and the channel is closed
    exactly when the closing flag is set (both flip together, under the
    session mutex, in [Close] and [cleanup]). *)
Record client_ok (c : Client) : Prop := {
  ok_cap : Chan.cap (Send c) = sendCap;
  ok_len : (Chan.len (Send c) <= sendCap)%nat;
  ok_closed : Chan.closed (Send c) = closing c;
  ok_cancel : closing c = true -> cancelled c = true /\ connClosed c = true
}.

Lemma NewClient_ok id ip sid now : client_ok (NewClient id ip sid now).
Proof. split; simpl; try done. unfold Chan.len, sendCap. simpl. lia. Qed.

Lemma SetAuthenticated_ok c u d : client_ok c -> client_ok (SetAuthenticated c u d).
Proof. intros [? ? ? ?]. split; simpl; done. Qed.

Lemma received_ok c now msg : client_ok c -> client_ok (received c now msg).
Proof. intros [? ? ? ?]. split; simpl; done. Qed.

Lemma shut_ok c log : client_ok c -> client_ok (shut c log).
Proof. intros [? ? ? ?]. split; simpl; done. Qed.

Lemma Close_ok c reason : client_ok c -> client_ok (Close c reason).
Proof. intros Hc. unfold Close. destruct (closing c); [done|]. by apply shut_ok. Qed.

Lemma cleanup_ok c : client_ok c -> client_ok (cleanup c).
Proof. intros Hc. unfold cleanup. destruct (closing c); simpl; [done|]. by apply shut_ok. Qed.

Lemma WritePump_drain_ok c frame c' :
  client_ok c -> WritePump_drain c = Some (frame, c') -> client_ok c'.
Proof.
  intros [Hcap Hlen Hclosed Hcan]. unfold WritePump_drain.
  destruct (Chan.buf (Send c)); [done|]. intros [= _ <-].
  split; simpl; try done. unfold Chan.len. simpl. lia.
Qed.

(** A send on an open channel with room appends; on a full one it would
    block. *)
Lemma trySend_room ch m :
  Chan.closed ch = false -> (Chan.len ch < Chan.cap ch)%nat ->
  Chan.trySend ch m = Chan.Sent (Chan.mkChan (Chan.buf ch ++ [m]) (Chan.cap ch) false).
Proof.
  intros Hcl Hlen. unfold Chan.trySend. rewrite Hcl.
  by rewrite bool_decide_eq_true_2.
Qed.

Lemma trySend_full ch m :
  Chan.closed ch = false -> (Chan.cap ch <= Chan.len ch)%nat ->
  Chan.trySend ch m = Chan.WouldBlock.
Proof.
  intros Hcl Hlen. unfold Chan.trySend. rewrite Hcl.
  rewrite bool_decide_eq_false_2; [done|lia].
Qed.

Lemma WriteMessage_ok c m e c' :
  client_ok c -> WriteMessage c m = Some (e, c') -> client_ok c'.
Proof.
  intros Hc. unfold WriteMessage.
  destruct (closing c) eqn:Hcl; [by intros [= <- <-]|].
  unfold Chan.trySend. rewrite (ok_closed c Hc), Hcl.
  case_bool_decide as Hlen; intros [= <- <-]; [|done].
  destruct Hc as [Hcap Hle Hclosed Hcan]. split; simpl; try done.
  unfold Chan.len in *. simpl. rewrite length_app. simpl. lia.
Qed.

(** [WriteMessage] never panics on a session in a consistent state. *)
Lemma WriteMessage_total c m : client_ok c -> is_Some (WriteMessage c m).
Proof.
  intros Hc. unfold WriteMessage.
  destruct (closing c) eqn:Hcl; [by eexists|].
  unfold Chan.trySend. rewrite (ok_closed c Hc), Hcl.
  case_bool_decide; by eexists.
Qed.

(** A session whose queue holds [n] messages, obtained by writing. *)
Definition filled (n : nat) : Client :=
  Nat.iter n
    (fun c => match WriteMessage c "m" with Some (_, c') => c' | None => c end)
    (NewClient "c1" "10.0.0.1" 0 0).

Lemma filled_ok n : client_ok (filled n).
Proof.
  induction n as [|n IH]; [apply NewClient_ok|].
  unfold filled in *. simpl.
  destruct (WriteMessage _ "m") as [[e c']|] eqn:Hw; [|done].
  by eapply WriteMessage_ok.
Qed.

(** C3, the claim as stated fails: a session that was closed while its
    queue held 256 messages answers a further [WriteMessage] with the
    closed error of the closing guard, not with the slow-client error. *)
Lemma WriteMessage_full_closing_not_slow :
  let c := Close (filled 256) "slow" in
  Chan.len (Send c) = 256%nat /\
  WriteMessage c "late" = Some (Some ErrClientClosed, c) /\
  WriteMessage c "late" <> Some (Some ErrClientSlow, c).
Proof. vm_compute. split; [done|]. split; [done|]. discriminate. Qed.

(** C3 (amended): for a session that is not closing, a [WriteMessage] on
    a queue of 256 returns the slow-client error at once and leaves the
    session as it was (the message is dropped, the session is not
    closed, the queue still holds 256); with room in the queue it
    appends the message and returns no error.  A closing session gets
    the closed error whatever its queue holds.  In every case the call
    returns and the queue holds at most 256 messages afterwards. *)
Theorem WriteMessage_backpressure (c : Client) (m : string) :
  client_ok c ->
  (closing c = false -> Chan.len (Send c) = 256%nat ->
     WriteMessage c m = Some (Some ErrClientSlow, c)) /\
  (closing c = false -> (Chan.len (Send c) < 256)%nat ->
     exists c', WriteMessage c m = Some (None, c') /\
       Chan.buf (Send c') = Chan.buf (Send c) ++ [m] /\ closing c' = false) /\
  (closing c = true -> WriteMessage c m = Some (Some ErrClientClosed, c)) /\
  (exists e c', WriteMessage c m = Some (e, c') /\ (Chan.len (Send c') <= 256)%nat).
Proof.
  intros Hc. pose proof Hc as [Hcap Hle Hclosed Hcan].
  unfold sendCap in *. repeat split.
  - intros Hcl Hlen. unfold WriteMessage. rewrite Hcl.
    rewrite trySend_full; [done|congruence|lia].
  - intros Hcl Hlen. unfold WriteMessage. rewrite Hcl.
    rewrite trySend_room; [|congruence|lia].
    eexists. split; [done|]. by simpl.
  - intros Hcl. unfold WriteMessage. by rewrite Hcl.
  - destruct (WriteMessage_total c m Hc) as [[e c'] Hw].
    exists e, c'. split; [done|].
    apply (ok_len c'). by eapply WriteMessage_ok.
Qed.

Lemma WriteMessage_backpressure_witness :
  client_ok (filled 256) /\
  WriteMessage (filled 256) "late" = Some (Some ErrClientSlow, filled 256).
Proof.
  split; [apply filled_ok|].
  destruct (WriteMessage_backpressure (filled 256) "late" (filled_ok 256))
    as [Hfull _].
  apply Hfull; by vm_compute.
Defined.

End ClientFacts.

(** ** The read pipeline and the frame size limit *)

Module ReadPumpFacts.

Import Client.

(** A frame of [size] bytes. *)
Definition frame_of_size (size : Z) : string :=
  Nat.iter (Z.to_nat size) (String (Ascii.ascii_of_nat 120)) "".

Lemma iter_String_length (n : nat) (a : Ascii.ascii) :
  String.length (Nat.iter n (String a) "") = n.
Proof. induction n as [|n IH]; simpl; [done|]. by rewrite IH. Qed.

Lemma frame_of_size_length size :
  0 <= size -> Z.of_nat (String.length (frame_of_size size)) = size.
Proof.
  intros Hs. unfold frame_of_size. rewrite iter_String_length. lia.
Qed.

Lemma ReadMessage_within limit frame :
  Z.of_nat (String.length frame) <= limit ->
  ReadMessage limit (Some frame) = ReadOk frame.
Proof.
  intros Hle. unfold ReadMessage. rewrite bool_decide_eq_false_2; [done|lia].
Qed.

Lemma ReadMessage_over limit frame :
  limit < Z.of_nat (String.length frame) ->
  ReadMessage limit (Some frame) = ReadErr.
Proof.
  intros Hlt. unfold ReadMessage. by rewrite bool_decide_eq_true_2.
Qed.

Lemma ReadPump_step_dispatch c now frame msgID :
  cancelled c = false -> Z.of_nat (String.length frame) <= readLimit ->
  ReadPump_step c now (Some frame) true msgID
  = Some (Dispatch frame, received c now frame).
Proof.
  intros Hc Hle. unfold ReadPump_step. rewrite Hc.
  by rewrite ReadMessage_within.
Qed.

Definition default_config : Config.Config :=
  Config.setDefaults "secret" "node-1" 0.

Definition fresh_client : Client := NewClient "c1" "10.0.0.1" 0 0.

(** C9, the claim as stated fails: under the default configuration
    (max_message_size 524288) a frame of 524289 bytes is read, counted
    and handed to the message handler; nothing is queued for the
    client, so no error frame is sent. *)
Lemma ReadPump_accepts_frame_over_max :
  Config.MaxMessageSize default_config = 524288 /\
  Z.of_nat (String.length (frame_of_size 524289)) = 524289 /\
  ReadPump_step fresh_client 7 (Some (frame_of_size 524289)) true "id-1"
  = Some (Dispatch (frame_of_size 524289),
          received fresh_client 7 (frame_of_size 524289)) /\
  Send (received fresh_client 7 (frame_of_size 524289)) = Send fresh_client.
Proof.
  split; [done|]. split; [by apply frame_of_size_length|]. split; [|done].
  apply ReadPump_step_dispatch; [done|].
  rewrite frame_of_size_length by lia. unfold readLimit. lia.
Qed.

(** C9 (amended): the read pipeline reads under a fixed limit of
    1048576 bytes, whatever [max_message_size] is configured.  A frame
    of at most that size is accepted (handed to the message handler when
    the rate limiter admits it), so a frame of exactly
    [max_message_size] is accepted whenever that setting is at most
    1048576.  A larger frame makes the read fail: the loop returns with
    the session untouched, so no error frame is queued, and the deferred
    teardown follows. *)
Theorem ReadPump_read_limit (cfg : Config.Config) (c : Client) (now : Z)
    (frame msgID : string) :
  cancelled c = false ->
  (Z.of_nat (String.length frame) <= 1048576 ->
     ReadPump_step c now (Some frame) true msgID
     = Some (Dispatch frame, received c now frame)) /\
  (Z.of_nat (String.length frame) = Config.MaxMessageSize cfg ->
     Config.MaxMessageSize cfg <= 1048576 ->
     ReadPump_step c now (Some frame) true msgID
     = Some (Dispatch frame, received c now frame)) /\
  (1048576 < Z.of_nat (String.length frame) ->
     forall allowed,
       ReadPump_step c now (Some frame) allowed msgID = Some (Return, c)).
Proof.
  intros Hc. repeat split.
  - intros Hle. by apply ReadPump_step_dispatch.
  - intros Heq Hle. apply ReadPump_step_dispatch; [done|].
    rewrite Heq. done.
  - intros Hlt allowed. unfold ReadPump_step. rewrite Hc.
    by rewrite ReadMessage_over.
Qed.

Lemma ReadPump_read_limit_witness :
  cancelled fresh_client = false /\
  ReadPump_step fresh_client 7 (Some "hello") true "id-1"
  = Some (Dispatch "hello", received fresh_client 7 "hello").
Proof.
  split; [reflexivity|].
  destruct (ReadPump_read_limit default_config fresh_client 7 "hello" "id-1")
    as [Hsmall _]; [reflexivity|].
  apply Hsmall. simpl. lia.
Defined.

End ReadPumpFacts.

(** ** The bus adapter *)

Module PubSubFacts.

Import Protocol PubSub.

(** Decide the field-name tests on the literal keys in the goal. *)
Ltac names_eval :=
  repeat match goal with
  | |- context [Json.names ?a ?b] =>
      let v := eval vm_compute in (Json.names a b) in
      change (Json.names a b) with v
  end.

(** A payload that does not decode to an envelope reaches no handler. *)
Lemma processMessage_undecodable r payload :
  parseEnvelope payload = None -> processMessage r payload = [].
Proof. intros He. unfold processMessage. by rewrite He. Qed.

(** What [Publish] puts on the bus decodes to an envelope that carries
    the publisher's node id as [json.Marshal] wrote it, if it decodes at
    all. *)
Lemma Publish_envelope_node r now msgBytes e :
  parseEnvelope (Some (Publish r now msgBytes)) = Some e ->
  NodeID e = Json.toValidUTF8 (nodeID r) /\
  Message e = Some (Json.Str (Json.base64 msgBytes)).
Proof.
  unfold parseEnvelope, Publish. cbn. names_eval. cbn.
  case_bool_decide; cbn; [|done].
  by intros [= <-].
Qed.

(** A node whose id is valid UTF-8 discards what it published itself at
    the comparison of the node ids. *)
Lemma Publish_self_discarded r now msgBytes e :
  Json.toValidUTF8 (nodeID r) = nodeID r ->
  parseEnvelope (Some (Publish r now msgBytes)) = Some e ->
  bool_decide (NodeID e = nodeID r) = true.
Proof.
  intros Hutf He. apply Publish_envelope_node in He as [Hn _].
  apply bool_decide_eq_true_2. by rewrite Hn.
Qed.

(** The envelope of [Publish] carries the message as a base64 string,
    which does not decode to a [BaseMessage]: on any node, no handler is
    called for it. *)
Remark Publish_never_dispatched r r' now msgBytes :
  processMessage r' (Some (Publish r now msgBytes)) = [].
Proof.
  unfold processMessage.
  destruct (parseEnvelope _) as [e|] eqn:He; [|done].
  apply Publish_envelope_node in He as [_ Hm].
  case_bool_decide; [done|].
  unfold parseInner. rewrite Hm. done.
Qed.

Definition node_A : RedisPubSub :=
  RegisterHandler (mkPubSub "ws-gateway:messages" "node-A" ∅) "presence" 7%nat.

Definition presence_from_B : Json.value :=
  Json.Obj [("node_id", Json.Str "node-B");
            ("timestamp", Json.Num 1700000000000);
            ("message", Json.Obj [("type", Json.Str "presence");
                                  ("timestamp", Json.Num 1700000000000)])].

(** What [processMessage] does with a payload that decodes to an
    envelope: an envelope stamped with this node's id is dropped and no
    handler is called; an envelope from another node whose inner message
    decodes and has a handler registered for its type gets exactly that
    handler called, with that message. *)
Lemma processMessage_loop_suppression (r : RedisPubSub)
    (payload : option Json.value) (e : Envelope) :
  parseEnvelope payload = Some e ->
  (NodeID e = nodeID r -> processMessage r payload = []) /\
  (NodeID e <> nodeID r ->
     forall (b : BaseMessage) (h : nat),
       parseInner e = Some b -> handlers r !! Type_ b = Some h ->
       processMessage r payload = [(h, b)]).
Proof.
  intros He. unfold processMessage. rewrite He. split.
  - intros Hn. by rewrite bool_decide_eq_true_2.
  - intros Hn b h Hb Hh. rewrite bool_decide_eq_false_2 by done.
    by rewrite Hb, Hh.
Qed.

Lemma processMessage_loop_suppression_witness :
  processMessage node_A (Some presence_from_B)
  = [(7%nat, mkBase "presence" "" 1700000000000)].
Proof.
  destruct (processMessage_loop_suppression node_A (Some presence_from_B)
              (mkEnvelope "node-B" 1700000000000
                 (Some (Json.Obj [("type", Json.Str "presence");
                                  ("timestamp", Json.Num 1700000000000)]))))
    as [_ Hother]; [reflexivity|].
  apply Hother; [discriminate|reflexivity|reflexivity].
Defined.

Definition node_B : RedisPubSub := mkPubSub "ws-gateway:messages" "node-B" ∅.

(** The bytes of a marshalled message of type presence, as [Publish]
    gets them from [json.Marshal(msg)]. *)
Definition presence_bytes : string :=
  ("{" ++ Client.member "type" (Client.quoted "presence") ++ "," ++
   Client.member "timestamp" "1700000000000" ++ "}")%string.

(** C4, the code at the failing input: node B publishes a presence
    message, and node A, which has a handler registered for the type
    presence, processes the envelope.  The envelope decodes and carries
    the node id of B, which differs from the one of A, so it is not
    dropped as A's own; but its message is the base64 string of the
    marshalled bytes, which decodes to no [BaseMessage], and
    [processMessage] calls no handler.  The same message placed in the
    envelope as a JSON object reaches the handler. *)
Theorem published_presence_not_dispatched :
  let payload := Some (Publish node_B 1700000000000000000 presence_bytes) in
  (exists e, parseEnvelope payload = Some e /\ NodeID e = "node-B" /\
             NodeID e <> nodeID node_A /\
             Message e = Some (Json.Str (Json.base64 presence_bytes)) /\
             parseInner e = None) /\
  handlers node_A !! "presence" = Some 7%nat /\
  processMessage node_A payload = [] /\
  processMessage node_A (Some presence_from_B)
  = [(7%nat, mkBase "presence" "" 1700000000000)].
Proof.
  simpl. split; [|split; [reflexivity|split]].
  - eexists. split; [vm_compute; reflexivity|].
    split; [reflexivity|]. split; [discriminate|]. split; reflexivity.
  - apply Publish_never_dispatched.
  - reflexivity.
Qed.

End PubSubFacts.


(** ** Token generation and validation *)

Module AuthFacts.

Import Jwt Auth.

Lemma NewNumericDate_le t : NewNumericDate t <= t.
Proof.
  unfold NewNumericDate, Config.second.
  pose proof (Z.mod_pos_bound t 1000000000). lia.
Qed.

Lemma NewNumericDate_gt t : t - Config.second < NewNumericDate t.
Proof.
  unfold NewNumericDate, Config.second.
  pose proof (Z.mod_pos_bound t 1000000000). lia.
Qed.


(** Every failure of [ParseWithClaims] surfaces as the invalid-token
    error. *)
Lemma ValidateToken_parse_error a ts now :
  ParseWithClaims ts (keyFunc a) now = None ->
  ValidateToken a ts now = inr ErrInvalidToken.
Proof. intros Hp. unfold ValidateToken. by rewrite Hp. Qed.

Lemma ParseWithClaims_claims t key now t' :
  ParseWithClaims (Compact t) key now = Some t' -> t' = t.
Proof.
  unfold ParseWithClaims. destruct (key t); simpl; [|done].
  destruct (_ && _); [|done]. by intros [= <-].
Qed.

Definition half_second_config : Config.Config :=
  Config.setDefaults "secret" "node-1" 500000000.



Definition day_config : Config.Config :=
  Config.setDefaults "secret" "node-1" (86400 * Config.second).


End AuthFacts.

(** ** The upgrade handler *)

Module ServerFacts.

Import Manager Server.

(** Refute a membership [Hin] in a literal list by going through it. *)
Ltac absent :=
  match goal with
  | Hin : _ ∈ _ |- _ =>
      repeat (apply elem_of_cons in Hin as [Hin|Hin]; [discriminate|]);
      by apply elem_of_nil in Hin
  end.

Section WithLimiters.

Context {IPL UL : Type} `{!KeyedLimiter IPL} `{!KeyedLimiter UL}.

Implicit Types (s : WebSocketServer IPL UL) (m : Manager IPL UL).

(** A refusal of [AddConnection] leaves the registry and the counter as
    they were. *)
Lemma AddConnection_refused m now id ip m' msg :
  AddConnection m now id ip = Some (m', inr msg) ->
  heap m' = heap m /\ shards m' = shards m /\ globalConns m' = globalConns m /\
  events m' = events m.
Proof.
  unfold AddConnection. case_bool_decide; [by intros [= <- _]|].
  destruct (Allow (ipLimiter m) ip now) as [ok ipl].
  destruct ok; simpl; [|by intros [= <- _]].
  destruct (shardAt m _) as [shard|]; simpl; [|done].
  destruct (Shard.AddClient _ shard _); simpl; done.
Qed.

Lemma AddConnection_full m now id ip :
  maxConns m <= globalConns m ->
  AddConnection m now id ip = Some (m, inr "global connection limit reached").
Proof. intros Hfull. unfold AddConnection. by rewrite bool_decide_eq_true_2. Qed.

Lemma AddConnection_ip_refused m now id ip ipl :
  globalConns m < maxConns m -> Allow (ipLimiter m) ip now = (false, ipl) ->
  AddConnection m now id ip
  = Some (update m (heap m) (shards m) (globalConns m) ipl (userLimiter m) (events m),
          inr "ip rate limit exceeded").
Proof.
  intros Hroom Hip. unfold AddConnection.
  rewrite bool_decide_eq_false_2 by lia. by rewrite Hip.
Qed.

(** C7 (amended): [ServeHTTP] never answers with an HTTP error status of
    its own, neither 429 nor 503: its IP check before the upgrade always
    admits.  The global limit and the IP rate limit are consulted by
    [AddConnection], after the upgrade has been performed; when either
    refuses, the upgraded connection is closed and the registry and the
    counter stay as they were. *)
Theorem ServeHTTP_limits_after_upgrade s (now : Z) (clientID : string)
    (r : Request) s' (eff : list Effect) :
  ServeHTTP s now clientID r = Some (s', eff) ->
  (forall status body, HTTPError status body ∉ eff) /\
  (handshake r = false -> eff = [UpgradeFailed] /\ s' = s) /\
  (handshake r = true ->
     maxConns (connManager s) <= globalConns (connManager s) ->
     eff = [Upgraded; ConnClose] /\ s' = s) /\
  (handshake r = true ->
     globalConns (connManager s) < maxConns (connManager s) ->
     (Allow (ipLimiter (connManager s)) (getClientIP r) now).1 = false ->
     eff = [Upgraded; ConnClose] /\
     shards (connManager s') = shards (connManager s) /\
     globalConns (connManager s') = globalConns (connManager s)) /\
  (handshake r = true -> head eff = Some Upgraded).
Proof.
  unfold ServeHTTP. destruct s as [cfg m]. simpl.
  destruct (handshake r) eqn:Hh; simpl.
  - destruct (AddConnection m now clientID (getClientIP r)) as [[m1 res]|] eqn:Ha;
      simpl; [|done].
    intros Hres. split; [|split; [done|split; [|split]]].
    + intros status body Hin. destruct res; simplify_eq; absent.
    + intros _ Hfull. rewrite (AddConnection_full m) in Ha by done.
      by simplify_eq.
    + intros _ Hroom Hip.
      destruct (Allow (ipLimiter m) (getClientIP r) now) as [ok ipl] eqn:Hal.
      simpl in Hip. subst ok.
      rewrite (AddConnection_ip_refused m _ _ _ ipl) in Ha by done.
      by simplify_eq.
    + intros _. destruct res; by simplify_eq.
  - intros [= <- <-]. split; [|done].
    intros status body Hin. absent.
Qed.

End WithLimiters.

(** A gateway with room for one connection, already holding one, and a
    gateway whose IP limiter admits one connection per burst. *)
Definition one_slot_config : Config.Config :=
  Config.mkConfig 524288 (60 * Config.second) 10 "secret" 0 "node-1" 100 150 5 1 1.

Definition one_per_ip_config : Config.Config :=
  Config.mkConfig 524288 (60 * Config.second) 10 "secret" 0 "node-1" 100 1 5 10 1.

Definition serve_twice (cfg : Config.Config) : option (list Effect * list Effect * Z) :=
  let s0 := mkServer cfg
              (RegisterHandlers
                 (NewManager (IPL := TokenBucket.limiter) (UL := TokenBucket.limiter) cfg)) in
  '(s1, eff1) ← ServeHTTP s0 0 "c1" (mkRequest "" "1.2.3.4:5000" true);
  '(s2, eff2) ← ServeHTTP s1 0 "c2" (mkRequest "" "1.2.3.4:5000" true);
  Some (eff1, eff2, globalConns (connManager s2)).

(** C7, the claim as stated fails: when the global limit is reached,
    and likewise when the IP limiter refuses, the connection has
    already been upgraded; it is then closed, and no HTTP status 503 or
    429 is written. *)
Lemma ServeHTTP_rejects_after_upgrade :
  Config.validateConfig one_slot_config = None /\
  serve_twice one_slot_config = Some ([Upgraded], [Upgraded; ConnClose], 1) /\
  serve_twice one_per_ip_config = Some ([Upgraded], [Upgraded; ConnClose], 1) /\
  (HTTPError StatusServiceUnavailable "" ∉ [Upgraded; ConnClose]) /\
  (HTTPError StatusTooManyRequests "" ∉ [Upgraded; ConnClose]).
Proof.
  split; [by vm_compute|]. split; [by vm_compute|]. split; [by vm_compute|].
  split; intros Hin; absent.
Qed.

Definition full_server : WebSocketServer TokenBucket.limiter TokenBucket.limiter :=
  mkServer one_slot_config
    (update (NewManager one_slot_config) [] (shards (NewManager one_slot_config))
       1 (ipLimiter (NewManager one_slot_config))
       (userLimiter (NewManager one_slot_config)) []).

Lemma ServeHTTP_limits_after_upgrade_witness :
  ServeHTTP full_server 0 "c9" (mkRequest "" "1.2.3.4:5000" true)
  = Some (full_server, [Upgraded; ConnClose]) /\
  (HTTPError StatusServiceUnavailable "global connection limit reached"
   ∉ [Upgraded; ConnClose]).
Proof.
  split; [by vm_compute|].
  destruct (ServeHTTP_limits_after_upgrade full_server 0 "c9"
              (mkRequest "" "1.2.3.4:5000" true) full_server [Upgraded; ConnClose])
    as [Hnone _]; [by vm_compute|].
  apply Hnone.
Defined.

End ServerFacts.

(** ** Shards *)

Module ShardFacts.

Import Client Shard.

(** The client stored in a user index under a user and a device. *)
Definition entry (uc : gmap string (gmap string ptr)) (userID deviceID : string)
  : option ptr :=
  devices ← uc !! userID; devices !! deviceID.

Lemma entry_dropDevice uc u d u' d' :
  entry (dropDevice uc u d) u' d'
  = if bool_decide (u' = u /\ d' = d) then None else entry uc u' d'.
Proof.
  unfold dropDevice, entry.
  destruct (uc !! u) as [devices|] eqn:Hu.
  - case_bool_decide as Hsize.
    + apply map_size_empty_inv in Hsize.
      destruct (decide (u' = u)) as [->|Hne].
      * rewrite lookup_delete_eq. simpl. rewrite Hu. simpl.
        case_bool_decide as Hk; [done|].
        destruct (decide (d' = d)) as [->|Hd]; [by destruct Hk|].
        rewrite <- (lookup_delete_ne devices d d') by done.
        by rewrite Hsize, lookup_empty.
      * rewrite lookup_delete_ne by done.
        rewrite bool_decide_eq_false_2; [done|]. by intros [? _].
    + destruct (decide (u' = u)) as [->|Hne].
      * rewrite lookup_insert_eq. simpl. rewrite Hu. simpl.
        case_bool_decide as Hk.
        -- destruct Hk as [_ ->]. apply lookup_delete_eq.
        -- apply lookup_delete_ne. intros ->. by apply Hk.
      * rewrite lookup_insert_ne by done.
        rewrite bool_decide_eq_false_2; [done|]. by intros [? _].
  - case_bool_decide as Hk; [|done].
    destruct Hk as [-> ->]. by rewrite Hu.
Qed.

Lemma entry_unindex uc c u d p :
  entry (unindex uc c) u d = Some p -> entry uc u d = Some p.
Proof.
  unfold unindex. case_bool_decide; [|done].
  rewrite entry_dropDevice. by case_bool_decide.
Qed.

Lemma entry_unindex_own uc c :
  UserID c <> "" -> entry (unindex uc c) (UserID c) (DeviceID c) = None.
Proof.
  intros Hu. unfold unindex. rewrite bool_decide_eq_true_2 by done.
  rewrite entry_dropDevice. by rewrite bool_decide_eq_true_2.
Qed.

Lemma entry_Some uc u d p :
  entry uc u d = Some p <->
  exists devices, uc !! u = Some devices /\ devices !! d = Some p.
Proof.
  unfold entry. destruct (uc !! u) as [devices|]; simpl.
  - split; [by exists devices|]. by intros (? & [= <-] & ?).
  - split; [done|]. by intros (? & ? & ?).
Qed.

Lemma RegisterAuthenticatedClient_spec h s p u d c :
  h !! p = Some c ->
  exists s',
    RegisterAuthenticatedClient h s p u d
    = Some (<[p := SetAuthenticated c u d]> h, s') /\
    clients s' = clients s /\ stats s' = stats s /\ SID s' = SID s /\
    forall u' d',
      entry (userClients s') u' d'
      = if bool_decide (u' = u /\ d' = d) then Some p
        else entry (userClients s) u' d'.
Proof.
  intros Hp. unfold RegisterAuthenticatedClient. rewrite Hp. simpl.
  eexists. split; [done|]. simpl. repeat split; try done.
  intros u' d'. unfold entry.
  destruct (decide (u' = u)) as [->|Hne].
  - rewrite lookup_insert_eq. simpl.
    destruct (decide (d' = d)) as [->|Hd].
    + rewrite bool_decide_eq_true_2 by done. apply lookup_insert_eq.
    + rewrite bool_decide_eq_false_2 by (by intros [_ ?]).
      rewrite lookup_insert_ne by done.
      destruct (userClients s !! u); simpl; [done|]. apply lookup_empty.
  - rewrite lookup_insert_ne by done.
    rewrite bool_decide_eq_false_2; [done|]. by intros [? _].
Qed.

End ShardFacts.

(** ** The sweep of a shard *)

Module SweepFacts.

Import Client Shard ShardFacts.

(** Whether the sweep takes an entry of the primary map. *)
Definition is_stale (h : list Client) (now timeout : Z) (e : string * ptr) : bool :=
  match h !! e.2 with
  | Some c => bool_decide (timeout < now - LastActivity c)
  | None => false
  end.

Lemma sweep_fold_None h now timeout l :
  foldl (sweep_entry h now timeout) None l = None.
Proof. by induction l. Qed.

Lemma sweep_fold_spec h now timeout l :
  forall cl uc removed cl' uc' removed',
    foldl (sweep_entry h now timeout) (Some (cl, uc, removed)) l
    = Some (cl', uc', removed') ->
    removed' = removed ++ (filter (fun e => is_stale h now timeout e = true) l).*1 /\
    (forall id p, cl' !! id = Some p -> cl !! id = Some p) /\
    (forall id p, cl !! id = Some p -> id ∉ removed' -> cl' !! id = Some p) /\
    (forall u d p, entry uc' u d = Some p -> entry uc u d = Some p) /\
    ((forall id, id ∈ removed -> cl !! id = None) ->
     forall id, id ∈ removed' -> cl' !! id = None) /\
    (NoDup l.*1 -> (forall e, e ∈ l -> cl !! e.1 = Some e.2) ->
     (size cl' + length removed' = size cl + length removed)%nat).
Proof.
  induction l as [|e l IH]; intros cl uc removed cl' uc' removed'.
  - simpl. intros [= <- <- <-]. rewrite app_nil_r. repeat split; try done.
  - simpl. unfold is_stale at 1.
    destruct (h !! e.2) as [c|] eqn:Hc; simpl;
      [|by rewrite sweep_fold_None].
    rewrite filter_cons. unfold is_stale at 1. rewrite Hc.
    case_bool_decide as Hst.
    + rewrite decide_True by done.
      intros Hf. apply IH in Hf as (Hrem & Hsub & Hkeep & Hidx & Hgone & Hsize).
      split; [by rewrite Hrem, <- app_assoc|].
      split; [|split; [|split; [|split]]].
      * intros id p Hid. apply Hsub in Hid.
        apply lookup_delete_Some in Hid. by destruct Hid.
      * intros id p Hid Hnot. apply Hkeep; [|done].
        rewrite lookup_delete_ne; [done|].
        intros <-. apply Hnot. rewrite Hrem.
        apply elem_of_app. left. apply elem_of_app. right. by left.
      * intros u d p Hu. eapply entry_unindex. by apply Hidx.
      * intros Hold. apply Hgone. intros id Hid.
        apply elem_of_app in Hid as [Hid|Hid].
        -- rewrite lookup_delete_None. right. by apply Hold.
        -- apply list_elem_of_singleton in Hid as ->. apply lookup_delete_eq.
      * intros Hnd Hin. apply NoDup_cons in Hnd as [Hfresh Hnd].
        assert (Hsz : (size (delete e.1 cl) + length (removed ++ [e.1])
                       = size cl + length removed)%nat).
        { rewrite map_size_delete_Some by (exists e.2; apply Hin; left).
          rewrite length_app. simpl.
          assert (size cl ≠ 0%nat); [|lia].
          intros Hz. apply map_size_empty_inv in Hz.
          specialize (Hin e ltac:(left)). by rewrite Hz, lookup_empty in Hin. }
        rewrite <- Hsz. apply Hsize; [done|].
        intros e' He'. rewrite lookup_delete_ne.
        -- apply Hin. by right.
        -- intros Heq. apply Hfresh. rewrite Heq.
           apply list_elem_of_fmap. by exists e'.
    + rewrite decide_False by (by rewrite not_true_iff_false).
      intros Hf. apply IH in Hf as (Hrem & Hsub & Hkeep & Hidx & Hgone & Hsize).
      repeat split; try done.
      intros Hnd Hin. apply NoDup_cons in Hnd as [Hfresh Hnd].
      apply Hsize; [done|]. intros e' He'. apply Hin. by right.
Qed.

Lemma CleanupInactive_spec h s now timeout s' removed :
  CleanupInactive h s now timeout = Some (s', removed) ->
  removed
  = (filter (fun e => is_stale h now timeout e = true) (map_to_list (clients s))).*1 /\
  (forall id p, clients s' !! id = Some p -> clients s !! id = Some p) /\
  (forall id p, clients s !! id = Some p -> id ∉ removed -> clients s' !! id = Some p) /\
  (forall u d p,
     entry (userClients s') u d = Some p -> entry (userClients s) u d = Some p) /\
  (forall id, id ∈ removed -> clients s' !! id = None) /\
  (size (clients s') + length removed = size (clients s))%nat.
Proof.
  unfold CleanupInactive.
  destruct (foldl _ _ _) as [[[cl uc] rem]|] eqn:Hf; simpl; [|done].
  intros [= <- <-]. simpl.
  apply sweep_fold_spec in Hf as (Hrem & Hsub & Hkeep & Hidx & Hgone & Hsize).
  split; [done|]. split; [done|]. split; [done|]. split; [done|]. split.
  - apply Hgone. intros id Hid. by apply elem_of_nil in Hid.
  - rewrite Hsize; [simpl; lia|apply NoDup_fst_map_to_list|].
    intros [id p] He. by apply elem_of_map_to_list in He.
Qed.

End SweepFacts.

(** ** The registry invariant *)

Module RegistryFacts.

Import Client Shard ShardFacts SweepFacts ClientFacts.

(** The number of sessions in the primary maps. *)
Definition registered (ss : list Shard) : Z :=
  Z.of_nat (sum_list_with (fun s => size (clients s)) ss).

Lemma sum_list_with_insert {A} (f : A -> nat) (l : list A) (i : nat) (x y : A) :
  l !! i = Some x ->
  (sum_list_with f (<[i := y]> l) + f x = sum_list_with f l + f y)%nat.
Proof.
  revert i. induction l as [|a l IH]; intros i Hi; [done|].
  destruct i as [|i]; simpl in *.
  - injection Hi as ->. lia.
  - specialize (IH i Hi). lia.
Qed.

Lemma registered_insert ss i s s' :
  ss !! i = Some s ->
  registered (<[i := s']> ss)
  = registered ss - Z.of_nat (size (clients s)) + Z.of_nat (size (clients s')).
Proof.
  intros Hi. unfold registered.
  pose proof (sum_list_with_insert (fun s => size (clients s)) ss i s s' Hi). lia.
Qed.

Lemma registered_nonneg ss : 0 <= registered ss.
Proof. unfold registered. lia. Qed.

Lemma registered_cons s ss :
  registered (s :: ss) = Z.of_nat (size (clients s)) + registered ss.
Proof. unfold registered. simpl. lia. Qed.

Lemma registered_app ss ss' : registered (ss ++ ss') = registered ss + registered ss'.
Proof. unfold registered. rewrite sum_list_with_app. lia. Qed.

(** The shard a key selects under a mask. *)
Definition shard_of (mask : Z) (key : string) : Z := Z.land (Hash.fnv32a key) mask.

(** The fields of a session that place it in the registry. *)
Definition same_session (c c' : Client) : Prop :=
  ID c' = ID c /\ UserID c' = UserID c /\ DeviceID c' = DeviceID c /\
  authenticated c' = authenticated c.

(** What holds of the heap and the shards between operations: a primary
    entry points to a session with that id, in the shard its id selects;
    a user-index entry points to a session object that is marked
    authenticated and whose id selects the shard of the entry; a session
    that never authenticated has no user id; every session object is
    consistent.  Nothing is said about
    the user and the device of the session an index entry points to, or
    about that session still being in the primary map:
    [AuthenticateClient] may run again on a session, under another user
    or device, and the entry of the earlier registration stays. *)
Record registry_ok (mask : Z) (h : list Client) (ss : list Shard) : Prop := {
  reg_primary : forall i s id p,
    ss !! i = Some s -> clients s !! id = Some p ->
    exists c, h !! p = Some c /\ ID c = id /\ shard_of mask id = Z.of_nat i;
  reg_index : forall i s u d p,
    ss !! i = Some s -> entry (userClients s) u d = Some p ->
    exists c, h !! p = Some c /\ authenticated c = true /\
              shard_of mask (ID c) = Z.of_nat i;
  reg_anon : forall p c, h !! p = Some c -> authenticated c = false -> UserID c = "";
  reg_clients : forall p c, h !! p = Some c -> client_ok c
}.

Lemma registry_ok_alloc mask h ss c :
  registry_ok mask h ss -> client_ok c ->
  (authenticated c = false -> UserID c = "") ->
  registry_ok mask (h ++ [c]) ss.
Proof.
  intros [Hp Hi Ha Hc] Hok Hanon. split.
  - intros i s id p Hs Hid. destruct (Hp i s id p Hs Hid) as (c0 & Hh & ? & ?).
    exists c0. split; [|done]. by apply lookup_app_l_Some.
  - intros i s u d p Hs Hid. destruct (Hi i s u d p Hs Hid) as (c0 & Hh & ?).
    exists c0. split; [|done]. by apply lookup_app_l_Some.
  - intros p c0 Hh. apply lookup_app_Some in Hh as [Hh|[_ Hh]]; [by eapply Ha|].
    apply list_lookup_singleton_Some in Hh as [_ <-]. done.
  - intros p c0 Hh. apply lookup_app_Some in Hh as [Hh|[_ Hh]]; [by eapply Hc|].
    apply list_lookup_singleton_Some in Hh as [_ <-]. done.
Qed.

Lemma registry_ok_touch mask h ss p c c' :
  registry_ok mask h ss -> h !! p = Some c -> same_session c c' -> client_ok c' ->
  registry_ok mask (<[p := c']> h) ss.
Proof.
  intros [Hp Hi Ha Hc] Hh (Hid & Hu & Hd & Hau) Hok.
  assert (Hlt : (p < length h)%nat) by (by eapply lookup_lt_Some).
  split.
  - intros i s id q Hs Hq. destruct (Hp i s id q Hs Hq) as (c0 & Hh0 & Hid0 & Hsh).
    destruct (decide (q = p)) as [->|Hne].
    + exists c'. rewrite list_lookup_insert_eq by done. split; [done|].
      assert (c0 = c) as -> by congruence. by rewrite Hid.
    + exists c0. by rewrite list_lookup_insert_ne.
  - intros i s u d q Hs Hq.
    destruct (Hi i s u d q Hs Hq) as (c0 & Hh0 & Hau0 & Hsh).
    destruct (decide (q = p)) as [->|Hne].
    + exists c'. rewrite list_lookup_insert_eq by done. split; [done|].
      assert (c0 = c) as -> by congruence. by rewrite Hau, Hid.
    + exists c0. by rewrite list_lookup_insert_ne.
  - intros q c0 Hq. destruct (decide (q = p)) as [->|Hne].
    + rewrite list_lookup_insert_eq in Hq by done. injection Hq as <-.
      rewrite Hau, Hu. by eapply Ha.
    + rewrite list_lookup_insert_ne in Hq by done. by eapply Ha.
  - intros q c0 Hq. destruct (decide (q = p)) as [->|Hne].
    + rewrite list_lookup_insert_eq in Hq by done. by injection Hq as <-.
    + rewrite list_lookup_insert_ne in Hq by done. by eapply Hc.
Qed.

(** Replacing a shard by one whose maps hold no new entries. *)
Lemma registry_ok_shrink mask h ss i s s' :
  registry_ok mask h ss -> ss !! i = Some s ->
  (forall id p, clients s' !! id = Some p -> clients s !! id = Some p) ->
  (forall u d p,
     entry (userClients s') u d = Some p -> entry (userClients s) u d = Some p) ->
  registry_ok mask h (<[i := s']> ss).
Proof.
  intros [Hp Hi Ha Hc] Hs Hsub Hidx.
  assert (Hlt : (i < length ss)%nat) by (by eapply lookup_lt_Some).
  split; [| |done|done].
  - intros j t id p Ht Hid. destruct (decide (j = i)) as [->|Hne].
    + rewrite list_lookup_insert_eq in Ht by done. injection Ht as <-.
      apply (Hp i s id p Hs). by apply Hsub.
    + rewrite list_lookup_insert_ne in Ht by done. by eapply Hp.
  - intros j t u d p Ht Hid. destruct (decide (j = i)) as [->|Hne].
    + rewrite list_lookup_insert_eq in Ht by done. injection Ht as <-.
      apply (Hi i s u d p Hs). by apply Hidx.
    + rewrite list_lookup_insert_ne in Ht by done. by eapply Hi.
Qed.

End RegistryFacts.

(** ** The connection manager *)

Module ManagerFacts.

Import Client Shard Manager ShardFacts SweepFacts ClientFacts RegistryFacts.

Section WithLimiters.

Context {IPL UL : Type} `{!KeyedLimiter IPL} `{!KeyedLimiter UL}.

Implicit Types (m : Manager IPL UL).

(** The state of a manager between operations: the shard array has one
    shard per value of the mask, the counter equals the number of
    registered sessions and fits its type, and the registry is
    consistent. *)
Record manager_ok m : Prop := {
  ok_mask : 0 <= shardMask m;
  ok_shards : Z.of_nat (length (shards m)) = shardMask m + 1;
  ok_max : Int.in_int64 (maxConns m);
  ok_count : globalConns m = registered (shards m);
  ok_range : globalConns m < 2 ^ 63;
  ok_registry : registry_ok (shardMask m) (heap m) (shards m)
}.

Lemma getShardID_range m key : 0 <= shardMask m -> 0 <= getShardID m key <= shardMask m.
Proof. intros Hm. unfold getShardID. by apply HashFacts.land_le_r. Qed.

Lemma shardAt_is_Some m key : manager_ok m -> is_Some (shardAt m (getShardID m key)).
Proof.
  intros Hok. unfold shardAt. apply lookup_lt_is_Some.
  pose proof (getShardID_range m key (ok_mask m Hok)).
  pose proof (ok_shards m Hok). lia.
Qed.

Lemma getShardID_index m key :
  0 <= shardMask m -> Z.of_nat (Z.to_nat (getShardID m key)) = getShardID m key.
Proof. intros Hm. pose proof (getShardID_range m key Hm). lia. Qed.

Lemma registered_NewShard l : registered (NewShard <$> l) = 0.
Proof.
  unfold registered.
  assert (sum_list_with (fun s => size (clients s)) (NewShard <$> l) = 0%nat) as ->; [|done].
  induction l as [|i l IH]; [done|].
  rewrite fmap_cons. simpl. rewrite IH. by rewrite map_size_empty.
Qed.

(** A manager without shards: every operation that needs a shard
    panics, so nothing is ever registered. *)
Definition no_shards m : Prop := shards m = [] /\ globalConns m = 0.

Lemma nextPowerOfTwo_bounds n : 0 <= Hash.nextPowerOfTwo n < 2 ^ 32.
Proof. unfold Hash.nextPowerOfTwo. apply IntFacts.wrap32_range. Qed.

(** [NewManager] sets up a consistent manager whenever the rounded
    shard count is not zero. *)
Lemma NewManager_ok_of_count cfg :
  1 <= shardCount (NewManager (IPL := IPL) (UL := UL) cfg) ->
  manager_ok (NewManager cfg).
Proof.
  unfold NewManager. simpl.
  set (k := Hash.nextPowerOfTwo _). intros Hk.
  pose proof (nextPowerOfTwo_bounds
                (if bool_decide (Int.wrap32 (Config.ShardCount cfg) = 0) then 64
                 else Int.wrap32 (Config.ShardCount cfg))) as Hb.
  fold k in Hb.
  split; simpl.
  - rewrite IntFacts.wrap32_id; lia.
  - rewrite length_fmap, length_seqZ. rewrite IntFacts.wrap32_id; lia.
  - apply IntFacts.wrap64_in_int64.
  - by rewrite registered_NewShard.
  - lia.
  - split.
    + intros i s id p Hs. apply list_lookup_fmap_Some in Hs as (j & -> & _).
      simpl. by rewrite lookup_empty.
    + intros i s u d p Hs. apply list_lookup_fmap_Some in Hs as (j & -> & _).
      unfold entry. simpl. by rewrite lookup_empty.
    + intros p c Hp. by rewrite lookup_nil in Hp.
    + intros p c Hp. by rewrite lookup_nil in Hp.
Qed.

(** That is the case for every shard count from 1 to 2^31. *)
Lemma NewManager_ok cfg :
  0 < Config.ShardCount cfg <= 2 ^ 31 -> manager_ok (NewManager cfg).
Proof.
  intros Hsc. apply NewManager_ok_of_count. unfold NewManager. simpl.
  rewrite (IntFacts.wrap32_id (Config.ShardCount cfg)) by lia.
  rewrite bool_decide_eq_false_2 by lia.
  apply HashFacts.nextPowerOfTwo_range. lia.
Qed.

(** A larger count rounds to zero, which leaves the manager without
    shards. *)
Lemma NewManager_inv cfg :
  manager_ok (NewManager cfg) \/ no_shards (NewManager (IPL := IPL) (UL := UL) cfg).
Proof.
  destruct (decide (1 <= shardCount (NewManager (IPL := IPL) (UL := UL) cfg)))
    as [Hk|Hk]; [left; by apply NewManager_ok_of_count|].
  right. revert Hk. unfold no_shards, NewManager. simpl.
  set (k := Hash.nextPowerOfTwo _). intros Hk.
  pose proof (nextPowerOfTwo_bounds
                (if bool_decide (Int.wrap32 (Config.ShardCount cfg) = 0) then 64
                 else Int.wrap32 (Config.ShardCount cfg))) as Hb.
  fold k in Hb. assert (k = 0) as -> by lia. done.
Qed.

Lemma RegisterHandlers_ok m : manager_ok m -> manager_ok (RegisterHandlers m).
Proof. intros [? ? ? ? ? ?]. by split. Qed.

(** *** AddConnection *)

Lemma registry_ok_add mask h ss i s id ip sid now st :
  registry_ok mask h ss -> ss !! i = Some s -> shard_of mask id = Z.of_nat i ->
  registry_ok mask (h ++ [NewClient id ip sid now])
    (<[i := mkShard (SID s) (<[id := length h]> (clients s)) (userClients s) st]> ss).
Proof.
  intros Hreg Hs Hsh.
  assert (Hlt : (i < length ss)%nat) by (by eapply lookup_lt_Some).
  pose proof (registry_ok_alloc mask h ss (NewClient id ip sid now) Hreg
                (NewClient_ok _ _ _ _) (fun _ => eq_refl)) as [Hp Hi Ha Hc].
  split; [| |done|done].
  - intros j t id' p Ht Hid. destruct (decide (j = i)) as [->|Hne].
    + rewrite list_lookup_insert_eq in Ht by done. injection Ht as <-.
      simpl in Hid. destruct (decide (id' = id)) as [->|Hid'].
      * rewrite lookup_insert_eq in Hid. injection Hid as <-.
        eexists. split; [apply list_lookup_middle; done|]. done.
      * rewrite lookup_insert_ne in Hid by done. by eapply Hp.
    + rewrite list_lookup_insert_ne in Ht by done. by eapply Hp.
  - intros j t u d p Ht Hid. destruct (decide (j = i)) as [->|Hne].
    + rewrite list_lookup_insert_eq in Ht by done. injection Ht as <-.
      simpl in Hid. by eapply Hi.
    + rewrite list_lookup_insert_ne in Ht by done. by eapply Hi.
Qed.

(** With an id not in use, [AddConnection] keeps the manager consistent
    and adds one to the counter exactly when it succeeds. *)
Lemma AddConnection_ok m now id ip m' r :
  manager_ok m ->
  (forall s, shardAt m (getShardID m id) = Some s -> clients s !! id = None) ->
  AddConnection m now id ip = Some (m', r) ->
  manager_ok m' /\
  globalConns m' = globalConns m + (if r is inl _ then 1 else 0).
Proof.
  intros Hok Hfresh. pose proof Hok as [Hmask Hlen Hmax Hcount Hrange Hreg].
  unfold AddConnection. case_bool_decide as Hfull.
  { intros [= <- <-]. split; [done|lia]. }
  destruct (Allow (ipLimiter m) ip now) as [ok ipl]. destruct ok; simpl.
  2:{ intros [= <- <-]. split; [by split|simpl; lia]. }
  destruct (shardAt_is_Some m id Hok) as [shard Hs]. rewrite Hs. simpl.
  unfold AddClient. rewrite list_lookup_middle by done. simpl.
  intros [= <- <-]. simpl.
  specialize (Hfresh shard Hs). unfold shardAt in Hs.
  assert (Hg : Int.wrap64 (globalConns m + 1) = globalConns m + 1).
  { apply IntFacts.wrap64_id. unfold Int.in_int64 in *.
    pose proof (registered_nonneg (shards m)). lia. }
  split; [|lia]. split; simpl.
  - done.
  - by rewrite length_insert.
  - done.
  - rewrite Hg, (registered_insert _ _ shard) by done. simpl.
    rewrite map_size_insert_None by done. lia.
  - rewrite Hg. unfold Int.in_int64 in Hmax. lia.
  - apply registry_ok_add; [done|done|].
    unfold shard_of. fold (getShardID m id). by rewrite getShardID_index.
Qed.

(** *** AuthenticateClient *)

Lemma registry_ok_auth mask h ss i s s' id p c u d :
  registry_ok mask h ss -> ss !! i = Some s -> clients s !! id = Some p ->
  h !! p = Some c ->
  clients s' = clients s ->
  (forall u' d',
     entry (userClients s') u' d'
     = if bool_decide (u' = u /\ d' = d) then Some p
       else entry (userClients s) u' d') ->
  registry_ok mask (<[p := SetAuthenticated c u d]> h) (<[i := s']> ss).
Proof.
  intros Hreg Hs Hid Hh Hcl Hent.
  pose proof Hreg as [Hp Hi Ha Hc].
  assert (Hlt : (i < length ss)%nat) by (by eapply lookup_lt_Some).
  assert (Hpl : (p < length h)%nat) by (by eapply lookup_lt_Some).
  assert (Hold : forall j t u' d' q,
            ss !! j = Some t -> entry (userClients t) u' d' = Some q ->
            exists c0, <[p := SetAuthenticated c u d]> h !! q = Some c0 /\
              authenticated c0 = true /\ shard_of mask (ID c0) = Z.of_nat j).
  { intros j t u' d' q Ht Hq.
    destruct (Hi j t u' d' q Ht Hq) as (c0 & Hh0 & Hau0 & Hsh0).
    destruct (decide (q = p)) as [->|Hqp].
    - assert (c0 = c) as -> by congruence.
      eexists. rewrite list_lookup_insert_eq by done. by split.
    - exists c0. by rewrite list_lookup_insert_ne. }
  split.
  - intros j t id' q Ht Hq.
    assert (exists t0, ss !! j = Some t0 /\ clients t0 !! id' = Some q) as (t0 & Ht0 & Hq0).
    { destruct (decide (j = i)) as [->|Hne].
      - rewrite list_lookup_insert_eq in Ht by done. injection Ht as <-.
        exists s. by rewrite <- Hcl.
      - rewrite list_lookup_insert_ne in Ht by done. by exists t. }
    destruct (Hp j t0 id' q Ht0 Hq0) as (c0 & Hh0 & Hid0 & Hsh0).
    destruct (decide (q = p)) as [->|Hqp].
    + eexists. rewrite list_lookup_insert_eq by done. split; [done|].
      assert (c0 = c) as -> by congruence. done.
    + exists c0. by rewrite list_lookup_insert_ne.
  - intros j t u' d' q Ht Hq. destruct (decide (j = i)) as [->|Hne].
    + rewrite list_lookup_insert_eq in Ht by done. injection Ht as <-.
      rewrite Hent in Hq. case_bool_decide as Hk.
      * destruct Hk as [-> ->]. injection Hq as <-.
        eexists. rewrite list_lookup_insert_eq by done. split; [done|].
        simpl. split; [done|].
        destruct (Hp i s id p Hs Hid) as (c0 & Hh0 & Hid0 & Hsh0).
        assert (c0 = c) as -> by congruence. by rewrite Hid0.
      * by eapply Hold.
    + rewrite list_lookup_insert_ne in Ht by done. by eapply Hold.
  - intros q c0 Hq Hau. destruct (decide (q = p)) as [->|Hqp].
    + rewrite list_lookup_insert_eq in Hq by done. by injection Hq as <-.
    + rewrite list_lookup_insert_ne in Hq by done. by eapply Ha.
  - intros q c0 Hq. destruct (decide (q = p)) as [->|Hqp].
    + rewrite list_lookup_insert_eq in Hq by done. injection Hq as <-.
      apply SetAuthenticated_ok. by eapply Hc.
    + rewrite list_lookup_insert_ne in Hq by done. by eapply Hc.
Qed.

(** [AuthenticateClient] keeps the manager consistent and the counter
    unchanged, whatever the session, the user and the device: the code
    does not ask whether the session is authenticated already, nor
    whether the user id is empty. *)
Lemma AuthenticateClient_ok m now id u d m' e :
  manager_ok m ->
  AuthenticateClient m now id u d = Some (m', e) ->
  manager_ok m' /\ globalConns m' = globalConns m.
Proof.
  intros Hok. pose proof Hok as [Hmask Hlen Hmax Hcount Hrange Hreg].
  unfold AuthenticateClient.
  destruct (shardAt m (getShardID m id)) as [shard|] eqn:Hs; simpl; [|done].
  unfold Shard.GetClient. destruct (clients shard !! id) as [p|] eqn:Hp.
  2:{ by intros [= <- <-]. }
  destruct (Allow (userLimiter m) u now) as [ok ul]. destruct ok; simpl.
  2:{ intros [= <- <-]. split; [by split|done]. }
  unfold shardAt in Hs.
  destruct (reg_primary _ _ _ Hreg _ _ _ _ Hs Hp) as (c & Hc & Hid & Hsh).
  destruct (RegisterAuthenticatedClient_spec (heap m) shard p u d c Hc)
    as (s' & -> & Hcl & Hst & Hsid & Hent). simpl.
  intros [= <- <-]. simpl. split; [|done]. split; simpl.
  - done.
  - by rewrite length_insert.
  - done.
  - rewrite (registered_insert _ _ shard) by done. rewrite Hcl. lia.
  - done.
  - by eapply registry_ok_auth.
Qed.

(** *** RemoveClient *)

Lemma Close_same_session c reason : same_session c (Close c reason).
Proof. unfold Close, same_session. by destruct (closing c). Qed.

Lemma cleanup_same_session c : same_session c (cleanup c).
Proof. unfold cleanup, same_session. by destruct (closing c). Qed.

Lemma RemoveClient_absent m id reason s :
  shardAt m (getShardID m id) = Some s -> clients s !! id = None ->
  RemoveClient m id reason = Some m.
Proof.
  intros Hs Hid. unfold RemoveClient. rewrite Hs. simpl.
  unfold Shard.RemoveClient. by rewrite Hid.
Qed.

(** What [RemoveClient] does to a registered session. *)
Lemma RemoveClient_present m id reason s p :
  manager_ok m -> shardAt m (getShardID m id) = Some s -> clients s !! id = Some p ->
  exists c s',
    heap m !! p = Some c /\ ID c = id /\
    clients s' = delete id (clients s) /\
    userClients s' = unindex (userClients s) c /\
    RemoveClient m id reason
    = Some (update m (<[p := Close c reason]> (heap m))
              (<[Z.to_nat (getShardID m id) := s']> (shards m))
              (globalConns m - 1) (ipLimiter m) (userLimiter m)
              (events m ++ if onDisconnect m then [EvDisconnect p reason] else [])).
Proof.
  intros Hok Hs Hid. pose proof Hok as [Hmask Hlen Hmax Hcount Hrange Hreg].
  unfold shardAt in Hs.
  destruct (reg_primary _ _ _ Hreg _ _ _ _ Hs Hid) as (c & Hc & Hidc & Hsh).
  unfold RemoveClient, shardAt. rewrite Hs. simpl.
  unfold Shard.RemoveClient. rewrite Hid, Hc. simpl. rewrite Hc. simpl.
  eexists c, _. split; [done|]. split; [done|]. split; [|split]; [..|f_equal; f_equal].
  - by simpl.
  - by simpl.
  - apply IntFacts.wrap64_id. unfold Int.in_int64.
    pose proof (registered_insert (shards m) _ s (NewShard 0) Hs) as Hins.
    pose proof (registered_nonneg (<[Z.to_nat (getShardID m id) := NewShard 0]> (shards m))).
    simpl in Hins. rewrite map_size_empty in Hins.
    assert (size (clients s) <> 0%nat).
    { intros Hz. apply map_size_empty_inv in Hz. by rewrite Hz, lookup_empty in Hid. }
    lia.
Qed.

(** Whether an id is in the primary map of its shard. *)
Definition is_registered m (id : string) : bool :=
  match shardAt m (getShardID m id) with
  | Some s => bool_decide (is_Some (clients s !! id))
  | None => false
  end.

Lemma RemoveClient_ok m id reason m' :
  manager_ok m -> RemoveClient m id reason = Some m' ->
  manager_ok m' /\
  globalConns m' = globalConns m - (if is_registered m id then 1 else 0).
Proof.
  intros Hok. pose proof Hok as [Hmask Hlen Hmax Hcount Hrange Hreg].
  destruct (shardAt_is_Some m id Hok) as [s Hs].
  destruct (clients s !! id) as [p|] eqn:Hid.
  - destruct (RemoveClient_present m id reason s p Hok Hs Hid)
      as (c & s' & Hc & Hidc & Hcl & Huc & ->).
    intros [= <-]. simpl. unfold is_registered. rewrite Hs, Hid.
    rewrite bool_decide_eq_true_2 by done.
    split; [|done]. unfold shardAt in Hs.
    assert (Hsz : size (clients s) <> 0%nat).
    { intros Hz. apply map_size_empty_inv in Hz. by rewrite Hz, lookup_empty in Hid. }
    split; simpl.
    + done.
    + by rewrite length_insert.
    + done.
    + rewrite (registered_insert _ _ s) by done. rewrite Hcl.
      rewrite map_size_delete_Some by done. lia.
    + lia.
    + eapply registry_ok_touch;
        [|done|apply Close_same_session|apply Close_ok; by eapply reg_clients].
      eapply registry_ok_shrink; [done|done| |].
      * intros id' q. rewrite Hcl. intros Hq.
        apply lookup_delete_Some in Hq. by destruct Hq.
      * intros u d q. rewrite Huc. apply entry_unindex.
  - rewrite (RemoveClient_absent m id reason s Hs Hid). intros [= <-].
    unfold is_registered. rewrite Hs, Hid.
    rewrite bool_decide_eq_false_2 by (by intros [? ?]).
    split; [done|lia].
Qed.

(** *** A step of a session's own code *)

Definition set_heap m (h : list Client) : Manager IPL UL :=
  update m h (shards m) (globalConns m) (ipLimiter m) (userLimiter m) (events m).

Lemma set_heap_ok m p c c' :
  manager_ok m -> heap m !! p = Some c -> same_session c c' -> client_ok c' ->
  manager_ok (set_heap m (<[p := c']> (heap m))).
Proof.
  intros [Hmask Hlen Hmax Hcount Hrange Hreg] Hc Hsame Hok. split; simpl; try done.
  by eapply registry_ok_touch.
Qed.

(** *** cleanupInactiveConnections *)

Lemma sweep_shards_None h now timeout hook l :
  foldl (sweep_shard h now timeout hook) None l = None.
Proof. by induction l. Qed.

(** The reports for ids that are no longer in the shard reach no hook. *)
Lemma report_fold_events hook s removed :
  (forall id, id ∈ removed -> clients s !! id = None) ->
  forall g ev, (foldl (report_removed hook s) (g, ev) removed).2 = ev.
Proof.
  induction removed as [|id removed IH]; intros Hgone g ev; [done|].
  simpl. unfold report_removed at 2. simpl. unfold Shard.GetClient.
  rewrite (Hgone id) by (by left).
  destruct hook; apply IH; intros id' Hid'; apply Hgone; by right.
Qed.

Lemma report_fold_count hook s removed :
  forall g ev,
    Z.of_nat (length removed) <= g < 2 ^ 63 ->
    (foldl (report_removed hook s) (g, ev) removed).1 = g - Z.of_nat (length removed).
Proof.
  induction removed as [|id removed IH]; intros g ev Hg; simpl in *; [lia|].
  unfold report_removed at 2. simpl.
  rewrite IntFacts.wrap64_id by (unfold Int.in_int64; lia).
  rewrite IH by lia. lia.
Qed.

(** A swept shard holds a part of what it held. *)
Definition swept_from (s s' : Shard) : Prop :=
  (forall id p, clients s' !! id = Some p -> clients s !! id = Some p) /\
  (forall u d p,
     entry (userClients s') u d = Some p -> entry (userClients s) u d = Some p).

Lemma sweep_shards_spec h now timeout hook l :
  forall swept g ev swept' g' ev',
    foldl (sweep_shard h now timeout hook) (Some (swept, (g, ev))) l
    = Some (swept', (g', ev')) ->
    exists rest,
      swept' = swept ++ rest /\ Forall2 swept_from l rest /\ ev' = ev /\
      registered rest <= registered l /\
      (registered l <= g < 2 ^ 63 -> g' = g - (registered l - registered rest)).
Proof.
  induction l as [|s l IH]; intros swept g ev swept' g' ev'.
  - simpl. intros [= <- <- <-]. exists []. rewrite app_nil_r.
    repeat split; [constructor|done|lia].
  - simpl.
    destruct (CleanupInactive h s now timeout) as [[s' removed]|] eqn:Hc; simpl;
      [|by rewrite sweep_shards_None].
    apply CleanupInactive_spec in Hc as (_ & Hsub & _ & Hidx & Hgone & Hsize).
    destruct (foldl (report_removed hook s') (g, ev) removed) as [g1 ev1] eqn:Hr.
    intros Hf. apply IH in Hf as (rest & -> & Hall & -> & Hle & Hg).
    exists (s' :: rest). split; [by rewrite <- app_assoc|].
    split; [by constructor|].
    pose proof (report_fold_events hook s' removed Hgone g ev) as Hev.
    rewrite Hr in Hev. simpl in Hev. split; [done|].
    rewrite !registered_cons. pose proof (registered_nonneg l).
    split; [lia|]. intros Hrange.
    pose proof (report_fold_count hook s' removed g ev ltac:(lia)) as Hcnt.
    rewrite Hr in Hcnt. simpl in Hcnt.
    rewrite Hg by lia. lia.
Qed.

Lemma registry_ok_swept mask h ss ss' :
  registry_ok mask h ss -> Forall2 swept_from ss ss' -> registry_ok mask h ss'.
Proof.
  intros [Hp Hi Ha Hc] Hall. split; [| |done|done].
  - intros i s' id p Hs' Hid.
    destruct (Forall2_lookup_r _ _ _ _ _ Hall Hs') as (s & Hs & Hsub & _).
    apply (Hp i s id p Hs). by apply Hsub.
  - intros i s' u d p Hs' Hid.
    destruct (Forall2_lookup_r _ _ _ _ _ Hall Hs') as (s & Hs & _ & Hidx).
    apply (Hi i s u d p Hs). by apply Hidx.
Qed.

(** The sweep calls no hook and touches no session object. *)
Lemma cleanup_silent m now m' :
  cleanupInactiveConnections m now = Some m' ->
  events m' = events m /\ heap m' = heap m /\
  Forall2 swept_from (shards m) (shards m').
Proof.
  unfold cleanupInactiveConnections.
  destruct (foldl _ _ _) as [[ss [g ev]]|] eqn:Hf; simpl; [|done].
  intros [= <-]. simpl.
  apply sweep_shards_spec in Hf as (rest & -> & Hall & -> & _).
  by simpl.
Qed.

Lemma sweep_ok m now m' :
  manager_ok m -> cleanupInactiveConnections m now = Some m' ->
  manager_ok m' /\
  globalConns m' = globalConns m - (registered (shards m) - registered (shards m')).
Proof.
  intros [Hmask Hlen Hmax Hcount Hrange Hreg].
  unfold cleanupInactiveConnections.
  destruct (foldl _ _ _) as [[ss [g ev]]|] eqn:Hf; simpl; [|done].
  intros [= <-]. simpl.
  apply sweep_shards_spec in Hf as (rest & -> & Hall & -> & Hle & Hg).
  simpl in *. specialize (Hg ltac:(lia)).
  split; [|lia]. split; simpl.
  - done.
  - by rewrite <- (Forall2_length _ _ _ Hall).
  - done.
  - lia.
  - pose proof (registered_nonneg rest). lia.
  - by eapply registry_ok_swept.
Qed.

(** *** Reachable states

    The operations that change a manager, each with any arguments.
    [uuid.New()] yields an id that is not in use; [AuthenticateClient]
    has no guard of its own, so it may run on any id, again on a
    session that is authenticated already, and with an empty user id; a
    session's own code (the pumps, [WriteMessage], [Close], [cleanup])
    changes its object but not the fields that place it in the
    registry. *)
Inductive step : Manager IPL UL -> Manager IPL UL -> Prop :=
| step_handlers m :
    step m (RegisterHandlers m)
| step_add m now id ip m' r :
    is_registered m id = false ->
    AddConnection m now id ip = Some (m', r) ->
    step m m'
| step_auth m now id u d m' e :
    AuthenticateClient m now id u d = Some (m', e) ->
    step m m'
| step_remove m id reason m' :
    RemoveClient m id reason = Some m' ->
    step m m'
| step_cleanup m now m' :
    cleanupInactiveConnections m now = Some m' ->
    step m m'
| step_session m p c c' :
    heap m !! p = Some c -> same_session c c' -> client_ok c' ->
    step m (set_heap m (<[p := c']> (heap m))).

Definition reachable (cfg : Config.Config) m : Prop := rtc step (NewManager cfg) m.

Lemma is_registered_false m id s :
  is_registered m id = false -> shardAt m (getShardID m id) = Some s ->
  clients s !! id = None.
Proof.
  unfold is_registered. intros Hr Hs. rewrite Hs in Hr.
  apply bool_decide_eq_false in Hr. by apply eq_None_not_Some.
Qed.

Lemma step_ok m m' : manager_ok m -> step m m' -> manager_ok m'.
Proof.
  intros Hok Hstep. destruct Hstep.
  - by apply RegisterHandlers_ok.
  - eapply AddConnection_ok; [done| |done].
    intros s Hs. by eapply is_registered_false.
  - by eapply AuthenticateClient_ok.
  - by eapply RemoveClient_ok.
  - by eapply sweep_ok.
  - by eapply set_heap_ok.
Qed.

(** The teardown that [ReadPump] defers is a removal followed by a step
    of the session itself, so it stays within the reachable states. *)
Lemma ReadPump_exit_steps m p m' :
  manager_ok m -> ReadPump_exit m p = Some m' -> rtc step m m'.
Proof.
  intros Hok. unfold ReadPump_exit.
  destruct (heap m !! p) as [c|]; simpl; [|done].
  destruct (RemoveClient m (ID c) "client_disconnected") as [m1|] eqn:Hrm;
    simpl; [|done].
  destruct (heap m1 !! p) as [c1|] eqn:Hc1; simpl; [|done].
  intros [= <-].
  eapply rtc_l; [by apply step_remove in Hrm|].
  apply rtc_once.
  apply (step_session m1 p c1 (cleanup c1) Hc1 (cleanup_same_session c1)).
  apply ClientFacts.cleanup_ok.
  destruct (RemoveClient_ok m (ID c) "client_disconnected" m1 Hok Hrm) as [Hok1 _].
  by eapply (reg_clients _ _ _ (ok_registry m1 Hok1)).
Qed.

Lemma shardAt_no_shards m shardID : no_shards m -> shardAt m shardID = None.
Proof. intros [Hs _]. unfold shardAt. rewrite Hs. apply lookup_nil. Qed.

Lemma AddConnection_no_shards m now id ip m' r :
  no_shards m -> AddConnection m now id ip = Some (m', r) ->
  no_shards m' /\ exists msg, r = inr msg.
Proof.
  intros Hno. pose proof Hno as [Hs Hg]. unfold AddConnection.
  case_bool_decide; [intros [= <- <-]; by eauto|].
  destruct (Allow (ipLimiter m) ip now) as [ok ipl]. destruct ok; simpl.
  - by rewrite shardAt_no_shards.
  - intros [= <- <-]. split; [by split|by eauto].
Qed.

Lemma step_no_shards m m' : no_shards m -> step m m' -> no_shards m'.
Proof.
  intros Hno Hstep. pose proof Hno as [Hs Hg].
  destruct Hstep as [m|m now id ip m' r _ Hadd|m now id u d m' e Hau
                    |m id reason m' Hrm|m now m' Hcl|m p c c' _ _ _].
  - done.
  - by eapply AddConnection_no_shards.
  - unfold AuthenticateClient in Hau. by rewrite shardAt_no_shards in Hau.
  - unfold RemoveClient in Hrm. by rewrite shardAt_no_shards in Hrm.
  - unfold cleanupInactiveConnections in Hcl. rewrite Hs in Hcl. simpl in Hcl.
    injection Hcl as <-. by split.
  - by split.
Qed.

(** Every reachable manager is consistent, or has no shards at all. *)
Lemma reachable_inv cfg m : reachable cfg m -> manager_ok m \/ no_shards m.
Proof.
  intros Hr. unfold reachable in Hr.
  revert m Hr.
  apply (rtc_ind_r (fun m => manager_ok m \/ no_shards m) (NewManager cfg)).
  - apply NewManager_inv.
  - intros m1 m2 _ Hstep [Hok|Hno].
    + left. by eapply step_ok.
    + right. by eapply step_no_shards.
Qed.

(** C5: in every state reached from [NewManager] by the operations of
    the manager, the global counter equals the number of sessions in
    the primary maps of the shards.  [AddConnection] adds one exactly
    when it succeeds, [RemoveClient] subtracts one exactly when the
    session was registered, and the sweep subtracts the number of
    sessions it removed. *)
Theorem global_counter_matches_registry (cfg : Config.Config) m :
  reachable cfg m ->
  globalConns m = registered (shards m) /\
  (forall now id ip m' r,
     is_registered m id = false -> AddConnection m now id ip = Some (m', r) ->
     globalConns m' = globalConns m + (if r is inl _ then 1 else 0)) /\
  (forall id reason m',
     RemoveClient m id reason = Some m' ->
     globalConns m' = globalConns m - (if is_registered m id then 1 else 0)) /\
  (forall now m',
     cleanupInactiveConnections m now = Some m' ->
     globalConns m' = globalConns m - (registered (shards m) - registered (shards m'))).
Proof.
  intros Hr. destruct (reachable_inv cfg m Hr) as [Hok|Hno].
  - split; [apply (ok_count m Hok)|]. split; [|split].
    + intros now id ip m' r Hfresh Hadd.
      eapply AddConnection_ok; [done| |done].
      intros s Hs. by eapply is_registered_false.
    + intros id reason m' Hrm. by eapply RemoveClient_ok.
    + intros now m' Hcl. by eapply sweep_ok.
  - pose proof Hno as [Hs Hg]. split; [by rewrite Hs, Hg|]. split; [|split].
    + intros now id ip m' r _ Hadd.
      destruct (AddConnection_no_shards m now id ip m' r Hno Hadd)
        as [[_ Hg'] [msg ->]]. lia.
    + intros id reason m' Hrm. unfold RemoveClient in Hrm.
      by rewrite shardAt_no_shards in Hrm.
    + intros now m' Hcl.
      pose proof (step_no_shards m m' Hno (step_cleanup m now m' Hcl)) as [Hs' Hg'].
      rewrite Hs, Hs', Hg, Hg'. done.
Qed.

(** C6 (amended): closing a session is split between two functions.
    [Client.Close] works on the session object alone: it sets the
    closing flag, cancels the context, closes the queue and the socket
    and logs the reason, unless the flag was set already, in which case
    it changes nothing; it touches neither the counter, nor the shard
    maps, nor the hooks, so a session closed this way (or by the
    [cleanup] that both pumps defer) is still registered.
    [Manager.RemoveClient] on a session that is in the primary map of
    its shard closes the session object in that way, takes the session
    out of the primary map, deletes the entry that the user index of
    that shard holds under the session's present user and device,
    whichever session that entry points to, and no other entry,
    subtracts one from the counter and calls the disconnect hook, when
    one is set, once; a second call changes nothing and calls no hook.
    On an id that is not, or no longer, in the primary map (the sweep
    has taken it) [RemoveClient] changes nothing: the session is not
    closed and no hook is called. *)
Theorem RemoveClient_close_idempotent (cfg : Config.Config) m
    (id reason : string) (s : Shard) :
  reachable cfg m ->
  shardAt m (getShardID m id) = Some s ->
  (forall p,
     clients s !! id = Some p ->
     exists c m' s',
       heap m !! p = Some c /\ ID c = id /\
       RemoveClient m id reason = Some m' /\
       heap m' = <[p := Close c reason]> (heap m) /\
       globalConns m' = globalConns m - 1 /\
       (forall i t id', shards m' !! i = Some t -> clients t !! id' <> Some p) /\
       shardAt m' (getShardID m' id) = Some s' /\
       (forall u d,
          entry (userClients s') u d
          = if bool_decide (UserID c <> "" /\ u = UserID c /\ d = DeviceID c)
            then None else entry (userClients s) u d) /\
       (forall j, j <> Z.to_nat (getShardID m id) -> shards m' !! j = shards m !! j) /\
       events m' = events m ++ (if onDisconnect m then [EvDisconnect p reason] else []) /\
       (forall reason', RemoveClient m' id reason' = Some m')) /\
  (clients s !! id = None -> RemoveClient m id reason = Some m) /\
  (forall p c,
     heap m !! p = Some c ->
     closing (Close c reason) = true /\ cancelled (Close c reason) = true /\
     Chan.closed (Send (Close c reason)) = true /\
     connClosed (Close c reason) = true /\
     closeLog (Close c reason) = closeLog c ++ (if closing c then [] else [reason]) /\
     (forall reason', Close (Close c reason) reason' = Close c reason) /\
     cleanup (Close c reason) = Close c reason /\
     reachable cfg (set_heap m (<[p := Close c reason]> (heap m))) /\
     shards (set_heap m (<[p := Close c reason]> (heap m))) = shards m /\
     globalConns (set_heap m (<[p := Close c reason]> (heap m))) = globalConns m /\
     events (set_heap m (<[p := Close c reason]> (heap m))) = events m).
Proof.
  intros Hr Hs.
  destruct (reachable_inv cfg m Hr) as [Hok|Hno];
    [|by rewrite shardAt_no_shards in Hs].
  pose proof Hok as [Hmask Hlen Hmax Hcount Hrange Hreg].
  split; [|split].
  - intros p Hid.
    destruct (RemoveClient_present m id reason s p Hok Hs Hid)
      as (c & s' & Hc & Hidc & Hcl & Huc & Hrm).
    unfold shardAt in Hs.
    assert (Hil : (Z.to_nat (getShardID m id) < length (shards m))%nat)
      by (by eapply lookup_lt_Some).
    destruct (reg_primary _ _ _ Hreg _ _ _ _ Hs Hid) as (c0 & Hc0 & _ & Hsh).
    eexists c, _, s'. split; [done|]. split; [done|]. split; [exact Hrm|]. simpl.
    split; [done|]. split; [done|].
    split; [|split; [|split; [|split; [|split; [done|]]]]].
    + intros i t id' Ht Hp.
      destruct (decide (i = Z.to_nat (getShardID m id))) as [->|Hne].
      * rewrite list_lookup_insert_eq in Ht by done. injection Ht as <-.
        rewrite Hcl in Hp. apply lookup_delete_Some in Hp as [Hne Hp].
        destruct (reg_primary _ _ _ Hreg _ _ _ _ Hs Hp) as (c1 & Hc1 & Hid1 & _).
        congruence.
      * rewrite list_lookup_insert_ne in Ht by done.
        destruct (reg_primary _ _ _ Hreg _ _ _ _ Ht Hp) as (c1 & Hc1 & Hid1 & Hsh1).
        assert (id' = id) as -> by congruence. lia.
    + unfold shardAt. simpl. by apply list_lookup_insert_eq.
    + intros u d. rewrite Huc. unfold unindex.
      case_bool_decide as Hu.
      * rewrite entry_dropDevice.
        case_bool_decide as Hk; [by rewrite bool_decide_eq_true_2|].
        rewrite bool_decide_eq_false_2; [done|]. intros (_ & ? & ?). by apply Hk.
      * rewrite bool_decide_eq_false_2; [done|]. by intros [? _].
    + intros j Hj. by rewrite list_lookup_insert_ne.
    + intros reason'. eapply RemoveClient_absent.
      * unfold shardAt. simpl. by apply list_lookup_insert_eq.
      * rewrite Hcl. apply lookup_delete_eq.
  - intros Hid. by eapply RemoveClient_absent.
  - intros p c Hc.
    pose proof (reg_clients _ _ _ Hreg p c Hc) as Hcok.
    pose proof (Close_ok c reason Hcok) as Hcok'.
    assert (Hclosing : closing (Close c reason) = true).
    { unfold Close. by destruct (closing c) eqn:Hcl0. }
    split; [done|]. split; [by apply (ok_cancel _ Hcok')|].
    split; [by rewrite (ok_closed _ Hcok')|].
    split; [by apply (ok_cancel _ Hcok')|].
    split; [unfold Close; destruct (closing c) eqn:Hcl0; [by rewrite app_nil_r|done]|].
    split; [intros reason'; unfold Close at 1; by rewrite Hclosing|].
    split; [unfold cleanup; by rewrite Hclosing|].
    split; [|done].
    eapply rtc_r; [exact Hr|].
    apply (step_session m p c (Close c reason) Hc (Close_same_session c reason) Hcok').
Qed.

(** *** Registration under a user and a device *)

(** C1 (amended): when a session is registered under a user and a
    device that already have an entry for another session, the new
    session takes that entry of the user index of its shard; the older
    session is left as it was: its object is untouched, so it is not
    closed and logs no reason, it stays in the primary map, no hook is
    called and the counter does not change.  The other shards, and
    with them any entry they hold for the same user and device, are
    not touched. *)
Theorem AuthenticateClient_replaces_entry m (now : Z) (id u d : string)
    (s : Shard) (p old : nat) (c : Client) (ul : UL) :
  shardAt m (getShardID m id) = Some s -> clients s !! id = Some p ->
  heap m !! p = Some c ->
  entry (userClients s) u d = Some old -> old <> p ->
  Allow (userLimiter m) u now = (true, ul) ->
  exists m' s',
    AuthenticateClient m now id u d = Some (m', None) /\
    shardAt m' (getShardID m' id) = Some s' /\
    entry (userClients s') u d = Some p /\
    clients s' = clients s /\
    heap m' !! old = heap m !! old /\
    heap m' !! p = Some (SetAuthenticated c u d) /\
    events m' = events m /\ globalConns m' = globalConns m /\
    (forall j, j <> Z.to_nat (getShardID m id) -> shards m' !! j = shards m !! j).
Proof.
  intros Hs Hid Hc Hold Hne Hal.
  unfold AuthenticateClient. rewrite Hs. simpl.
  unfold Shard.GetClient. rewrite Hid, Hal. simpl.
  destruct (RegisterAuthenticatedClient_spec (heap m) s p u d c Hc)
    as (s' & -> & Hcl & _ & _ & Hent). simpl.
  assert (Hpl : (p < length (heap m))%nat) by (by eapply lookup_lt_Some).
  unfold shardAt in Hs.
  assert (Hil : (Z.to_nat (getShardID m id) < length (shards m))%nat)
    by (by eapply lookup_lt_Some).
  eexists _, s'. split; [done|]. simpl.
  split; [unfold shardAt; simpl; by apply list_lookup_insert_eq|].
  split; [rewrite Hent; by rewrite bool_decide_eq_true_2|].
  split; [done|].
  split; [by rewrite list_lookup_insert_ne|].
  split; [by rewrite list_lookup_insert_eq|].
  split; [done|]. split; [done|].
  intros j Hj. by rewrite list_lookup_insert_ne.
Qed.

(** C2 (amended): [AuthenticateClient] asks the user limiter before it
    registers a session.  When the limiter refuses, the call returns
    the error and changes nothing but the limiter: the session is not
    closed and stays in the registry, and no hook is called.  When the
    limiter admits, the session is marked authenticated and stored in
    the user index of its shard.  [NewManager] builds that limiter with
    the configured connections per user as its rate and as its burst. *)
Theorem AuthenticateClient_user_limit m (now : Z) (id u d : string)
    (s : Shard) (p : nat) (c : Client) :
  shardAt m (getShardID m id) = Some s -> clients s !! id = Some p ->
  heap m !! p = Some c ->
  (forall ul,
     Allow (userLimiter m) u now = (false, ul) ->
     AuthenticateClient m now id u d
     = Some (update m (heap m) (shards m) (globalConns m) (ipLimiter m) ul (events m),
             Some "user connection limit exceeded")) /\
  (forall ul,
     Allow (userLimiter m) u now = (true, ul) ->
     exists m' s',
       AuthenticateClient m now id u d = Some (m', None) /\
       heap m' !! p = Some (SetAuthenticated c u d) /\
       shardAt m' (getShardID m' id) = Some s' /\
       entry (userClients s') u d = Some p /\
       clients s' = clients s) /\
  (forall cfg,
     userLimiter (NewManager (IPL := IPL) cfg)
     = NewLimiter (Config.ConnectionsPerUser cfg) (Config.ConnectionsPerUser cfg)).
Proof.
  intros Hs Hid Hc. split; [|split]; [intros ul Hal|intros ul Hal|done].
  - unfold AuthenticateClient. rewrite Hs. simpl.
    unfold Shard.GetClient. by rewrite Hid, Hal.
  - unfold AuthenticateClient. rewrite Hs. simpl.
    unfold Shard.GetClient. rewrite Hid, Hal. simpl.
    destruct (RegisterAuthenticatedClient_spec (heap m) s p u d c Hc)
      as (s' & -> & Hcl & _ & _ & Hent). simpl.
    assert (Hpl : (p < length (heap m))%nat) by (by eapply lookup_lt_Some).
    unfold shardAt in Hs.
    assert (Hil : (Z.to_nat (getShardID m id) < length (shards m))%nat)
      by (by eapply lookup_lt_Some).
    eexists _, s'. split; [done|]. simpl.
    split; [by rewrite list_lookup_insert_eq|].
    split; [unfold shardAt; simpl; by apply list_lookup_insert_eq|].
    split; [rewrite Hent; by rewrite bool_decide_eq_true_2|done].
Qed.

End WithLimiters.

(** *** Runs of a one-shard gateway with token-bucket limiters *)

Abbreviation TBManager := (Manager TokenBucket.limiter TokenBucket.limiter).

Definition run_config (perUser : Z) : Config.Config :=
  Config.mkConfig 524288 (60 * Config.second) 10 "secret" 0 "node-1"
    100 150 perUser 1000 1.

Definition started (perUser : Z) : TBManager :=
  RegisterHandlers (NewManager (run_config perUser)).

(** The manager after an operation, or as it was when the operation panics. *)
Definition after {A} (m : TBManager) (r : option (TBManager * A)) : TBManager :=
  default m (fst <$> r).

Definition one_session (perUser : Z) : TBManager :=
  after (started perUser) (AddConnection (started perUser) 0 "c1" "10.0.0.1").

Definition two_sessions (perUser : Z) : TBManager :=
  after (one_session perUser) (AddConnection (one_session perUser) 0 "c2" "10.0.0.2").

(** Whether the session at an address is open and authenticated under a
    user, and the registered sessions for which that holds. *)
Definition live_for (h : list Client) (u : string) (p : nat) : bool :=
  match h !! p with
  | Some c => authenticated c && negb (closing c) && bool_decide (UserID c = u)
  | None => false
  end.

Definition registered_sessions (m : TBManager) : list nat :=
  concat ((fun s => (map_to_list (clients s)).*2) <$> shards m).

Definition live_sessions (m : TBManager) (u : string) : list nat :=
  filter (fun p => live_for (heap m) u p = true) (registered_sessions m).

Definition device_of (m : TBManager) (p : nat) : option string :=
  DeviceID <$> heap m !! p.

(** Both sessions connected, the first authenticated as (u1, d1). *)
Definition first_authenticated (perUser : Z) : TBManager :=
  after (two_sessions perUser)
    (AuthenticateClient (two_sessions perUser) 0 "c1" "u1" "d1").

Definition superseded : TBManager :=
  after (first_authenticated 5)
    (AuthenticateClient (first_authenticated 5) 1 "c2" "u1" "d1").

(** C1, the claim as stated fails: after a second session registers as
    (u1, d1) the first one is still open, has logged no close reason,
    and is still registered; two live sessions now exist for the pair,
    and no disconnect hook was called. *)
Lemma supersede_keeps_older_session_open :
  AuthenticateClient (first_authenticated 5) 1 "c2" "u1" "d1" = Some (superseded, None) /\
  GetUserClients (first_authenticated 5) "u1" = [0%nat] /\
  GetUserClients superseded "u1" = [1%nat] /\
  live_sessions superseded "u1" = [0%nat; 1%nat] /\
  device_of superseded 0 = Some "d1" /\ device_of superseded 1 = Some "d1" /\
  (closing <$> heap superseded !! 0%nat) = Some false /\
  (closeLog <$> heap superseded !! 0%nat) = Some [] /\
  events superseded = [EvConnect 0; EvConnect 1].
Proof. vm_compute. repeat split. Qed.

Lemma AuthenticateClient_replaces_entry_witness :
  exists m',
    AuthenticateClient (first_authenticated 5) 1 "c2" "u1" "d1" = Some (m', None) /\
    heap m' !! 0%nat = heap (first_authenticated 5) !! 0%nat.
Proof.
  destruct (AuthenticateClient_replaces_entry (first_authenticated 5) 1 "c2" "u1" "d1"
              (default (NewShard 0) (shards (first_authenticated 5) !! 0%nat))
              1%nat 0%nat
              (NewClient "c2" "10.0.0.2" 0 0)
              (Allow (userLimiter (first_authenticated 5)) "u1" 1).2)
    as (m' & s' & Hrun & _ & _ & _ & Hold & _);
    [by vm_compute..|].
  exists m'. by split.
Defined.

(** One authenticated session per user is allowed here. *)
Definition refused : TBManager :=
  after (first_authenticated 1)
    (AuthenticateClient (first_authenticated 1) 0 "c2" "u1" "d2").

Definition admitted_later : TBManager :=
  after refused (AuthenticateClient refused Config.second "c2" "u1" "d2").

(** C2, the claim as stated fails: the registration that the user
    limiter refuses returns an error and leaves the session open,
    registered and without a close reason; no hook is called.  The
    limiter refills with time, so the same registration passes a
    second later and the user then has two live sessions under a
    configured limit of one. *)
Lemma user_limit_leaves_session_open :
  Config.ConnectionsPerUser (run_config 1) = 1 /\
  AuthenticateClient (first_authenticated 1) 0 "c2" "u1" "d2"
  = Some (refused, Some "user connection limit exceeded") /\
  (closing <$> heap refused !! 1%nat) = Some false /\
  (closeLog <$> heap refused !! 1%nat) = Some [] /\
  is_registered refused "c2" = true /\
  events refused = [EvConnect 0; EvConnect 1] /\
  AuthenticateClient refused Config.second "c2" "u1" "d2" = Some (admitted_later, None) /\
  live_sessions admitted_later "u1" = [0%nat; 1%nat].
Proof. vm_compute. repeat split. Qed.

Lemma AuthenticateClient_user_limit_witness :
  AuthenticateClient (first_authenticated 1) 0 "c2" "u1" "d2"
  = Some (refused, Some "user connection limit exceeded").
Proof.
  destruct (AuthenticateClient_user_limit (first_authenticated 1) 0 "c2" "u1" "d2"
              (default (NewShard 0) (shards (first_authenticated 1) !! 0%nat))
              1%nat (NewClient "c2" "10.0.0.2" 0 0))
    as [Hrefuse _]; [by vm_compute..|].
  rewrite (Hrefuse (userLimiter (first_authenticated 1))) by (by vm_compute).
  by vm_compute.
Defined.

Lemma one_session_reachable : reachable (run_config 5) (one_session 5).
Proof.
  unfold reachable. eapply rtc_l; [apply step_handlers|].
  eapply rtc_l; [|apply rtc_refl].
  eapply (step_add _ 0 "c1" "10.0.0.1" _ (inl 0%nat)); by vm_compute.
Qed.

Lemma global_counter_matches_registry_witness :
  globalConns (one_session 5) = registered (shards (one_session 5)).
Proof.
  apply (global_counter_matches_registry (run_config 5) (one_session 5)).
  apply one_session_reachable.
Defined.

(** A session that connected at time 0 and has been silent since, and
    the sweep two minutes and a second later (twice the pong wait of 60
    seconds is two minutes). *)
Definition swept : TBManager :=
  default (one_session 5)
    (cleanupInactiveConnections (one_session 5) (121 * Config.second)).

(** The session of the one-session gateway after [Client.Close] alone. *)
Definition closed_only : TBManager :=
  set_heap (one_session 5)
    (<[0%nat := Close (NewClient "c1" "10.0.0.1" 0 0) "bye"]> (heap (one_session 5))).

(** A session authenticated as (u1, d1) and then again as (u1, d2), and
    the gateway after that session is removed. *)
Definition reauthenticated : TBManager :=
  after (first_authenticated 5)
    (AuthenticateClient (first_authenticated 5) 1 "c1" "u1" "d2").

Definition reauthenticated_removed : TBManager :=
  default reauthenticated (RemoveClient reauthenticated "c1" "bye").

(** C6, the claim as stated fails.  [Close] alone leaves the session in
    the primary map and the counter at one, and calls no hook, although
    one is set.  [RemoveClient] on a session the sweep has taken changes
    nothing: the session stays open and no hook is called.  And after a
    session was authenticated a second time, under another device,
    [RemoveClient] leaves the entry of the first registration in the
    user index, so the removed session is still listed for its user. *)
Lemma Close_alone_keeps_session_registered :
  heap (one_session 5) !! 0%nat = Some (NewClient "c1" "10.0.0.1" 0 0) /\
  onDisconnect (one_session 5) = true /\
  (closing <$> heap closed_only !! 0%nat) = Some true /\
  is_registered closed_only "c1" = true /\
  globalConns closed_only = 1 /\
  events closed_only = [EvConnect 0] /\
  is_registered swept "c1" = false /\
  RemoveClient swept "c1" "bye" = Some swept /\
  (closing <$> heap swept !! 0%nat) = Some false /\
  (connClosed <$> heap swept !! 0%nat) = Some false /\
  events swept = [EvConnect 0] /\
  RemoveClient reauthenticated "c1" "bye" = Some reauthenticated_removed /\
  is_registered reauthenticated_removed "c1" = false /\
  (closing <$> heap reauthenticated_removed !! 0%nat) = Some true /\
  GetUserClients reauthenticated_removed "u1" = [0%nat].
Proof. vm_compute. repeat split. Qed.

Lemma RemoveClient_close_idempotent_witness :
  exists m',
    RemoveClient (one_session 5) "c1" "bye" = Some m' /\
    (closing <$> heap m' !! 0%nat) = Some true /\
    globalConns m' = 0 /\
    events m' = [EvConnect 0; EvDisconnect 0 "bye"] /\
    RemoveClient m' "c1" "again" = Some m'.
Proof.
  destruct (RemoveClient_close_idempotent (run_config 5) (one_session 5) "c1" "bye"
              (default (NewShard 0) (shards (one_session 5) !! 0%nat)))
    as [Hreg _]; [apply one_session_reachable|by vm_compute|].
  destruct (Hreg 0%nat) as (c & m' & s' & Hc & _ & Hrm & Hh & Hg & _ & _ & _ & _ & Hev & Hagain);
    [by vm_compute|].
  exists m'. split; [exact Hrm|].
  split; [rewrite Hh; vm_compute in Hc; injection Hc as <-; by vm_compute|].
  split; [rewrite Hg; by vm_compute|].
  split; [rewrite Hev; by vm_compute|].
  apply Hagain.
Defined.

(** C8, the code at the failing input: the sweep removes the stale
    session from the registry and the counter, but it calls no
    disconnect hook for it, although one is set, and it does not close
    the session. *)
Theorem sweep_reports_no_disconnect :
  onDisconnect (one_session 5) = true /\
  is_registered (one_session 5) "c1" = true /\
  cleanupInactiveConnections (one_session 5) (121 * Config.second) = Some swept /\
  is_registered swept "c1" = false /\
  globalConns swept = 0 /\
  events swept = [EvConnect 0] /\
  (closing <$> heap swept !! 0%nat) = Some false /\
  (connClosed <$> heap swept !! 0%nat) = Some false.
Proof. vm_compute. repeat split. Qed.

End ManagerFacts.

(** * More of the gateway: delivery to a user, statistics, the HTTP
    middleware and the typed messages *)

(** ** Delivery to a user: shard.go and manager.go, continued *)

Module Delivery.

Import Client Shard Manager.

(** One iteration of the loop of [BroadcastToUser]: write to the
    client, count the write when it returned no error. *)
Definition deliver (message : string) (acc : option (list Client * Z)) (p : ptr)
  : option (list Client * Z) :=
  '(h, sent) ← acc;
  c ← h !! p;
  '(err, c') ← WriteMessage c message;
  Some (<[p := c']> h,
        match err with
        | None => Int.wrap64 (sent + 1)
        | Some _ => sent
        end).

(** [BroadcastToUser]: the heap after the writes and the number sent;
    the error it returns is always nil. *)
Definition BroadcastToUser (h : list Client) (s : Shard) (userID message : string)
  : option (list Client * Z) :=
  foldl (deliver message) (Some (h, 0)) (Shard.GetUserClients s userID).

Section WithLimiters.

Context {IPL UL : Type} `{!KeyedLimiter IPL} `{!KeyedLimiter UL}.

(** One iteration of the loop of [SendToUser] over the shards. *)
Definition send_shard (userID message : string) (acc : option (list Client * Z))
    (shard : Shard) : option (list Client * Z) :=
  '(h, totalSent) ← acc;
  '(h', sent) ← BroadcastToUser h shard userID message;
  Some (h', Int.wrap64 (totalSent + sent)).

Definition SendToUser (m : Manager IPL UL) (userID message : string)
  : option (Manager IPL UL * Z) :=
  '(h, totalSent) ← foldl (send_shard userID message) (Some (heap m, 0)) (shards m);
  Some (update m h (shards m) (globalConns m) (ipLimiter m) (userLimiter m)
          (events m),
        totalSent).

End WithLimiters.

End Delivery.

(** ** Statistics: manager.go and internal/metrics/collector.go *)

Module Metrics.

Import Shard Manager.

Section WithLimiters.

Context {IPL UL : Type} `{!KeyedLimiter IPL} `{!KeyedLimiter UL}.

(** [Manager.GetStats]: the statistics of each shard under its index as
    a uint32. *)
Definition GetStats (m : Manager IPL UL) : gmap Z ShardStats :=
  foldl (fun stats e => <[Int.wrap32 (Z.of_nat e.1) := Shard.GetStats e.2]> stats)
    ∅ (imap pair (shards m)).

End WithLimiters.

(** The gauges [UpdateConnectionMetrics] sets, each by the integer that
    is converted for it: the total, and one value per shard label. *)
Record Gauges := mkGauges {
  activeConnections : Z;
  shardConnections : gmap string Z
}.

Definition set_shard (acc : gmap string Z * Z) (e : Z * ShardStats)
  : gmap string Z * Z :=
  (<[pretty e.1 := ActiveConnections e.2]> acc.1,
   Int.wrap64 (acc.2 + ActiveConnections e.2)).

(** [UpdateConnectionMetrics]; the entries are visited in the order of
    [map_to_list]. *)
Definition UpdateConnectionMetrics (g : Gauges) (stats : gmap Z ShardStats) : Gauges :=
  let '(labelled, totalActive) :=
    foldl set_shard (shardConnections g, 0) (map_to_list stats) in
  {| activeConnections := totalActive; shardConnections := labelled |}.

End Metrics.

(** ** internal/auth/jwt.go, continued: the HTTP middleware *)

Module Middleware.

Import Jwt Auth.

(** [strings.TrimPrefix]. *)
Fixpoint strip (prefix s : string) : option string :=
  match prefix with
  | EmptyString => Some s
  | String a prefix' =>
      match s with
      | String b s' => if bool_decide (a = b) then strip prefix' s' else None
      | EmptyString => None
      end
  end.

Definition TrimPrefix (s prefix : string) : string := default s (strip prefix s).

(** The two headers the middleware reads; [Header.Get] returns the
    empty string for a header that is absent. *)
Record Header := mkHeader {
  Authorization : string;
  SecWebSocketProtocol : string
}.

(** What the middleware does with a request: it answers itself, or it
    calls the next handler with the claims in the context. *)
Inductive Outcome :=
| Answered (status : Z) (body : string)
| Next (claims : Claims).

Definition StatusUnauthorized : Z := 401.

(** A value stored in a context under the key token. *)
Inductive ContextValue := StringValue (s : string) | OtherValue.

Section WithParser.

(** The parser of the jwt library, from the text of a token to its
    parts. *)
Variable parse : string -> TokenString.

Definition ExtractFromContext (a : Authenticator) (now : Z)
    (tokenValue : option ContextValue) : Claims + error :=
  match tokenValue with
  | None => inr ErrInvalidToken
  | Some OtherValue => inr ErrInvalidToken
  | Some (StringValue tokenString) =>
      ValidateToken a (parse (TrimPrefix tokenString "Bearer ")) now
  end.

Definition Middleware (a : Authenticator) (now : Z) (h : Header) : Outcome :=
  let authHeader :=
    if bool_decide (Authorization h = "") then SecWebSocketProtocol h
    else Authorization h in
  if bool_decide (authHeader = "")
  then Answered StatusUnauthorized "authorization header required"
  else
    match ValidateToken a (parse (TrimPrefix authHeader "Bearer ")) now with
    | inr _ => Answered StatusUnauthorized "invalid token"
    | inl claims => Next claims
    end.

End WithParser.

End Middleware.


(** ** pkg/protocol/messages.go, continued: the typed messages *)

Module Messages.

Import Protocol.

(** Decoding one field of a struct from the members of a JSON object:
    each member whose key names the field is decoded into it, in
    order. *)
Definition read {A} (into : A -> Json.value -> option A) (zero : A) (name : string)
    (fields : list (string * Json.value)) : option A :=
  foldl (fun acc kv => a ← acc; if Json.names kv.1 name then into a kv.2 else Some a)
    (Some zero) fields.

Definition into_bool (old : bool) (v : Json.value) : option bool :=
  match v with
  | Json.Bool b => Some b
  | Json.Null => Some old
  | _ => None
  end.

(** Decoding into a [map[string]string]: the members are added to the
    map, each value decoded into a fresh string. *)
Definition into_map (old : gmap string string) (v : Json.value)
  : option (gmap string string) :=
  match v with
  | Json.Obj members =>
      foldl (fun acc kv => m ← acc; s ← Json.into_string "" kv.2; Some (<[kv.1 := s]> m))
        (Some old) members
  | Json.Null => Some ∅
  | _ => None
  end.

(** The members a struct is decoded from. *)
Definition members (v : Json.value) : option (list (string * Json.value)) :=
  match v with
  | Json.Obj fields => Some fields
  | Json.Null => Some []
  | _ => None
  end.

Record TextPayload := mkPayload {
  Text : string;
  MediaURL : string;
  Metadata : gmap string string;
  ReplyTo : string
}.

Definition into_payload (old : TextPayload) (v : Json.value) : option TextPayload :=
  match v with
  | Json.Obj fields =>
      text ← read Json.into_string (Text old) "text" fields;
      media ← read Json.into_string (MediaURL old) "media_url" fields;
      metadata ← read into_map (Metadata old) "metadata" fields;
      reply ← read Json.into_string (ReplyTo old) "reply_to" fields;
      Some (mkPayload text media metadata reply)
  | Json.Null => Some old
  | _ => None
  end.

(** The message structs; each embeds a [BaseMessage]. *)
Inductive Message :=
| Auth (base : BaseMessage) (token : string)
| Text_ (base : BaseMessage) (from to : string) (payload : TextPayload)
| Group (base : BaseMessage) (from groupID : string) (payload : TextPayload)
| Typing (base : BaseMessage) (userID chatID : string) (isTyping : bool)
| Presence (base : BaseMessage) (userID status : string) (lastSeen : Z) (device : string)
| Ack (base : BaseMessage) (originalMessageID status : string)
| Beat (base : BaseMessage) (sequence : Z).

Definition base_of (msg : Message) : BaseMessage :=
  match msg with
  | Auth b _ | Text_ b _ _ _ | Group b _ _ _ | Typing b _ _ _
  | Presence b _ _ _ _ | Ack b _ _ | Beat b _ => b
  end.

Definition TypeAuth : string := "auth".
Definition TypeMessage : string := "message".
Definition TypeGroupMessage : string := "group_message".
Definition TypeTyping : string := "typing".
Definition TypePresence : string := "presence".
Definition TypeACK : string := "ack".
Definition TypeError : string := "error".
Definition TypeHeartbeat : string := "heartbeat".

(** The message type a struct stands for. *)
Definition type_of (msg : Message) : string :=
  match msg with
  | Auth _ _ => TypeAuth
  | Text_ _ _ _ _ => TypeMessage
  | Group _ _ _ _ => TypeGroupMessage
  | Typing _ _ _ _ => TypeTyping
  | Presence _ _ _ _ _ => TypePresence
  | Ack _ _ _ => TypeACK
  | Beat _ _ => TypeHeartbeat
  end.

Definition empty_payload : TextPayload := mkPayload "" "" ∅ "".

(** [json.Unmarshal(raw, &msg)] for each struct, on a zero value. *)
Definition decodeAuth (v : Json.value) : option Message :=
  b ← Unmarshal v; fields ← members v;
  token ← read Json.into_string "" "token" fields;
  Some (Auth b token).

Definition decodeText (v : Json.value) : option Message :=
  b ← Unmarshal v; fields ← members v;
  from ← read Json.into_string "" "from" fields;
  to ← read Json.into_string "" "to" fields;
  payload ← read into_payload empty_payload "payload" fields;
  Some (Text_ b from to payload).

Definition decodeGroup (v : Json.value) : option Message :=
  b ← Unmarshal v; fields ← members v;
  from ← read Json.into_string "" "from" fields;
  group ← read Json.into_string "" "group_id" fields;
  payload ← read into_payload empty_payload "payload" fields;
  Some (Group b from group payload).

Definition decodeTyping (v : Json.value) : option Message :=
  b ← Unmarshal v; fields ← members v;
  user ← read Json.into_string "" "user_id" fields;
  chat ← read Json.into_string "" "chat_id" fields;
  typing ← read into_bool false "is_typing" fields;
  Some (Typing b user chat typing).

Definition decodePresence (v : Json.value) : option Message :=
  b ← Unmarshal v; fields ← members v;
  user ← read Json.into_string "" "user_id" fields;
  status ← read Json.into_string "" "status" fields;
  seen ← read Json.into_int64 0 "last_seen" fields;
  device ← read Json.into_string "" "device" fields;
  Some (Presence b user status seen device).

Definition decodeAck (v : Json.value) : option Message :=
  b ← Unmarshal v; fields ← members v;
  original ← read Json.into_string "" "original_message_id" fields;
  status ← read Json.into_string "" "status" fields;
  Some (Ack b original status).

Definition decodeHeartbeat (v : Json.value) : option Message :=
  b ← Unmarshal v; fields ← members v;
  sequence ← read Json.into_int64 0 "sequence" fields;
  Some (Beat b sequence).

Inductive error :=
| ErrFormat                       (* invalid message format: ... *)
| ErrField                        (* the error of the second Unmarshal *)
| ErrUnknownType (t : string).    (* unknown message type: t *)

Definition typed (decode : Json.value -> option Message) (v : Json.value)
  : Message + error :=
  match decode v with
  | Some msg => inl msg
  | None => inr ErrField
  end.

(** [ParseMessage]; [raw] is the JSON value of the bytes, [None] when
    they are not JSON. *)
Definition ParseMessage (raw : option Json.value) : Message + error :=
  match raw with
  | None => inr ErrFormat
  | Some v =>
      match Unmarshal v with
      | None => inr ErrFormat
      | Some base =>
          if bool_decide (Type_ base = TypeAuth) then typed decodeAuth v
          else if bool_decide (Type_ base = TypeMessage) then typed decodeText v
          else if bool_decide (Type_ base = TypeGroupMessage) then typed decodeGroup v
          else if bool_decide (Type_ base = TypeTyping) then typed decodeTyping v
          else if bool_decide (Type_ base = TypePresence) then typed decodePresence v
          else if bool_decide (Type_ base = TypeACK) then typed decodeAck v
          else if bool_decide (Type_ base = TypeHeartbeat) then typed decodeHeartbeat v
          else inr (ErrUnknownType (Type_ base))
      end
  end.

(** [NewBaseMessage] and [NewErrorMessage]; [msgID] is the value of
    [uuid.New().String()] and [ts] that of [time.Now().UnixMilli()]. *)
Definition NewBaseMessage (msgType msgID : string) (ts : Z) : BaseMessage :=
  mkBase msgType msgID ts.

Record ErrorMessage := mkError {
  ErrorBase : BaseMessage;
  Code : string;
  ErrorText : string;     (* the field Message *)
  Details : string
}.

Definition NewErrorMessage (code message details msgID : string) (ts : Z)
  : ErrorMessage :=
  {| ErrorBase := NewBaseMessage TypeError msgID ts;
     Code := code; ErrorText := message; Details := details |}.

(** The JSON value that [json.Marshal] writes for an [ErrorMessage]:
    the fields in the order of the struct, strings coerced to valid
    UTF-8, and the fields marked omitempty left out when empty. *)
Definition omitempty (name value : string) : list (string * Json.value) :=
  if bool_decide (value = "") then []
  else [(name, Json.Str (Json.toValidUTF8 value))].

Definition MarshalError (e : ErrorMessage) : Json.value :=
  Json.Obj
    ([("type", Json.Str (Json.toValidUTF8 (Type_ (ErrorBase e))))] ++
     omitempty "message_id" (MessageID (ErrorBase e)) ++
     [("timestamp", Json.Num (Timestamp (ErrorBase e)));
      ("code", Json.Str (Json.toValidUTF8 (Code e)));
      ("message", Json.Str (Json.toValidUTF8 (ErrorText e)))] ++
     omitempty "details" (Details e)).

End Messages.


(** * Further properties of the code *)

(** ** Sessions: closing, throttling, draining *)

Module SessionProps.

Import Client ClientFacts.

(** X1: a session that [Close] or [cleanup] has closed stays closed:
    it is marked closing, what was queued stays queued, [WriteMessage]
    answers with the closed error and changes nothing, and a further
    [Close] or [cleanup] changes nothing.  Only a [Close] that finds the
    session open logs its reason. *)
Theorem closed_session_is_sealed (c : Client) (reason again message : string) :
  (closing (Close c reason) = true /\
   Chan.buf (Send (Close c reason)) = Chan.buf (Send c) /\
   WriteMessage (Close c reason) message
   = Some (Some ErrClientClosed, Close c reason) /\
   Close (Close c reason) again = Close c reason /\
   cleanup (Close c reason) = Close c reason /\
   closeLog (Close c reason)
   = if closing c then closeLog c else closeLog c ++ [reason]) /\
  (closing (cleanup c) = true /\
   Chan.buf (Send (cleanup c)) = Chan.buf (Send c) /\
   WriteMessage (cleanup c) message
   = Some (Some ErrClientClosed, cleanup c) /\
   Close (cleanup c) again = cleanup c /\
   cleanup (cleanup c) = cleanup c /\
   closeLog (cleanup c) = closeLog c).
Proof.
  unfold Close, cleanup, WriteMessage.
  destruct (closing c) eqn:Hc; simpl; rewrite ?Hc; simpl; by repeat split.
Qed.

(** X2: a frame that the session's rate limiter refuses still counts as
    activity: the last-activity time and the receive counters are
    updated.  The frame is not handed to the message handler; one error
    frame with code RATE_LIMIT_EXCEEDED is queued when the queue has
    room, and dropped when it is full; the loop goes on. *)
Theorem ReadPump_throttled (c : Client) (now : Z) (frame msgID : string) :
  client_ok c -> cancelled c = false ->
  Z.of_nat (String.length frame) <= readLimit ->
  exists c',
    ReadPump_step c now (Some frame) false msgID = Some (Throttled, c') /\
    LastActivity c' = now /\
    MessagesReceived (metrics c') = Int.wrap64 (MessagesReceived (metrics c) + 1) /\
    BytesReceived (metrics c')
    = Int.wrap64 (BytesReceived (metrics c) + Z.of_nat (String.length frame)) /\
    closing c' = false /\
    Chan.buf (Send c')
    = if bool_decide (Chan.len (Send c) < 256)%nat
      then Chan.buf (Send c) ++
           [ErrorMessageJSON "RATE_LIMIT_EXCEEDED" "Too many messages"
              "Please slow down" msgID (now / 1000000)]
      else Chan.buf (Send c).
Proof.
  intros Hok Hcan Hlen. pose proof Hok as [Hcap Hle Hclosed Hcl].
  assert (Hopen : closing c = false).
  { destruct (closing c) eqn:Hc; [|done]. destruct (Hcl eq_refl). congruence. }
  unfold ReadPump_step. rewrite Hcan.
  rewrite ReadPumpFacts.ReadMessage_within by done. simpl.
  unfold WriteMessage. simpl. rewrite Hopen.
  unfold Chan.trySend. simpl. rewrite Hclosed, Hopen.
  unfold sendCap in *. rewrite Hcap.
  case_bool_decide as Hroom; simpl; eexists; (split; [done|]); simpl; done.
Qed.

Lemma ReadPump_throttled_witness :
  exists c',
    ReadPump_step (NewClient "c1" "10.0.0.1" 0 0) 5000000 (Some "hello") false "id-1"
    = Some (Throttled, c') /\
    Chan.len (Send c') = 1%nat /\ LastActivity c' = 5000000.
Proof.
  destruct (ReadPump_throttled (NewClient "c1" "10.0.0.1" 0 0) 5000000 "hello" "id-1")
    as (c' & Hstep & Hact & _ & _ & _ & Hbuf);
    [apply NewClient_ok|reflexivity|by vm_compute|].
  exists c'. split; [done|]. split; [|done].
  unfold Chan.len. by rewrite Hbuf.
Defined.

(** The messages of a frame, one per line. *)
Fixpoint join_lines (ms : list string) : string :=
  match ms with
  | [] => ""
  | m :: rest =>
      match rest with
      | [] => m
      | _ => (m ++ newline ++ join_lines rest)%string
      end
  end.

Lemma append_assoc (a b c : string) :
  ((a ++ b) ++ c = a ++ (b ++ c))%string.
Proof.
  induction a as [|ch a IH]; [done|].
  change (String ch ((a ++ b) ++ c) = String ch (a ++ (b ++ c)))%string.
  by f_equal.
Qed.

Lemma join_lines_cons_cons a x rest :
  join_lines ((a ++ newline ++ x)%string :: rest)
  = (a ++ newline ++ join_lines (x :: rest))%string.
Proof.
  destruct rest as [|y rest]; [done|].
  change (join_lines ((a ++ newline ++ x)%string :: y :: rest))
    with ((a ++ newline ++ x) ++ newline ++ join_lines (y :: rest))%string.
  change (join_lines (x :: y :: rest))
    with (x ++ newline ++ join_lines (y :: rest))%string.
  by rewrite !append_assoc.
Qed.

Lemma drain_fold_join rest :
  forall m,
    foldl (fun frame x => (frame ++ newline ++ x)%string) m rest
    = join_lines (m :: rest).
Proof.
  induction rest as [|x rest IH]; intros m; [done|].
  simpl foldl. rewrite IH. apply join_lines_cons_cons.
Qed.

Lemma WritePump_drain_join (c : Client) :
  Chan.buf (Send c) <> [] ->
  WritePump_drain c
  = Some (join_lines (Chan.buf (Send c)),
          with_Send c (Chan.mkChan [] (Chan.cap (Send c)) (Chan.closed (Send c)))
            (metrics c)).
Proof.
  unfold WritePump_drain. destruct (Chan.buf (Send c)) as [|m rest]; [done|].
  intros _. by rewrite drain_fold_join.
Qed.

(** X3: what is written to a session comes out once and in order: on
    an open session with room, [WriteMessage] followed by the send case
    of [WritePump] writes one frame holding the messages that were
    queued and then the new one, a line each, and leaves the queue
    empty, so that nothing is written a second time. *)
Theorem WriteMessage_then_drain (c : Client) (message : string) :
  client_ok c -> closing c = false -> (Chan.len (Send c) < 256)%nat ->
  exists c1 c2,
    WriteMessage c message = Some (None, c1) /\
    WritePump_drain c1
    = Some (join_lines (Chan.buf (Send c) ++ [message]), c2) /\
    Chan.buf (Send c2) = [] /\ closing c2 = false /\
    WritePump_drain c2 = None.
Proof.
  intros Hok Hopen Hroom. pose proof Hok as [Hcap Hle Hclosed Hcl].
  unfold WriteMessage. rewrite Hopen.
  rewrite trySend_room by (unfold sendCap in *; congruence || lia).
  eexists _, _. split; [done|]. rewrite WritePump_drain_join; simpl.
  - split; [done|]. unfold WritePump_drain, with_Send. simpl. by rewrite Hopen.
  - by intros [_ ?]%app_eq_nil.
Qed.

Lemma WriteMessage_then_drain_witness :
  exists c1 c2,
    WriteMessage (filled 2) "z" = Some (None, c1) /\
    WritePump_drain c1 = Some (join_lines ["m"; "m"; "z"], c2) /\
    Chan.buf (Send c2) = [].
Proof.
  destruct (WriteMessage_then_drain (filled 2) "z")
    as (c1 & c2 & Hw & Hd & Hb & _);
    [apply filled_ok|reflexivity|vm_compute; lia|].
  exists c1, c2. by repeat split.
Defined.

End SessionProps.

(** ** The bus adapter: which handler runs, and when *)

Module BusProps.

Import Protocol PubSub PubSubFacts.

(** X4: [processMessage] calls at most one handler, and only for a
    payload that decodes to an envelope of another node whose inner
    message decodes: the handler called is the one registered for that
    message's type, and it receives that message. *)
Theorem processMessage_call_is_justified (r : RedisPubSub)
    (payload : option Json.value) (h : nat) (b : BaseMessage) :
  (h, b) ∈ processMessage r payload ->
  processMessage r payload = [(h, b)] /\
  exists e,
    parseEnvelope payload = Some e /\ NodeID e <> nodeID r /\
    parseInner e = Some b /\ handlers r !! Type_ b = Some h.
Proof.
  unfold processMessage.
  destruct (parseEnvelope payload) as [e|] eqn:He; [|by intros ?%elem_of_nil].
  case_bool_decide as Hn; [by intros ?%elem_of_nil|].
  destruct (parseInner e) as [b0|] eqn:Hb; [|by intros ?%elem_of_nil].
  destruct (handlers r !! Type_ b0) as [h0|] eqn:Hh; [|by intros ?%elem_of_nil].
  intros Hin. apply list_elem_of_singleton in Hin. injection Hin as -> ->.
  split; [done|]. by exists e.
Qed.

Lemma processMessage_call_is_justified_witness :
  processMessage node_A (Some presence_from_B)
  = [(7%nat, mkBase "presence" "" 1700000000000)] /\
  handlers node_A !! "presence" = Some 7%nat.
Proof.
  destruct (processMessage_call_is_justified node_A (Some presence_from_B)
              7%nat (mkBase "presence" "" 1700000000000))
    as (Hcalls & e & _ & _ & _ & Hh); [vm_compute; by left|].
  by split.
Defined.

(** X5: the envelope that [Publish] writes carries the publisher's node
    id coerced to valid UTF-8, which is the node id itself when that is
    valid UTF-8, and, as its message, the base64 text of the marshalled
    message.  A JSON string does not decode to a [BaseMessage], so on no
    node, the publisher included, does [processMessage] call a handler
    for it. *)
Theorem Publish_reaches_no_handler (r r' : RedisPubSub) (now : Z)
    (msgBytes : string) :
  processMessage r' (Some (Publish r now msgBytes)) = [] /\
  forall e,
    parseEnvelope (Some (Publish r now msgBytes)) = Some e ->
    NodeID e = Json.toValidUTF8 (nodeID r) /\
    (Json.toValidUTF8 (nodeID r) = nodeID r -> NodeID e = nodeID r) /\
    Message e = Some (Json.Str (Json.base64 msgBytes)) /\
    parseInner e = None.
Proof.
  split.
  - unfold processMessage.
    destruct (parseEnvelope _) as [e|] eqn:He; [|done].
    apply Publish_envelope_node in He as [_ Hm].
    case_bool_decide; [done|].
    unfold parseInner. by rewrite Hm.
  - intros e He. apply Publish_envelope_node in He as [Hn Hm].
    split; [done|]. split; [by intros <-|]. split; [done|].
    unfold parseInner. by rewrite Hm.
Qed.

(** X6: registering a handler replaces the one registered for the same
    type and no other: a message of another node with that type goes to
    the new handler alone, a message of another type is handled as
    before. *)
Theorem RegisterHandler_replaces (r : RedisPubSub) (msgType : string)
    (handler : nat) (payload : option Json.value) (e : Envelope)
    (b : BaseMessage) :
  parseEnvelope payload = Some e -> NodeID e <> nodeID r ->
  parseInner e = Some b ->
  processMessage (RegisterHandler r msgType handler) payload
  = if bool_decide (Type_ b = msgType) then [(handler, b)]
    else processMessage r payload.
Proof.
  intros He Hn Hb. unfold processMessage. rewrite He. simpl.
  rewrite !bool_decide_eq_false_2 by done. rewrite Hb.
  case_bool_decide as Ht.
  - by rewrite Ht, lookup_insert_eq.
  - by rewrite lookup_insert_ne.
Qed.

Lemma RegisterHandler_replaces_witness :
  processMessage (RegisterHandler node_A "presence" 9%nat) (Some presence_from_B)
  = [(9%nat, mkBase "presence" "" 1700000000000)].
Proof.
  rewrite (RegisterHandler_replaces node_A "presence" 9%nat (Some presence_from_B)
             (mkEnvelope "node-B" 1700000000000
                (Some (Json.Obj [("type", Json.Str "presence");
                                 ("timestamp", Json.Num 1700000000000)])))
             (mkBase "presence" "" 1700000000000));
    [reflexivity|reflexivity|discriminate|reflexivity].
Defined.

End BusProps.

(** ** Tokens: what acceptance guarantees, and which errors occur *)

Module TokenProps.

Import Jwt Auth AuthFacts.

Lemma ParseWithClaims_checks (a : Authenticator) (t t' : Token) (now : Z) :
  ParseWithClaims (Compact t) (keyFunc a) now = Some t' ->
  isHMAC (Method t) = true /\ signedWith t = secret a /\
  Validate (Registered (TokenClaims t)) now = true.
Proof.
  unfold ParseWithClaims, keyFunc.
  destruct (isHMAC (Method t)) eqn:Hm; simpl; [|done].
  destruct (bool_decide (signedWith t = secret a)) eqn:Hk; simpl; [|done].
  destruct (Validate (Registered (TokenClaims t)) now) eqn:Hv; [|done].
  intros _. apply bool_decide_eq_true in Hk. done.
Qed.

Lemma ValidateToken_inl (a : Authenticator) (ts : TokenString)
    (now : Z) (claims : Claims) :
  ValidateToken a ts now = inl claims ->
  exists t,
    ts = Compact t /\ claims = TokenClaims t /\
    ParseWithClaims ts (keyFunc a) now = Some t /\
    Issuer (Registered claims) = issuer a /\ UserID claims <> "".
Proof.
  unfold ValidateToken.
  destruct (ParseWithClaims ts (keyFunc a) now) as [t'|] eqn:Hp; [|done].
  destruct ts as [|t]; [done|].
  pose proof (ParseWithClaims_claims _ _ _ _ Hp) as ->.
  case_bool_decide as Hi; [done|]. case_bool_decide as Hu; [done|].
  intros [= <-]. by exists t.
Qed.

(** X7: the claims [ValidateToken] returns are those of a token that
    was signed with an HMAC method under the authenticator's secret,
    that is within its validity at the time of the call, whose issuer
    is the authenticator's and whose user id is not empty. *)
Theorem ValidateToken_accepts_only (a : Authenticator) (ts : TokenString)
    (now : Z) (claims : Claims) :
  ValidateToken a ts now = inl claims ->
  exists t,
    ts = Compact t /\ claims = TokenClaims t /\
    isHMAC (Method t) = true /\ signedWith t = secret a /\
    Validate (Registered claims) now = true /\
    Issuer (Registered claims) = issuer a /\ UserID claims <> "".
Proof.
  intros Hv.
  destruct (ValidateToken_inl a ts now claims Hv) as (t & -> & -> & Hp & Hi & Hu).
  destruct (ParseWithClaims_checks a t t now Hp) as (Hm & Hk & Hval).
  exists t. split; [done|]. split; [done|]. split; [exact Hm|].
  split; [exact Hk|]. split; [exact Hval|]. by split.
Qed.

Lemma ValidateToken_accepts_only_witness :
  exists t,
    GenerateToken (NewAuthenticator day_config) "u1" "d1" 10300000000 = Compact t /\
    signedWith t = "secret" /\ UserID (TokenClaims t) = "u1".
Proof.
  destruct (ValidateToken_accepts_only (NewAuthenticator day_config)
              (GenerateToken (NewAuthenticator day_config) "u1" "d1" 10300000000)
              10300000000
              (mkClaims "u1" "d1" ""
                 (mkRegistered "websocket-gateway" (Some 86410000000000)
                    (Some 10000000000) (Some 10000000000) "u1-10300000000")))
    as (t & Ht & Hc & _ & Hk & _); [by vm_compute|].
  exists t. split; [done|]. split; [done|]. by rewrite <- Hc.
Defined.

(** X8: [ValidateToken] never returns the expired-token error: a token
    that does not parse, has a bad signature, a method that is not
    HMAC, or is outside its validity gets the invalid-token error.  The
    issuer error means the token verified but names another issuer,
    and the missing-user error means it verified with the right issuer
    and an empty user id. *)
Theorem ValidateToken_errors (a : Authenticator) (ts : TokenString)
    (now : Z) (e : error) :
  ValidateToken a ts now = inr e ->
  e <> ErrExpiredToken /\
  (e = ErrInvalidToken <-> ParseWithClaims ts (keyFunc a) now = None) /\
  (e = ErrInvalidIssuer ->
   exists t, ts = Compact t /\ Issuer (Registered (TokenClaims t)) <> issuer a) /\
  (e = ErrMissingUserID ->
   exists t, ts = Compact t /\ Issuer (Registered (TokenClaims t)) = issuer a /\
             UserID (TokenClaims t) = "").
Proof.
  unfold ValidateToken.
  destruct (ParseWithClaims ts (keyFunc a) now) as [t'|] eqn:Hp.
  - destruct ts as [|t]; [done|].
    pose proof (ParseWithClaims_claims _ _ _ _ Hp) as ->.
    case_bool_decide as Hi; [|case_bool_decide as Hu; [|done]];
      intros [= <-]; (split; [done|]); (split; [by split|]); split; try done.
    + intros _. by exists t.
    + intros _. by exists t.
  - intros [= <-]. by repeat split.
Qed.

Lemma ValidateToken_errors_witness :
  ValidateToken (NewAuthenticator half_second_config)
    (GenerateToken (NewAuthenticator half_second_config) "u1" "d1" 10300000000)
    10300000000 = inr ErrInvalidToken /\
  ErrInvalidToken <> ErrExpiredToken.
Proof.
  destruct (ValidateToken_errors (NewAuthenticator half_second_config)
              (GenerateToken (NewAuthenticator half_second_config) "u1" "d1"
                 10300000000) 10300000000 ErrInvalidToken)
    as [Hne _]; [by vm_compute|].
  split; [by vm_compute|done].
Defined.

(** X9: a token of [GenerateToken] is accepted only from the whole
    second in which it was generated until before generation time plus
    the configured expiry; so with an expiry of zero or less, no
    generated token is ever accepted. *)
Theorem generated_token_lifetime (a : Authenticator) (userID deviceID : string)
    (tg tv : Z) (claims : Claims) :
  ValidateToken a (GenerateToken a userID deviceID tg) tv = inl claims ->
  NewNumericDate tg <= tv < tg + expiry a /\ 0 < expiry a.
Proof.
  intros Hv. apply ValidateToken_inl in Hv as (t & Ht & -> & Hp & _).
  rewrite Ht in Hp. apply ParseWithClaims_checks in Hp as (_ & _ & Hval).
  injection Ht as <-. unfold Validate in Hval. simpl in Hval.
  apply andb_true_iff in Hval as [Hexp%bool_decide_eq_true Hnbf%bool_decide_eq_true].
  pose proof (NewNumericDate_le (tg + expiry a)).
  pose proof (NewNumericDate_le tg).
  pose proof (NewNumericDate_gt tg) as Hgt. unfold Config.second in Hgt.
  split; [lia|].
  assert (NewNumericDate tg < NewNumericDate (tg + expiry a)) by lia.
  destruct (decide (0 < expiry a)) as [|Hle]; [done|]. exfalso.
  assert (NewNumericDate (tg + expiry a) <= NewNumericDate tg); [|lia].
  unfold NewNumericDate, Config.second.
  pose proof (Z.mod_pos_bound tg 1000000000 ltac:(lia)).
  pose proof (Z.mod_pos_bound (tg + expiry a) 1000000000 ltac:(lia)).
  pose proof (Z.div_mod tg 1000000000 ltac:(lia)).
  pose proof (Z.div_mod (tg + expiry a) 1000000000 ltac:(lia)).
  assert ((tg + expiry a) `div` 1000000000 <= tg `div` 1000000000)
    by (apply Z.div_le_mono; lia).
  lia.
Qed.

Lemma generated_token_lifetime_witness :
  NewNumericDate 10300000000 <= 10300000000 < 10300000000 + 86400000000000.
Proof.
  destruct (generated_token_lifetime (NewAuthenticator day_config) "u1" "d1"
              10300000000 10300000000
              (mkClaims "u1" "d1" ""
                 (mkRegistered "websocket-gateway" (Some 86410000000000)
                    (Some 10000000000) (Some 10000000000) "u1-10300000000")))
    as [H _]; [by vm_compute|].
  exact H.
Defined.

End TokenProps.

(** ** Rounding the shard count *)

Module RoundingProps.

Import Hash.

(** Bit [i] of [y] is set exactly when one of the [k] bits of [x] from
    [i] upwards is: what [k - 1] shifts of [x] or-ed onto it give. *)
Definition covers (x y k : Z) : Prop :=
  forall i, 0 <= i ->
    Z.testbit y i = true <-> exists j, 0 <= j < k /\ Z.testbit x (i + j) = true.

Lemma covers_start x : covers x x 1.
Proof.
  intros i Hi. split.
  - intros Hb. exists 0. split; [lia|]. by rewrite Z.add_0_r.
  - intros (j & Hj & Hb). by replace (i + j) with i in Hb by lia.
Qed.

Lemma covers_double x y k :
  0 < k -> covers x y k -> covers x (Z.lor y (Z.shiftr y k)) (2 * k).
Proof.
  intros Hk Hy i Hi.
  rewrite Z.lor_spec, Z.shiftr_spec by done. rewrite orb_true_iff.
  rewrite (Hy i Hi), (Hy (i + k)) by lia. split.
  - intros [(j & Hj & Hb)|(j & Hj & Hb)].
    + exists j. split; [lia|done].
    + exists (k + j). split; [lia|]. by rewrite Z.add_assoc.
  - intros (j & Hj & Hb). destruct (decide (j < k)) as [Hlt|Hge].
    + left. exists j. split; [lia|done].
    + right. exists (j - k). split; [lia|].
      by replace (i + k + (j - k)) with (i + j) by lia.
Qed.

Lemma covers_ones x y :
  0 < x < 2 ^ 32 -> covers x y 32 -> y = Z.ones (Z.log2 x + 1).
Proof.
  intros Hx Hy. pose proof (Z.log2_nonneg x) as Hl.
  assert (Z.log2 x < 32) by (apply Z.log2_lt_pow2; lia).
  apply Z.bits_inj'. intros i Hi.
  rewrite Z.testbit_ones_nonneg by lia.
  apply eq_true_iff_eq. rewrite (Hy i Hi), Z.ltb_lt. split.
  - intros (j & Hj & Hb).
    destruct (decide (i + j <= Z.log2 x)) as [|Hgt]; [lia|].
    rewrite Z.bits_above_log2 in Hb by lia. done.
  - intros Hlt. exists (Z.log2 x - i). split; [lia|].
    replace (i + (Z.log2 x - i)) with (Z.log2 x) by lia.
    apply Z.bit_log2. lia.
Qed.

(** The five or-shift steps fill in every bit below the highest one. *)
Lemma smear_ones x :
  0 < x < 2 ^ 32 ->
  let n := Z.lor x (Z.shiftr x 1) in
  let n := Z.lor n (Z.shiftr n 2) in
  let n := Z.lor n (Z.shiftr n 4) in
  let n := Z.lor n (Z.shiftr n 8) in
  let n := Z.lor n (Z.shiftr n 16) in
  n = Z.ones (Z.log2 x + 1).
Proof.
  intros Hx. cbv zeta. apply covers_ones; [done|].
  apply (covers_double x _ 16); [done|].
  apply (covers_double x _ 8); [done|].
  apply (covers_double x _ 4); [done|].
  apply (covers_double x _ 2); [done|].
  apply (covers_double x _ 1); [done|].
  apply covers_start.
Qed.

Lemma nextPowerOfTwo_pow2 n :
  2 <= n <= 2 ^ 32 -> nextPowerOfTwo n = Int.wrap32 (2 ^ (Z.log2 (n - 1) + 1)).
Proof.
  intros Hn. unfold nextPowerOfTwo.
  rewrite (IntFacts.wrap32_id (n - 1)) by lia.
  pose proof (smear_ones (n - 1) ltac:(lia)) as Hs. cbv zeta in Hs.
  rewrite Hs, Z.ones_equiv. f_equal. lia.
Qed.

Lemma nextPowerOfTwo_log2_up n :
  1 <= n <= 2 ^ 31 -> nextPowerOfTwo n = 2 ^ Z.log2_up n.
Proof.
  intros Hn. destruct (decide (n = 1)) as [->|Hne]; [done|].
  rewrite nextPowerOfTwo_pow2 by lia.
  assert (Hup : Z.log2_up n = Z.log2 (n - 1) + 1).
  { rewrite Z.log2_up_eqn by lia. replace (Z.pred n) with (n - 1) by lia. lia. }
  rewrite <- Hup. apply IntFacts.wrap32_id.
  assert (Z.log2_up n <= 31) by (apply Z.log2_up_le_pow2; lia).
  pose proof (Z.log2_up_nonneg n).
  assert (2 ^ Z.log2_up n <= 2 ^ 31) by (apply Z.pow_le_mono_r; lia).
  assert (0 < 2 ^ Z.log2_up n) by (apply Z.pow_pos_nonneg; lia).
  lia.
Qed.

(** X10: for a count from 1 to 2^31, [nextPowerOfTwo] returns the least
    power of two that is not below the count: it is two to the rounded-up
    binary logarithm, it is at least the count, and no power of two in
    between is skipped. *)
Theorem nextPowerOfTwo_least_power (n : Z) :
  1 <= n <= 2 ^ 31 ->
  nextPowerOfTwo n = 2 ^ Z.log2_up n /\
  n <= nextPowerOfTwo n /\
  forall k, 0 <= k -> n <= 2 ^ k -> nextPowerOfTwo n <= 2 ^ k.
Proof.
  intros Hn.
  pose proof (nextPowerOfTwo_log2_up n Hn) as Heq.
  rewrite Heq. split; [done|]. split.
  - destruct (decide (n = 1)) as [->|Hne]; [done|].
    apply Z.log2_up_spec. lia.
  - intros k Hk Hle. apply Z.pow_le_mono_r; [lia|].
    apply Z.log2_up_le_pow2; lia.
Qed.

Lemma nextPowerOfTwo_least_power_witness :
  nextPowerOfTwo 1000 = 2 ^ Z.log2_up 1000 /\ 1000 <= nextPowerOfTwo 1000.
Proof.
  destruct (nextPowerOfTwo_least_power 1000) as (H1 & H2 & _); [lia|].
  by split.
Defined.

(** Above 2^31 the rounding wraps around to zero, as it does at zero. *)
Lemma nextPowerOfTwo_wraps n :
  2 ^ 31 < n <= 2 ^ 32 -> nextPowerOfTwo n = 0.
Proof.
  intros Hn. rewrite nextPowerOfTwo_pow2 by lia.
  assert (Z.log2 (n - 1) = 31) as ->; [|done].
  apply Z.log2_unique; lia.
Qed.

End RoundingProps.

(** ** A shard: adding, finding, removing and sweeping *)

Module ShardProps.

Import Client Shard ShardFacts SweepFacts.

(** X11: a session added to a shard under an id that was free is found
    under that id and no other lookup changes; the shard's connection
    count goes up by one.  Removing it returns the same session and
    restores the primary map; in the user index exactly the entry of
    the session's own user and device is gone, whichever session it
    pointed to.  A second removal finds nothing and changes nothing. *)
Theorem AddClient_RemoveClient (h : list Client) (s : Shard) (p : ptr) (c : Client) :
  h !! p = Some c -> clients s !! ID c = None ->
  exists s1 s2,
    AddClient h s p = Some s1 /\
    GetClient s1 (ID c) = Some p /\
    (forall id, id <> ID c -> GetClient s1 id = GetClient s id) /\
    ActiveConnections (GetStats s1)
    = ActiveConnections (GetStats s) + 1 /\
    RemoveClient h s1 (ID c) = Some (s2, Some p) /\
    clients s2 = clients s /\
    (forall u d,
       entry (userClients s2) u d
       = if bool_decide (UserID c <> "" /\ u = UserID c /\ d = DeviceID c)
         then None else entry (userClients s) u d) /\
    RemoveClient h s2 (ID c) = Some (s2, None).
Proof.
  intros Hp Hfree. unfold AddClient, RemoveClient, GetClient. rewrite Hp. simpl.
  eexists _, _. split; [done|]. simpl.
  rewrite lookup_insert_eq, Hp. simpl.
  split; [done|]. split; [by intros id Hid; rewrite lookup_insert_ne|].
  split; [rewrite map_size_insert_None by done; lia|].
  split; [done|]. simpl.
  rewrite delete_insert_id by done. rewrite Hfree.
  split; [done|]. split; [|done].
  intros u d. unfold unindex. case_bool_decide as Hu.
  - rewrite entry_dropDevice.
    case_bool_decide as Hk; [by rewrite bool_decide_eq_true_2|].
    rewrite bool_decide_eq_false_2; [done|]. by intros [_ ?].
  - rewrite bool_decide_eq_false_2; [done|]. by intros [? _].
Qed.

Lemma AddClient_RemoveClient_witness :
  exists s1 s2,
    AddClient [NewClient "c1" "10.0.0.1" 0 0] (NewShard 0) 0%nat = Some s1 /\
    GetClient s1 "c1" = Some 0%nat /\
    RemoveClient [NewClient "c1" "10.0.0.1" 0 0] s1 "c1" = Some (s2, Some 0%nat) /\
    clients s2 = ∅.
Proof.
  destruct (AddClient_RemoveClient [NewClient "c1" "10.0.0.1" 0 0] (NewShard 0)
              0%nat (NewClient "c1" "10.0.0.1" 0 0))
    as (s1 & s2 & Ha & Hg & _ & _ & Hr & Hc & _); [reflexivity|reflexivity|].
  by exists s1, s2.
Defined.

Lemma sweep_fold_total h now timeout l :
  (forall e, e ∈ l -> is_Some (h !! e.2)) ->
  forall acc, is_Some (foldl (sweep_entry h now timeout) (Some acc) l).
Proof.
  induction l as [|e l IH]; intros Hl acc; [done|].
  simpl. destruct acc as [[cl uc] removed]. simpl.
  destruct (Hl e ltac:(left)) as [c ->]. simpl.
  case_bool_decide; apply IH; intros e' He'; apply Hl; by right.
Qed.

Lemma CleanupInactive_total h s now timeout :
  (forall id p, clients s !! id = Some p -> is_Some (h !! p)) ->
  is_Some (CleanupInactive h s now timeout).
Proof.
  intros Hh. unfold CleanupInactive.
  destruct (sweep_fold_total h now timeout (map_to_list (clients s)))
    with (acc := (clients s, userClients s, @nil string)) as [[[cl uc] rem] ->].
  - intros [id p] He. apply elem_of_map_to_list in He. by eapply Hh.
  - done.
Qed.

Lemma removed_stale h s now timeout id :
  id ∈ (filter (fun e => is_stale h now timeout e = true) (map_to_list (clients s))).*1
  <-> exists p c, clients s !! id = Some p /\ h !! p = Some c /\
                  timeout < now - LastActivity c.
Proof.
  rewrite list_elem_of_fmap. split.
  - intros ([id' p] & -> & He). apply list_elem_of_filter in He as [Hst He].
    apply elem_of_map_to_list in He. simpl. exists p.
    unfold is_stale in Hst. simpl in Hst.
    destruct (h !! p) as [c|]; [|done]. exists c.
    apply bool_decide_eq_true in Hst. done.
  - intros (p & c & Hid & Hp & Hst). exists (id, p). split; [done|].
    apply list_elem_of_filter. split; [|by apply elem_of_map_to_list].
    unfold is_stale. simpl. rewrite Hp. by apply bool_decide_eq_true.
Qed.

Lemma CleanupInactive_keeps (h : list Client) (s : Shard) (now timeout : Z) :
  (forall id p, clients s !! id = Some p -> is_Some (h !! p)) ->
  exists s' removed,
    CleanupInactive h s now timeout = Some (s', removed) /\
    NoDup removed /\
    (forall id,
       id ∈ removed <->
       exists p c, clients s !! id = Some p /\ h !! p = Some c /\
                   timeout < now - LastActivity c) /\
    (forall id p,
       clients s' !! id = Some p <->
       clients s !! id = Some p /\
       exists c, h !! p = Some c /\ now - LastActivity c <= timeout) /\
    LastCleanup (stats s') = now.
Proof.
  intros Hh.
  destruct (CleanupInactive_total h s now timeout Hh) as [[s' removed] Hc].
  exists s', removed. split; [done|].
  pose proof Hc as (Hrem & Hsub & Hkeep & _ & Hgone & _)%CleanupInactive_spec.
  split; [|split; [|split]].
  - rewrite Hrem.
    apply (sublist_NoDup _ (map_to_list (clients s)).*1);
      [apply NoDup_fst_map_to_list|].
    apply fmap_sublist, sublist_filter.
  - intros id. rewrite Hrem. apply removed_stale.
  - intros id p. split.
    + intros Hid. pose proof (Hsub _ _ Hid) as Hold. split; [done|].
      destruct (Hh _ _ Hold) as [c Hp]. exists c. split; [done|].
      destruct (decide (now - LastActivity c <= timeout)) as [|Hst]; [done|].
      assert (Hin : id ∈ removed).
      { rewrite Hrem. apply removed_stale. exists p, c. repeat split; [done..|lia]. }
      apply Hgone in Hin. congruence.
    + intros (Hold & c & Hp & Hle). apply Hkeep; [done|].
      rewrite Hrem. intros (p' & c' & Hid' & Hp' & Hst)%removed_stale.
      simplify_eq. lia.
  - unfold CleanupInactive in Hc.
    destruct (foldl _ _ _) as [[[cl uc] rem]|]; simpl in Hc; [|done].
    by injection Hc as <- <-.
Qed.

(** X12: [CleanupInactive] on a shard whose sessions all exist removes
    exactly the sessions whose last activity lies more than the timeout
    back, each reported once; a session idle for exactly the timeout
    stays.  The sessions kept are the others, unchanged; the stored
    count of active connections goes down by the number removed, which
    is the number by which the primary map shrinks, and the time of the
    sweep is recorded. *)
Theorem CleanupInactive_exact (h : list Client) (s : Shard) (now timeout : Z) :
  (forall id p, clients s !! id = Some p -> is_Some (h !! p)) ->
  exists s' removed,
    CleanupInactive h s now timeout = Some (s', removed) /\
    NoDup removed /\
    (forall id,
       id ∈ removed <->
       exists p c, clients s !! id = Some p /\ h !! p = Some c /\
                   timeout < now - LastActivity c) /\
    (forall id p,
       clients s' !! id = Some p <->
       clients s !! id = Some p /\
       exists c, h !! p = Some c /\ now - LastActivity c <= timeout) /\
    (size (clients s') + length removed = size (clients s))%nat /\
    ActiveConnections (stats s')
    = Int.wrap64 (ActiveConnections (stats s) - Z.of_nat (length removed)) /\
    LastCleanup (stats s') = now.
Proof.
  intros Hh.
  destruct (CleanupInactive_keeps h s now timeout Hh)
    as (s' & removed & Hc & Hnd & Hrem & Hkeep & Hnow).
  exists s', removed. split; [done|]. split; [done|]. split; [done|].
  split; [done|].
  pose proof Hc as (_ & _ & _ & _ & _ & Hsize)%CleanupInactive_spec.
  split; [done|]. split; [|done].
  unfold CleanupInactive in Hc.
  destruct (foldl _ _ _) as [[[cl uc] rem]|]; simpl in Hc; [|done].
  by injection Hc as <- <-.
Qed.

Lemma CleanupInactive_exact_witness :
  exists s' removed,
    CleanupInactive [NewClient "c1" "10.0.0.1" 0 0]
      (mkShard 0 {["c1" := 0%nat]} ∅ (mkStats 1 1 0 0 0 0)) 200 100
    = Some (s', removed) /\
    "c1" ∈ removed /\ LastCleanup (stats s') = 200.
Proof.
  destruct (CleanupInactive_exact [NewClient "c1" "10.0.0.1" 0 0]
              (mkShard 0 {["c1" := 0%nat]} ∅ (mkStats 1 1 0 0 0 0)) 200 100)
    as (s' & removed & Hc & _ & Hin & _ & _ & _ & Hl).
  - simpl. intros id p [<- <-]%lookup_singleton_Some. by eexists.
  - exists s', removed. split; [done|]. split; [|done].
    apply Hin. exists 0%nat, (NewClient "c1" "10.0.0.1" 0 0).
    split; [apply lookup_singleton_eq|]. split; [done|]. simpl. lia.
Defined.

End ShardProps.

(** ** More of the registry: what else holds between operations *)

Module IndexFacts.

Import Client Shard Manager ShardFacts SweepFacts ClientFacts RegistryFacts.

(** A shard's user index holds no user without a device, and the stored
    count of active connections is the size of the primary map. *)
Record shard_tidy (s : Shard) : Prop := {
  tidy_devices : forall u devices,
    userClients s !! u = Some devices -> devices <> ∅;
  tidy_count : ActiveConnections (stats s) = Z.of_nat (size (clients s))
}.

Lemma shard_tidy_NewShard i : shard_tidy (NewShard i).
Proof.
  split; simpl.
  - intros u devices. by rewrite lookup_empty.
  - by rewrite map_size_empty.
Qed.

Lemma dropDevice_devices uc u d :
  (forall u' devices, uc !! u' = Some devices -> devices <> ∅) ->
  forall u' devices, dropDevice uc u d !! u' = Some devices -> devices <> ∅.
Proof.
  intros Huc u' devices. unfold dropDevice.
  destruct (uc !! u) as [devs|] eqn:Hu; [|by apply Huc].
  case_bool_decide as Hsize.
  - intros Hl. apply lookup_delete_Some in Hl as [_ Hl]. by eapply Huc.
  - destruct (decide (u' = u)) as [->|Hne].
    + rewrite lookup_insert_eq. intros [= <-] He. apply Hsize.
      by rewrite He, map_size_empty.
    + rewrite lookup_insert_ne by done. by apply Huc.
Qed.

Lemma unindex_devices uc c :
  (forall u' devices, uc !! u' = Some devices -> devices <> ∅) ->
  forall u' devices, unindex uc c !! u' = Some devices -> devices <> ∅.
Proof.
  intros Huc. unfold unindex. case_bool_decide; [|done].
  by apply dropDevice_devices.
Qed.

(** The size of one primary map is bounded by the total. *)
Lemma size_le_registered ss i s :
  ss !! i = Some s -> Z.of_nat (size (clients s)) <= registered ss.
Proof.
  intros Hs. pose proof (registered_insert ss i s (NewShard 0) Hs) as Hins.
  pose proof (registered_nonneg (<[i := NewShard 0]> ss)).
  simpl in Hins. rewrite map_size_empty in Hins. lia.
Qed.

(** *** Adding a session *)

Lemma AddClient_tidy h s p c :
  shard_tidy s -> h !! p = Some c -> clients s !! ID c = None ->
  Z.of_nat (size (clients s)) + 1 < 2 ^ 63 ->
  exists s', AddClient h s p = Some s' /\ shard_tidy s' /\
             clients s' = <[ID c := p]> (clients s) /\
             userClients s' = userClients s.
Proof.
  intros [Hdev Hcount] Hp Hfree Hsize. unfold AddClient. rewrite Hp. simpl.
  eexists. split; [done|]. split; [|done]. split; simpl.
  - done.
  - rewrite Hcount, map_size_insert_None by done.
    rewrite IntFacts.wrap64_id; [lia|]. unfold Int.in_int64. lia.
Qed.

(** *** Authenticating a session *)

Lemma RegisterAuthenticatedClient_tidy h s p c u d :
  shard_tidy s -> h !! p = Some c ->
  exists s',
    RegisterAuthenticatedClient h s p u d
    = Some (<[p := SetAuthenticated c u d]> h, s') /\
    shard_tidy s'.
Proof.
  intros [Hdev Hcount] Hp.
  destruct (RegisterAuthenticatedClient_spec h s p u d c Hp)
    as (s' & Hr & Hcl & Hst & _ & Hidx).
  exists s'. split; [done|]. split.
  - intros u' devices Hl. unfold RegisterAuthenticatedClient in Hr.
    rewrite Hp in Hr. simpl in Hr. injection Hr as <-. simpl in Hl.
    destruct (decide (u' = u)) as [->|Hne].
    + rewrite lookup_insert_eq in Hl. injection Hl as <-.
      apply insert_non_empty.
    + rewrite lookup_insert_ne in Hl by done. by eapply Hdev.
  - by rewrite Hst, Hcl.
Qed.

(** *** Removing a session *)

Lemma Shard_RemoveClient_tidy mask h ss i s id p :
  registry_ok mask h ss -> ss !! i = Some s -> shard_tidy s ->
  Z.of_nat (size (clients s)) < 2 ^ 63 -> clients s !! id = Some p ->
  exists c s',
    h !! p = Some c /\ Shard.RemoveClient h s id = Some (s', Some p) /\
    shard_tidy s'.
Proof.
  intros Hreg Hs [Hdev Hcount] Hsize Hid.
  destruct (reg_primary _ _ _ Hreg _ _ _ _ Hs Hid) as (c & Hc & Hidc & _).
  unfold Shard.RemoveClient. rewrite Hid, Hc. simpl.
  eexists c, _. split; [done|]. split; [done|]. split; simpl.
  - by apply unindex_devices.
  - rewrite Hcount, map_size_delete_Some by done.
    assert (size (clients s) <> 0%nat).
    { intros Hz. apply map_size_empty_inv in Hz. by rewrite Hz, lookup_empty in Hid. }
    rewrite IntFacts.wrap64_id; [lia|]. unfold Int.in_int64. lia.
Qed.

(** *** Sweeping a shard *)

Lemma sweep_fold_devices h now timeout l :
  forall cl uc removed cl' uc' removed',
    foldl (sweep_entry h now timeout) (Some (cl, uc, removed)) l
    = Some (cl', uc', removed') ->
    (forall u devices, uc !! u = Some devices -> devices <> ∅) ->
    forall u devices, uc' !! u = Some devices -> devices <> ∅.
Proof.
  induction l as [|e l IH]; intros cl uc removed cl' uc' removed'.
  - simpl. by intros [= <- <- <-].
  - simpl. destruct (h !! e.2) as [c|]; simpl; [|by rewrite sweep_fold_None].
    case_bool_decide; intros Hf Huc; [|by eapply IH].
    eapply IH; [done|]. by apply unindex_devices.
Qed.

(** The index entry of a session the sweep takes is gone afterwards. *)
Lemma sweep_fold_unindexed h now timeout l :
  forall cl uc removed cl' uc' removed',
    foldl (sweep_entry h now timeout) (Some (cl, uc, removed)) l
    = Some (cl', uc', removed') ->
    forall e c, e ∈ l -> h !! e.2 = Some c -> timeout < now - LastActivity c ->
                UserID c <> "" -> entry uc' (UserID c) (DeviceID c) = None.
Proof.
  induction l as [|e l IH]; intros cl uc removed cl' uc' removed' Hf e' c He' Hc Hst Hu.
  - by apply elem_of_nil in He'.
  - simpl in Hf. destruct (h !! e.2) as [c0|] eqn:Hc0; simpl in Hf;
      [|by rewrite sweep_fold_None in Hf].
    apply elem_of_cons in He' as [->|He'].
    + assert (c0 = c) as -> by congruence.
      rewrite bool_decide_eq_true_2 in Hf by done.
      apply sweep_fold_spec in Hf as (_ & _ & _ & Hidx & _).
      destruct (entry uc' (UserID c) (DeviceID c)) as [q|] eqn:Hq; [|done].
      apply Hidx in Hq. by rewrite entry_unindex_own in Hq.
    + case_bool_decide; by eapply IH.
Qed.

Lemma CleanupInactive_tidy h s now timeout s' removed :
  shard_tidy s ->
  Z.of_nat (size (clients s)) < 2 ^ 63 ->
  CleanupInactive h s now timeout = Some (s', removed) ->
  shard_tidy s'.
Proof.
  intros [Hdev Hcount] Hbound Hc.
  pose proof Hc as (Hrem & Hsub & Hkeep & Hidx & Hgone & Hsize)%CleanupInactive_spec.
  unfold CleanupInactive in Hc.
  destruct (foldl _ _ _) as [[[cl uc] rem]|] eqn:Hf; simpl in Hc; [|done].
  injection Hc as <- <-. simpl in *. split; simpl.
  - eapply sweep_fold_devices; [done|done].
  - rewrite Hcount. rewrite IntFacts.wrap64_id; [lia|]. unfold Int.in_int64. lia.
Qed.

(** *** The user index when no session is authenticated twice

    [AuthenticateClient] does not refuse a session that is authenticated
    already: run again under another user or device, it stores a second
    entry for the session and leaves the first.  As long as it is not
    used that way, and not with an empty user id, the index of a shard
    is exact: an entry points at a session that carries the user and
    the device of the entry and is in the primary map of the shard. *)
Definition shard_exact (h : list Client) (s : Shard) : Prop :=
  forall u d p,
    entry (userClients s) u d = Some p ->
    exists c, h !! p = Some c /\ UserID c = u /\ DeviceID c = d /\ u <> "" /\
              clients s !! ID c = Some p.

Lemma shard_exact_NewShard h i : shard_exact h (NewShard i).
Proof. intros u d p. unfold entry. simpl. by rewrite lookup_empty. Qed.

(** The session objects may change as long as they keep their id, user
    and device. *)
Lemma shard_exact_heap h h' s :
  (forall p c, h !! p = Some c ->
     exists c', h' !! p = Some c' /\ ID c' = ID c /\ UserID c' = UserID c /\
                DeviceID c' = DeviceID c) ->
  shard_exact h s -> shard_exact h' s.
Proof.
  intros Hh Hex u d p He. destruct (Hex u d p He) as (c & Hc & Hu & Hd & Hne & Hid).
  destruct (Hh p c Hc) as (c' & Hc' & Hid' & Hu' & Hd'). exists c'.
  rewrite Hid', Hu', Hd'. done.
Qed.

Lemma heap_alloc_same (h : list Client) c0 :
  forall p c, h !! p = Some c ->
    exists c', (h ++ [c0]) !! p = Some c' /\ ID c' = ID c /\ UserID c' = UserID c /\
               DeviceID c' = DeviceID c.
Proof. intros p c Hc. exists c. split; [by apply lookup_app_l_Some|done]. Qed.

Lemma heap_touch_same (h : list Client) q c0 c1 :
  h !! q = Some c0 -> same_session c0 c1 ->
  forall p c, h !! p = Some c ->
    exists c', <[q := c1]> h !! p = Some c' /\ ID c' = ID c /\ UserID c' = UserID c /\
               DeviceID c' = DeviceID c.
Proof.
  intros Hq (Hid & Hu & Hd & _) p c Hc. destruct (decide (p = q)) as [->|Hne].
  - exists c1. rewrite list_lookup_insert_eq by (by eapply lookup_lt_Some).
    assert (c = c0) as -> by congruence. done.
  - exists c. by rewrite list_lookup_insert_ne.
Qed.

(** A session without a user id is in no exact index, so its object may
    change in any way. *)
Lemma shard_exact_anonymous h s p c c' :
  shard_exact h s -> h !! p = Some c -> UserID c = "" ->
  shard_exact (<[p := c']> h) s.
Proof.
  intros Hex Hp Hanon u d q He.
  destruct (Hex u d q He) as (c0 & Hc0 & Hu & Hd & Hne & Hid).
  exists c0. split; [|done]. rewrite list_lookup_insert_ne; [done|].
  intros <-. congruence.
Qed.

Lemma shard_exact_add h s s' id p :
  shard_exact h s -> clients s !! id = None ->
  clients s' = <[id := p]> (clients s) -> userClients s' = userClients s ->
  shard_exact h s'.
Proof.
  intros Hex Hfree Hcl Huc u d q. rewrite Huc. intros He.
  destruct (Hex u d q He) as (c & Hc & Hu & Hd & Hne & Hid).
  exists c. rewrite Hcl. rewrite lookup_insert_ne; [done|]. congruence.
Qed.

Lemma shard_exact_register h s s' id p c u d :
  shard_exact h s -> h !! p = Some c -> ID c = id -> clients s !! id = Some p ->
  UserID c = "" -> u <> "" ->
  clients s' = clients s ->
  (forall u' d',
     entry (userClients s') u' d'
     = if bool_decide (u' = u /\ d' = d) then Some p
       else entry (userClients s) u' d') ->
  shard_exact (<[p := SetAuthenticated c u d]> h) s'.
Proof.
  intros Hex Hp Hid Hreg Hanon Hu Hcl Hent u' d' q. rewrite Hent, Hcl.
  assert (Hlt : (p < length h)%nat) by (by eapply lookup_lt_Some).
  case_bool_decide as Hk.
  - destruct Hk as [-> ->]. intros [= <-]. exists (SetAuthenticated c u d).
    rewrite list_lookup_insert_eq by done. simpl. by rewrite Hid.
  - by apply (shard_exact_anonymous h s p c).
Qed.

Lemma shard_exact_remove h s s' id p c :
  shard_exact h s -> clients s !! id = Some p -> h !! p = Some c ->
  clients s' = delete id (clients s) ->
  userClients s' = unindex (userClients s) c ->
  shard_exact h s'.
Proof.
  intros Hex Hid Hc Hcl Huc u d q. rewrite Huc. intros He.
  pose proof (entry_unindex _ _ _ _ _ He) as Hold.
  destruct (Hex u d q Hold) as (c' & Hc' & Hu & Hd & Hne & Hq).
  exists c'. rewrite Hcl. rewrite lookup_delete_ne; [done|]. intros Heq.
  rewrite <- Heq in Hq. assert (q = p) as -> by congruence.
  assert (c' = c) as -> by congruence. subst u d.
  by rewrite entry_unindex_own in He.
Qed.

Lemma CleanupInactive_index_exact h s now timeout s' removed :
  shard_exact h s ->
  CleanupInactive h s now timeout = Some (s', removed) ->
  shard_exact h s'.
Proof.
  intros Hex Hc.
  pose proof Hc as (Hrem & Hsub & Hkeep & Hidx & Hgone & Hsize)%CleanupInactive_spec.
  unfold CleanupInactive in Hc.
  destruct (foldl _ _ _) as [[[cl uc] rem]|] eqn:Hf; simpl in Hc; [|done].
  injection Hc as <- <-. simpl in *.
  intros u d q He. simpl in He. pose proof (Hidx _ _ _ He) as Hold.
  destruct (Hex u d q Hold) as (c & Hq & Hu & Hd & Hne & Hid). exists c.
  split; [done|]. split; [done|]. split; [done|]. split; [done|]. simpl.
  apply Hkeep; [done|]. intros Hin.
  rewrite Hrem in Hin. apply list_elem_of_fmap in Hin as ([id' q'] & Heq & Hin).
  simpl in Heq. subst id'.
  apply list_elem_of_filter in Hin as [Hstale Hin].
  pose proof Hin as Hin'. apply elem_of_map_to_list in Hin'.
  assert (q' = q) as -> by congruence.
  unfold is_stale in Hstale. simpl in Hstale. rewrite Hq in Hstale.
  apply bool_decide_eq_true in Hstale. subst u d.
  pose proof (sweep_fold_unindexed _ _ _ _ _ _ _ _ _ _ Hf (ID c, q) c Hin Hq Hstale Hne).
  congruence.
Qed.

End IndexFacts.

(** ** The manager between operations, continued *)

Module TidyFacts.

Import Client Shard Manager ShardFacts SweepFacts ClientFacts RegistryFacts.
Import ManagerFacts IndexFacts.

Section WithLimiters.

Context {IPL UL : Type} `{!KeyedLimiter IPL} `{!KeyedLimiter UL}.

Implicit Types (m : Manager IPL UL).

(** Every shard is tidy, and the counter is within the configured
    maximum (or zero, when that is negative). *)
Record manager_tidy m : Prop := {
  tidy_shards : forall i s, shards m !! i = Some s -> shard_tidy s;
  tidy_cap : globalConns m <= Z.max 0 (maxConns m)
}.

Lemma NewManager_tidy cfg : manager_tidy (NewManager (IPL := IPL) (UL := UL) cfg).
Proof.
  split; simpl; [|lia].
  intros i s Hs. apply list_lookup_fmap_Some in Hs as (k & -> & _).
  apply shard_tidy_NewShard.
Qed.

Lemma no_shards_tidy m : no_shards m -> manager_tidy m.
Proof.
  intros [Hs Hg]. split; [|lia]. intros i s. by rewrite Hs, lookup_nil.
Qed.

Lemma RegisterHandlers_tidy m : manager_tidy m -> manager_tidy (RegisterHandlers m).
Proof. intros [? ?]. by split. Qed.

Lemma shards_bound m i s :
  manager_ok m -> shards m !! i = Some s -> Z.of_nat (size (clients s)) < 2 ^ 63.
Proof.
  intros Hok Hs. pose proof (size_le_registered _ _ _ Hs).
  pose proof (ok_count m Hok). pose proof (ok_range m Hok). lia.
Qed.

Lemma AddConnection_tidy m now id ip m' r :
  manager_ok m -> manager_tidy m ->
  (forall s, shardAt m (getShardID m id) = Some s -> clients s !! id = None) ->
  AddConnection m now id ip = Some (m', r) ->
  manager_tidy m'.
Proof.
  intros Hok [Htidy Hcap] Hfresh.
  pose proof Hok as [Hmask Hlen Hmax Hcount Hrange Hreg].
  unfold AddConnection. case_bool_decide as Hfull.
  { intros [= <- <-]. by split. }
  destruct (Allow (ipLimiter m) ip now) as [ok ipl]. destruct ok; simpl.
  2:{ intros [= <- <-]. by split. }
  destruct (shardAt_is_Some m id Hok) as [shard Hs]. rewrite Hs. simpl.
  specialize (Hfresh shard Hs). unfold shardAt in Hs.
  set (c := NewClient id ip (getShardID m id) now).
  assert (Hc : (heap m ++ [c]) !! length (heap m) = Some c)
    by (by apply list_lookup_middle).
  assert (Hg : globalConns m + 1 < 2 ^ 63) by (unfold Int.in_int64 in Hmax; lia).
  destruct (AddClient_tidy (heap m ++ [c]) shard (length (heap m)) c)
    as (s' & -> & Hs' & _); [by eapply Htidy|done|done|..].
  { pose proof (size_le_registered _ _ _ Hs). lia. }
  simpl. intros [= <- <-]. split; simpl.
  - intros j t Ht. destruct (decide (j = Z.to_nat (getShardID m id))) as [->|Hne].
    + rewrite list_lookup_insert_eq in Ht by (by eapply lookup_lt_Some).
      by injection Ht as <-.
    + rewrite list_lookup_insert_ne in Ht by done. by eapply Htidy.
  - rewrite IntFacts.wrap64_id; [lia|]. unfold Int.in_int64.
    pose proof (registered_nonneg (shards m)). lia.
Qed.

Lemma AuthenticateClient_tidy m now id u d m' e :
  manager_ok m -> manager_tidy m ->
  AuthenticateClient m now id u d = Some (m', e) ->
  manager_tidy m'.
Proof.
  intros Hok [Htidy Hcap]. pose proof Hok as [Hmask Hlen Hmax Hcount Hrange Hreg].
  unfold AuthenticateClient.
  destruct (shardAt_is_Some m id Hok) as [shard Hs]. rewrite Hs. simpl.
  unfold Shard.GetClient. unfold shardAt in Hs.
  destruct (clients shard !! id) as [p|] eqn:Hid.
  2:{ intros [= <- <-]. by split. }
  destruct (Allow (userLimiter m) u now) as [ok ul]. destruct ok; simpl.
  2:{ intros [= <- <-]. by split. }
  destruct (reg_primary _ _ _ Hreg _ _ _ _ Hs Hid) as (c & Hc & Hidc & _).
  destruct (RegisterAuthenticatedClient_tidy (heap m) shard p c u d)
    as (s' & -> & Hs'); [by eapply Htidy|done|].
  simpl. intros [= <- <-]. split; simpl; [|done].
  intros j t Ht. destruct (decide (j = Z.to_nat (getShardID m id))) as [->|Hne].
  - rewrite list_lookup_insert_eq in Ht by (by eapply lookup_lt_Some).
    by injection Ht as <-.
  - rewrite list_lookup_insert_ne in Ht by done. by eapply Htidy.
Qed.

Lemma RemoveClient_tidy m id reason m' :
  manager_ok m -> manager_tidy m ->
  RemoveClient m id reason = Some m' ->
  manager_tidy m'.
Proof.
  intros Hok [Htidy Hcap]. pose proof Hok as [Hmask Hlen Hmax Hcount Hrange Hreg].
  intros Hrm.
  destruct (RemoveClient_ok m id reason m' Hok Hrm) as [_ Hg].
  revert Hrm. unfold RemoveClient.
  destruct (shardAt_is_Some m id Hok) as [shard Hs]. rewrite Hs. simpl.
  unfold shardAt in Hs.
  destruct (clients shard !! id) as [p|] eqn:Hid.
  2:{ unfold Shard.RemoveClient. rewrite Hid. simpl. intros [= <-]. by split. }
  destruct (Shard_RemoveClient_tidy _ _ _ _ _ id p Hreg Hs)
    as (c & s' & Hc & -> & Hs'); [by eapply Htidy|by eapply shards_bound|done|].
  simpl. rewrite Hc. simpl. intros [= <-]. split.
  - simpl. intros j t Ht.
    destruct (decide (j = Z.to_nat (getShardID m id))) as [->|Hne].
    + rewrite list_lookup_insert_eq in Ht by (by eapply lookup_lt_Some).
      by injection Ht as <-.
    + rewrite list_lookup_insert_ne in Ht by done. by eapply Htidy.
  - simpl in *. destruct (is_registered m id); lia.
Qed.

(** Each shard of the swept array is what [CleanupInactive] makes of
    the shard in its place. *)
Lemma sweep_shards_each h now timeout hook l :
  forall swept ge swept' ge',
    foldl (sweep_shard h now timeout hook) (Some (swept, ge)) l
    = Some (swept', ge') ->
    exists rest,
      swept' = swept ++ rest /\
      Forall2 (fun s s' => exists removed,
                 CleanupInactive h s now timeout = Some (s', removed)) l rest.
Proof.
  induction l as [|s l IH]; intros swept ge swept' ge'.
  - simpl. intros [= <- <-]. exists []. by rewrite app_nil_r.
  - simpl.
    destruct (CleanupInactive h s now timeout) as [[s' removed]|] eqn:Hc; simpl;
      [|by rewrite sweep_shards_None].
    intros Hf. apply IH in Hf as (rest & -> & Hall).
    exists (s' :: rest). split; [by rewrite <- app_assoc|].
    constructor; [by exists removed|done].
Qed.

Lemma sweep_tidy m now m' :
  manager_ok m -> manager_tidy m ->
  cleanupInactiveConnections m now = Some m' ->
  manager_tidy m'.
Proof.
  intros Hok [Htidy Hcap] Hcl.
  destruct (sweep_ok m now m' Hok Hcl) as [Hok' Hg].
  pose proof (ok_count m Hok) as Hcount. pose proof (ok_count m' Hok') as Hcount'.
  pose proof (ok_registry m Hok) as Hreg.
  assert (Hmax : maxConns m' = maxConns m /\ heap m' = heap m /\
                 exists rest, shards m' = rest /\
                   Forall2 (fun s s' => exists removed,
                     CleanupInactive (heap m) s now (Int.wrap64 (pongWait m * 2))
                     = Some (s', removed)) (shards m) rest).
  { revert Hcl. unfold cleanupInactiveConnections.
    destruct (foldl _ _ _) as [[ss ge]|] eqn:Hf; simpl; [|done].
    intros [= <-]. simpl. split; [done|]. split; [done|].
    apply sweep_shards_each in Hf as (rest & -> & Hall). by exists rest. }
  destruct Hmax as (Hmax & Hheap & rest & <- & Hall). split.
  - intros j t Ht.
    destruct (Forall2_lookup_r _ _ _ _ _ Hall Ht) as (s & Hs & removed & Hc).
    eapply CleanupInactive_tidy;
      [by eapply Htidy|apply (shards_bound m j s Hok Hs)|done].
  - rewrite Hmax.
    assert (registered (shards m') <= registered (shards m)); [|lia].
    rewrite <- Hcount, <- Hcount'.
    revert Hcl. unfold cleanupInactiveConnections.
    destruct (foldl _ _ _) as [[ss [g ev]]|] eqn:Hf; simpl; [|done].
    intros [= <-]. simpl.
    apply sweep_shards_spec in Hf as (rest & -> & _ & _ & Hle & Hgg).
    rewrite Hgg by (pose proof (ok_range m Hok); lia).
    simpl in Hle. lia.
Qed.

Lemma set_heap_tidy m p c c' :
  manager_tidy m -> heap m !! p = Some c -> same_session c c' ->
  manager_tidy (set_heap m (<[p := c']> (heap m))).
Proof.
  intros [Htidy Hcap] Hc _. by split.
Qed.

Lemma step_tidy m m' : manager_ok m -> manager_tidy m -> step m m' -> manager_tidy m'.
Proof.
  intros Hok Htidy Hstep. destruct Hstep.
  - by apply RegisterHandlers_tidy.
  - eapply AddConnection_tidy; [done|done| |done].
    intros s Hs. by eapply is_registered_false.
  - by eapply AuthenticateClient_tidy.
  - by eapply RemoveClient_tidy.
  - by eapply sweep_tidy.
  - by eapply set_heap_tidy.
Qed.

(** Every reachable manager is tidy. *)
Lemma reachable_tidy cfg m : reachable cfg m -> manager_tidy m.
Proof.
  intros Hr.
  assert (Hboth : (manager_ok m /\ manager_tidy m) \/ no_shards m).
  { unfold reachable in Hr. revert m Hr.
    apply (rtc_ind_r (fun m => (manager_ok m /\ manager_tidy m) \/ no_shards m)
             (NewManager cfg)).
    - destruct (NewManager_inv (IPL := IPL) (UL := UL) cfg) as [Hok|Hno];
        [left|by right].
      split; [done|apply NewManager_tidy].
    - intros m1 m2 _ Hstep [[Hok Htidy]|Hno].
      + left. split; [by eapply step_ok|by eapply step_tidy].
      + right. by eapply step_no_shards. }
  destruct Hboth as [[_ ?]|Hno]; [done|by apply no_shards_tidy].
Qed.

(** The shard count [NewManager] rounds: the configured one as a
    uint32, or 64 when that is zero. *)
Definition requested (cfg : Config.Config) : Z :=
  if bool_decide (Int.wrap32 (Config.ShardCount cfg) = 0) then 64
  else Int.wrap32 (Config.ShardCount cfg).

Lemma requested_range cfg : 1 <= requested cfg < 2 ^ 32.
Proof.
  unfold requested. pose proof (IntFacts.wrap32_range (Config.ShardCount cfg)).
  case_bool_decide; lia.
Qed.

Lemma NewManager_shardCount cfg :
  shardCount (NewManager (IPL := IPL) (UL := UL) cfg)
  = Hash.nextPowerOfTwo (requested cfg).
Proof. reflexivity. Qed.

Lemma NewManager_shardMask cfg :
  shardMask (NewManager (IPL := IPL) (UL := UL) cfg)
  = Int.wrap32 (Hash.nextPowerOfTwo (requested cfg) - 1).
Proof. reflexivity. Qed.

Lemma NewManager_shards cfg :
  shards (NewManager (IPL := IPL) (UL := UL) cfg)
  = NewShard <$> seqZ 0 (Hash.nextPowerOfTwo (requested cfg)).
Proof. reflexivity. Qed.

Lemma NewManager_maxConns cfg :
  maxConns (NewManager (IPL := IPL) (UL := UL) cfg)
  = Int.wrap64 (Config.GlobalConnections cfg).
Proof. reflexivity. Qed.

(** The fields that no operation writes. *)
Definition same_setup m m' : Prop :=
  shardCount m' = shardCount m /\ shardMask m' = shardMask m /\
  maxConns m' = maxConns m /\ pongWait m' = pongWait m.

Lemma step_setup m m' : step m m' -> same_setup m m'.
Proof.
  intros Hstep. destruct Hstep as [m|m now id ip m' r _ Hadd|m now id u d m' e Hau
                                  |m id reason m' Hrm|m now m' Hcl|m p c c' _ _ _].
  - done.
  - revert Hadd. unfold AddConnection.
    case_bool_decide; [by intros [= <- <-]|].
    destruct (Allow (ipLimiter m) ip now) as [ok ipl]. destruct ok; simpl.
    + destruct (shardAt m (getShardID m id)) as [s|]; simpl; [|done].
      destruct (AddClient _ _ _); simpl; [|done]. by intros [= <- <-].
    + by intros [= <- <-].
  - revert Hau. unfold AuthenticateClient.
    destruct (shardAt m (getShardID m id)) as [s|]; simpl; [|done].
    destruct (Shard.GetClient s id); [|by intros [= <- <-]].
    destruct (Allow (userLimiter m) u now) as [ok ul]. destruct ok; simpl.
    + destruct (RegisterAuthenticatedClient _ _ _ _ _) as [[h s']|]; simpl; [|done].
      by intros [= <- <-].
    + by intros [= <- <-].
  - revert Hrm. unfold RemoveClient.
    destruct (shardAt m (getShardID m id)) as [s|]; simpl; [|done].
    destruct (Shard.RemoveClient _ _ _) as [[s' [p|]]|]; simpl; [| |done].
    + destruct (heap m !! p); simpl; [|done]. by intros [= <-].
    + by intros [= <-].
  - revert Hcl. unfold cleanupInactiveConnections.
    destruct (foldl _ _ _) as [[ss ge]|]; simpl; [|done]. by intros [= <-].
  - done.
Qed.

Lemma reachable_setup cfg m : reachable cfg m -> same_setup (NewManager cfg) m.
Proof.
  intros Hr. unfold reachable in Hr. revert m Hr.
  apply (rtc_ind_r (fun m => same_setup (NewManager cfg) m) (NewManager cfg)).
  - done.
  - intros m1 m2 _ Hstep (H1 & H2 & H3 & H4).
    destruct (step_setup _ _ Hstep) as (G1 & G2 & G3 & G4).
    unfold same_setup. by rewrite G1, G2, G3, G4.
Qed.

End WithLimiters.

End TidyFacts.

(** ** Runs in which no session is authenticated twice

    The gateway's own caller authenticates a session once, with the
    user id of a validated token.  [AuthenticateClient] does not
    enforce that; the runs below are the ones that keep to it, and in
    them the user index is exact. *)

Module OnceFacts.

Import Client Shard Manager ShardFacts SweepFacts ClientFacts RegistryFacts.
Import ManagerFacts IndexFacts TidyFacts.

Section WithLimiters.

Context {IPL UL : Type} `{!KeyedLimiter IPL} `{!KeyedLimiter UL}.

Implicit Types (m : Manager IPL UL).

(** The steps of [step], with [AuthenticateClient] restricted to a
    session that is not authenticated yet and to a user id that is not
    empty. *)
Inductive step_once : Manager IPL UL -> Manager IPL UL -> Prop :=
| once_handlers m :
    step_once m (RegisterHandlers m)
| once_add m now id ip m' r :
    is_registered m id = false ->
    AddConnection m now id ip = Some (m', r) ->
    step_once m m'
| once_auth m now id u d m' e :
    u <> "" ->
    (forall s p c,
       shardAt m (getShardID m id) = Some s -> clients s !! id = Some p ->
       heap m !! p = Some c -> authenticated c = false) ->
    AuthenticateClient m now id u d = Some (m', e) ->
    step_once m m'
| once_remove m id reason m' :
    RemoveClient m id reason = Some m' ->
    step_once m m'
| once_cleanup m now m' :
    cleanupInactiveConnections m now = Some m' ->
    step_once m m'
| once_session m p c c' :
    heap m !! p = Some c -> same_session c c' -> client_ok c' ->
    step_once m (set_heap m (<[p := c']> (heap m))).

Definition reachable_once (cfg : Config.Config) m : Prop :=
  rtc step_once (NewManager cfg) m.

Lemma step_once_step m m' : step_once m m' -> step m m'.
Proof.
  intros Hstep. destruct Hstep.
  - apply step_handlers.
  - by eapply step_add.
  - by eapply step_auth.
  - by eapply step_remove.
  - by eapply step_cleanup.
  - by eapply step_session.
Qed.

Lemma reachable_once_reachable cfg m : reachable_once cfg m -> reachable cfg m.
Proof.
  unfold reachable_once, reachable. induction 1 as [|m1 m2 m3 Hstep _ IH].
  - apply rtc_refl.
  - eapply rtc_l; [by apply step_once_step|done].
Qed.

(** Every index entry is exact. *)
Definition index_exact m : Prop :=
  forall i s, shards m !! i = Some s -> shard_exact (heap m) s.

Lemma NewManager_exact cfg : index_exact (NewManager (IPL := IPL) (UL := UL) cfg).
Proof.
  intros i s Hs. rewrite NewManager_shards in Hs.
  apply list_lookup_fmap_Some in Hs as (k & -> & _).
  apply shard_exact_NewShard.
Qed.

Lemma AddConnection_exact m now id ip m' r :
  manager_ok m -> index_exact m ->
  (forall s, shardAt m (getShardID m id) = Some s -> clients s !! id = None) ->
  AddConnection m now id ip = Some (m', r) ->
  index_exact m'.
Proof.
  intros Hok Hex Hfresh.
  unfold AddConnection. case_bool_decide as Hfull.
  { by intros [= <- <-]. }
  destruct (Allow (ipLimiter m) ip now) as [ok ipl]. destruct ok; simpl.
  2:{ by intros [= <- <-]. }
  destruct (shardAt_is_Some m id Hok) as [shard Hs]. rewrite Hs. simpl.
  specialize (Hfresh shard Hs). unfold shardAt in Hs.
  unfold AddClient. rewrite list_lookup_middle by done. simpl.
  intros [= <- <-]. intros j t Ht. simpl in *.
  destruct (decide (j = Z.to_nat (getShardID m id))) as [->|Hne].
  - rewrite list_lookup_insert_eq in Ht by (by eapply lookup_lt_Some).
    injection Ht as <-.
    eapply (shard_exact_add _ shard _ id (length (heap m))); [|done|done|done].
    eapply shard_exact_heap; [apply heap_alloc_same|]. by eapply Hex.
  - rewrite list_lookup_insert_ne in Ht by done.
    eapply shard_exact_heap; [apply heap_alloc_same|]. by eapply Hex.
Qed.

Lemma AuthenticateClient_exact m now id u d m' e :
  manager_ok m -> index_exact m -> u <> "" ->
  (forall s p c, shardAt m (getShardID m id) = Some s -> clients s !! id = Some p ->
                 heap m !! p = Some c -> authenticated c = false) ->
  AuthenticateClient m now id u d = Some (m', e) ->
  index_exact m'.
Proof.
  intros Hok Hex Hu Hnew. pose proof (ok_registry m Hok) as Hreg.
  unfold AuthenticateClient.
  destruct (shardAt m (getShardID m id)) as [shard|] eqn:Hs; simpl; [|done].
  unfold Shard.GetClient. destruct (clients shard !! id) as [p|] eqn:Hp.
  2:{ by intros [= <- <-]. }
  destruct (Allow (userLimiter m) u now) as [ok ul]. destruct ok; simpl.
  2:{ by intros [= <- <-]. }
  destruct (reg_primary _ _ _ Hreg _ _ _ _ Hs Hp) as (c & Hc & Hid & Hsh).
  assert (Hanon : UserID c = "").
  { eapply (reg_anon _ _ _ Hreg); [done|]. by apply (Hnew shard p c). }
  unfold shardAt in Hs.
  destruct (RegisterAuthenticatedClient_spec (heap m) shard p u d c Hc)
    as (s' & -> & Hcl & Hst & Hsid & Hent). simpl.
  intros [= <- <-]. intros j t Ht. simpl in *.
  destruct (decide (j = Z.to_nat (getShardID m id))) as [->|Hne].
  - rewrite list_lookup_insert_eq in Ht by (by eapply lookup_lt_Some).
    injection Ht as <-.
    eapply (shard_exact_register _ shard _ id); try done. by eapply Hex.
  - rewrite list_lookup_insert_ne in Ht by done.
    eapply shard_exact_anonymous; [by eapply Hex|done|done].
Qed.

Lemma RemoveClient_exact m id reason m' :
  manager_ok m -> index_exact m ->
  RemoveClient m id reason = Some m' ->
  index_exact m'.
Proof.
  intros Hok Hex.
  destruct (shardAt_is_Some m id Hok) as [s Hs].
  destruct (clients s !! id) as [p|] eqn:Hid.
  2:{ rewrite (RemoveClient_absent m id reason s Hs Hid). by intros [= <-]. }
  destruct (RemoveClient_present m id reason s p Hok Hs Hid)
    as (c & s' & Hc & Hidc & Hcl & Huc & ->).
  intros [= <-]. intros j t Ht. simpl in *. unfold shardAt in Hs.
  eapply shard_exact_heap;
    [apply (heap_touch_same _ p c); [done|apply Close_same_session]|].
  destruct (decide (j = Z.to_nat (getShardID m id))) as [->|Hne].
  - rewrite list_lookup_insert_eq in Ht by (by eapply lookup_lt_Some).
    injection Ht as <-.
    eapply (shard_exact_remove _ s _ id p c); try done. by eapply Hex.
  - rewrite list_lookup_insert_ne in Ht by done. by eapply Hex.
Qed.

Lemma sweep_exact m now m' :
  index_exact m -> cleanupInactiveConnections m now = Some m' -> index_exact m'.
Proof.
  intros Hex. unfold cleanupInactiveConnections.
  destruct (foldl _ _ _) as [[ss ge]|] eqn:Hf; simpl; [|done].
  intros [= <-]. apply sweep_shards_each in Hf as (rest & -> & Hall).
  intros j t Ht. simpl in *.
  destruct (Forall2_lookup_r _ _ _ _ _ Hall Ht) as (s & Hs & removed & Hc).
  eapply CleanupInactive_index_exact; [by eapply Hex|done].
Qed.

Lemma set_heap_exact m p c c' :
  index_exact m -> heap m !! p = Some c -> same_session c c' ->
  index_exact (set_heap m (<[p := c']> (heap m))).
Proof.
  intros Hex Hc Hsame j t Ht. simpl in *.
  eapply shard_exact_heap; [by apply (heap_touch_same _ p c)|]. by eapply Hex.
Qed.

Lemma step_once_exact m m' :
  manager_ok m -> index_exact m -> step_once m m' -> index_exact m'.
Proof.
  intros Hok Hex Hstep. destruct Hstep.
  - done.
  - eapply AddConnection_exact; [done|done| |done].
    intros s Hs. by eapply is_registered_false.
  - by eapply AuthenticateClient_exact.
  - by eapply RemoveClient_exact.
  - by eapply sweep_exact.
  - by eapply set_heap_exact.
Qed.

(** In a run that authenticates no session twice the index is exact. *)
Lemma reachable_once_exact cfg m : reachable_once cfg m -> index_exact m.
Proof.
  intros Hr.
  assert (Hboth : (manager_ok m /\ index_exact m) \/ no_shards m).
  { unfold reachable_once in Hr. revert m Hr.
    apply (rtc_ind_r (fun m => (manager_ok m /\ index_exact m) \/ no_shards m)
             (NewManager cfg)).
    - destruct (NewManager_inv (IPL := IPL) (UL := UL) cfg) as [Hok|Hno];
        [left|by right].
      split; [done|apply NewManager_exact].
    - intros m1 m2 _ Hstep [[Hok Hex]|Hno].
      + left. split; [eapply step_ok; [done|by apply step_once_step]
                     |by eapply step_once_exact].
      + right. eapply step_no_shards; [done|by apply step_once_step]. }
  destruct Hboth as [[_ ?]|[Hno _]]; [done|].
  intros i s. by rewrite Hno, lookup_nil.
Qed.

End WithLimiters.

End OnceFacts.

(** ** What every reachable manager guarantees *)

Module RegistryProps.

Import Client Shard Manager ShardFacts SweepFacts ClientFacts RegistryFacts.
Import ManagerFacts IndexFacts TidyFacts OnceFacts.

Lemma elem_of_concat {A} (ls : list (list A)) (x : A) :
  x ∈ concat ls <-> exists i l, ls !! i = Some l /\ x ∈ l.
Proof.
  induction ls as [|l ls IH]; simpl.
  - split; [by intros ?%elem_of_nil|]. by intros (i & l & ? & _).
  - rewrite elem_of_app, IH. split.
    + intros [Hx|(i & l' & Hl & Hx)]; [by exists 0%nat, l|by exists (S i), l'].
    + intros ([|i] & l' & Hl & Hx); simpl in Hl; [left; congruence|right; by eauto].
Qed.

Lemma NoDup_concat {A} (ls : list (list A)) :
  (forall i l, ls !! i = Some l -> NoDup l) ->
  (forall i j l l' x, ls !! i = Some l -> ls !! j = Some l' ->
                      x ∈ l -> x ∈ l' -> i = j) ->
  NoDup (concat ls).
Proof.
  induction ls as [|l ls IH]; intros Hnd Hdis; simpl; [constructor|].
  apply NoDup_app. split; [by apply (Hnd 0%nat)|]. split.
  - intros x Hx (j & l' & Hl' & Hx')%elem_of_concat.
    by specialize (Hdis 0%nat (S j) l l' x eq_refl Hl' Hx Hx').
  - apply IH.
    + intros i l' Hl'. by apply (Hnd (S i)).
    + intros i j l1 l2 x H1 H2 Hx1 Hx2.
      by specialize (Hdis (S i) (S j) l1 l2 x H1 H2 Hx1 Hx2) as [= ->].
Qed.

Lemma elem_of_shard_GetUserClients (s : Shard) (u : string) (p : nat) :
  p ∈ Shard.GetUserClients s u <-> exists d, entry (userClients s) u d = Some p.
Proof.
  unfold Shard.GetUserClients, entry.
  destruct (userClients s !! u) as [devices|]; simpl.
  - rewrite list_elem_of_fmap. split.
    + intros ([d q] & -> & He). exists d. by apply elem_of_map_to_list in He.
    + intros (d & Hd). exists (d, p). split; [done|]. by apply elem_of_map_to_list.
  - split; [by intros ?%elem_of_nil|]. by intros (d & ?).
Qed.

Section WithLimiters.

Context {IPL UL : Type} `{!KeyedLimiter IPL} `{!KeyedLimiter UL}.

Implicit Types (m : Manager IPL UL).

Lemma elem_of_GetUserClients m u p :
  p ∈ GetUserClients m u <->
  exists i s d, shards m !! i = Some s /\ entry (userClients s) u d = Some p.
Proof.
  unfold GetUserClients. rewrite elem_of_concat. split.
  - intros (i & l & Hl & Hp).
    apply list_lookup_fmap_Some in Hl as (s & -> & Hs).
    apply elem_of_shard_GetUserClients in Hp as (d & Hd). by exists i, s, d.
  - intros (i & s & d & Hs & Hd). exists i, (Shard.GetUserClients s u).
    split; [by rewrite list_lookup_fmap, Hs|].
    apply elem_of_shard_GetUserClients. by exists d.
Qed.

Lemma reachable_ok_of_count cfg m :
  1 <= shardCount (NewManager (IPL := IPL) (UL := UL) cfg) ->
  reachable cfg m -> manager_ok m.
Proof.
  intros Hc Hr. unfold reachable in Hr. revert m Hr.
  apply (rtc_ind_r (fun m => manager_ok m) (NewManager cfg)).
  - by apply NewManager_ok_of_count.
  - intros m1 m2 _ Hstep Hok. by eapply step_ok.
Qed.

Lemma reachable_no_shards cfg m :
  shardCount (NewManager (IPL := IPL) (UL := UL) cfg) = 0 ->
  reachable cfg m -> no_shards m.
Proof.
  intros Hc Hr. unfold reachable in Hr. revert m Hr.
  apply (rtc_ind_r (fun m => no_shards m) (NewManager cfg)).
  - split; [|done]. rewrite NewManager_shards.
    rewrite NewManager_shardCount in Hc. by rewrite Hc.
  - intros m1 m2 _ Hstep Hno. by eapply step_no_shards.
Qed.

(** X13: with a configured shard count of at most 2^31 (zero means 64),
    every reachable manager has as many shards as the least power of
    two that is not below the configured count, and [getShardID] is the
    FNV-1a hash of the key modulo that number: the mask is a remainder,
    and the shard it selects exists. *)
Theorem getShardID_is_remainder (cfg : Config.Config) m (key : string) :
  reachable cfg m -> requested cfg <= 2 ^ 31 ->
  shardCount m = 2 ^ Z.log2_up (requested cfg) /\
  Z.of_nat (length (shards m)) = shardCount m /\
  getShardID m key = Hash.fnv32a key mod shardCount m /\
  is_Some (shardAt m (getShardID m key)).
Proof.
  intros Hr Hreq. pose proof (requested_range cfg) as Hrange.
  destruct (reachable_setup cfg m Hr) as (Hcount & Hmask & _ & _).
  assert (Hnew : Hash.nextPowerOfTwo (requested cfg) = 2 ^ Z.log2_up (requested cfg))
    by (apply RoundingProps.nextPowerOfTwo_log2_up; lia).
  pose proof (Z.log2_up_nonneg (requested cfg)) as Hk.
  assert (Hk31 : Z.log2_up (requested cfg) <= 31)
    by (apply Z.log2_up_le_pow2; lia).
  assert (Hpow : 1 <= 2 ^ Z.log2_up (requested cfg) <= 2 ^ 31).
  { split; [|apply Z.pow_le_mono_r; lia].
    assert (0 < 2 ^ Z.log2_up (requested cfg)) by (apply Z.pow_pos_nonneg; lia). lia. }
  assert (Hok : manager_ok m).
  { apply (reachable_ok_of_count cfg); [|done].
    rewrite NewManager_shardCount, Hnew. lia. }
  assert (Hm : shardMask m = Z.ones (Z.log2_up (requested cfg))).
  { rewrite Hmask, NewManager_shardMask, Hnew, Z.ones_equiv. unfold Z.pred.
    apply IntFacts.wrap32_id. lia. }
  rewrite Hcount, NewManager_shardCount, Hnew. split; [done|]. split; [|split].
  - rewrite (ok_shards m Hok), Hm, Z.ones_equiv. lia.
  - unfold getShardID. rewrite Hm. by apply Z.land_ones.
  - by apply shardAt_is_Some.
Qed.

(** X14: a configured shard count above 2^31 rounds to zero shards.
    Every reachable manager then has an empty shard array, and each
    operation that selects a shard panics on the index: [AddConnection]
    as soon as the global limit and the address limiter let the
    connection through, [GetClient], [SendToClient] and [RemoveClient]
    always.  Nothing is ever registered. *)
Theorem oversized_shard_count_panics (cfg : Config.Config) m
    (now : Z) (id ip message reason : string) :
  reachable cfg m -> 2 ^ 31 < Int.wrap32 (Config.ShardCount cfg) ->
  shards m = [] /\ globalConns m = 0 /\
  (globalConns m < maxConns m -> (Allow (ipLimiter m) ip now).1 = true ->
   AddConnection m now id ip = None) /\
  GetClient m id = None /\ SendToClient m id message = None /\
  RemoveClient m id reason = None /\ GetUserClients m id = [].
Proof.
  intros Hr Hbig.
  assert (Hno : no_shards m).
  { apply (reachable_no_shards cfg); [|done].
    rewrite NewManager_shardCount. unfold requested.
    pose proof (IntFacts.wrap32_range (Config.ShardCount cfg)).
    rewrite bool_decide_eq_false_2 by lia.
    apply RoundingProps.nextPowerOfTwo_wraps. lia. }
  pose proof Hno as [Hs Hg]. split; [done|]. split; [done|].
  split; [|split; [|split; [|split]]].
  - intros Hroom Hallow. unfold AddConnection.
    rewrite bool_decide_eq_false_2 by lia.
    destruct (Allow (ipLimiter m) ip now) as [ok ipl]. simpl in Hallow. subst ok.
    simpl. by rewrite shardAt_no_shards.
  - unfold GetClient. by rewrite shardAt_no_shards.
  - unfold SendToClient. by rewrite shardAt_no_shards.
  - unfold RemoveClient. by rewrite shardAt_no_shards.
  - unfold GetUserClients. by rewrite Hs.
Qed.

(** X15: the number of registered sessions never exceeds the configured
    global maximum: in every reachable manager the counter lies between
    zero and the maximum, and at the maximum [AddConnection] refuses
    without asking the address limiter and leaves the manager as it
    is. *)
Theorem global_limit_holds (cfg : Config.Config) m (now : Z) (id ip : string) :
  reachable cfg m ->
  maxConns m = Int.wrap64 (Config.GlobalConnections cfg) /\
  0 <= globalConns m <= Z.max 0 (maxConns m) /\
  (maxConns m <= globalConns m ->
   AddConnection m now id ip = Some (m, inr "global connection limit reached")).
Proof.
  intros Hr. destruct (reachable_setup cfg m Hr) as (_ & _ & Hmax & _).
  split; [by rewrite Hmax, NewManager_maxConns|]. split.
  - split; [|apply (tidy_cap m (reachable_tidy cfg m Hr))].
    destruct (reachable_inv cfg m Hr) as [Hok|[_ Hg]]; [|lia].
    rewrite (ok_count m Hok). apply registered_nonneg.
  - intros Hfull. unfold AddConnection. by rewrite bool_decide_eq_true_2.
Qed.

(** X16: in a run in which [AuthenticateClient] is called only on
    sessions that are not authenticated yet, and with a user id that is
    not empty (a discipline of the caller: the function itself refuses
    neither), the user index never points at a session that has left
    the registry: every session [GetUserClients] returns for a user
    exists, is authenticated under that user, and is the session that
    [GetClient] finds under its id. *)
Theorem user_index_is_live (cfg : Config.Config) m (u : string) (p : nat) :
  reachable_once cfg m -> p ∈ GetUserClients m u ->
  exists c,
    heap m !! p = Some c /\ UserID c = u /\ u <> "" /\
    authenticated c = true /\ GetClient m (ID c) = Some (Some p).
Proof.
  intros Hro (i & s & d & Hs & He)%elem_of_GetUserClients.
  pose proof (reachable_once_reachable cfg m Hro) as Hr.
  destruct (reachable_inv cfg m Hr) as [Hok|[Hno _]];
    [|by rewrite Hno, lookup_nil in Hs].
  pose proof (ok_registry m Hok) as Hreg.
  destruct (reachable_once_exact cfg m Hro i s Hs u d p He)
    as (c & Hc & Hu & Hd & Hne & Hid).
  destruct (reg_primary _ _ _ Hreg _ _ _ _ Hs Hid) as (c' & _ & _ & Hsh).
  exists c. split; [done|]. split; [done|]. split; [done|]. split.
  - destruct (authenticated c) eqn:Ha; [done|].
    pose proof (reg_anon _ _ _ Hreg p c Hc Ha). congruence.
  - unfold GetClient, shardAt, getShardID. unfold shard_of in Hsh.
    rewrite Hsh, Nat2Z.id, Hs. simpl. unfold Shard.GetClient. by rewrite Hid.
Qed.

Lemma GetUserClients_NoDup (cfg : Config.Config) m (u : string) :
  reachable_once cfg m -> NoDup (GetUserClients m u).
Proof.
  intros Hro. pose proof (reachable_once_reachable cfg m Hro) as Hr.
  pose proof (reachable_once_exact cfg m Hro) as Hex.
  destruct (reachable_inv cfg m Hr) as [Hok|[Hno _]];
    [|unfold GetUserClients; rewrite Hno; constructor].
  pose proof (ok_registry m Hok) as Hreg.
  unfold GetUserClients. apply NoDup_concat.
  - intros i l Hl. apply list_lookup_fmap_Some in Hl as (s & -> & Hs).
    unfold Shard.GetUserClients.
    destruct (userClients s !! u) as [devices|] eqn:Hu; [|constructor].
    apply NoDup_fmap_2_strong; [|apply NoDup_map_to_list].
    intros [d1 p1] [d2 p2] H1 H2 Heq. simpl in Heq. subst p2.
    apply elem_of_map_to_list in H1, H2.
    assert (E1 : entry (userClients s) u d1 = Some p1)
      by (apply entry_Some; by exists devices).
    assert (E2 : entry (userClients s) u d2 = Some p1)
      by (apply entry_Some; by exists devices).
    destruct (Hex i s Hs _ _ _ E1) as (c1 & Hc1 & _ & Hd1 & _).
    destruct (Hex i s Hs _ _ _ E2) as (c2 & Hc2 & _ & Hd2 & _).
    f_equal. congruence.
  - intros i j l l' p Hl Hl' Hp Hp'.
    apply list_lookup_fmap_Some in Hl as (s & -> & Hs).
    apply list_lookup_fmap_Some in Hl' as (s' & -> & Hs').
    apply elem_of_shard_GetUserClients in Hp as (d & He).
    apply elem_of_shard_GetUserClients in Hp' as (d' & He').
    destruct (reg_index _ _ _ Hreg _ _ _ _ _ Hs He) as (c1 & Hc1 & _ & Hi).
    destruct (reg_index _ _ _ Hreg _ _ _ _ _ Hs' He') as (c2 & Hc2 & _ & Hj).
    assert (c2 = c1) as -> by congruence. lia.
Qed.

(** X17: in a run in which [AuthenticateClient] is called only on
    sessions that are not authenticated yet, and with a user id that is
    not empty, [GetUserClients] returns no session twice, although it
    joins the lists of all shards and of all devices.  (A session
    authenticated again under another device is listed twice.) *)
Theorem user_sessions_distinct (cfg : Config.Config) m (u : string) :
  reachable_once cfg m ->
  NoDup (GetUserClients m u) /\
  forall i s, shards m !! i = Some s -> NoDup (Shard.GetUserClients s u).
Proof.
  intros Hr. pose proof (GetUserClients_NoDup cfg m u Hr) as Hnd.
  split; [done|]. intros i s Hs. revert Hnd. unfold GetUserClients.
  apply take_drop_middle in Hs. rewrite <- Hs, fmap_app, fmap_cons.
  rewrite concat_app. simpl.
  by intros (_ & _ & (? & _)%NoDup_app)%NoDup_app.
Qed.

(** X18: a shard keeps no empty device map: a user has a key in the
    index of a shard exactly while [GetUserClients] of that shard
    returns a session for the user. *)
Theorem user_key_has_session (cfg : Config.Config) m (i : nat) (s : Shard)
    (u : string) :
  reachable cfg m -> shards m !! i = Some s ->
  (userClients s !! u = None <-> Shard.GetUserClients s u = []).
Proof.
  intros Hr Hs.
  pose proof (tidy_devices _ (tidy_shards m (reachable_tidy cfg m Hr) i s Hs)) as Hdev.
  unfold Shard.GetUserClients.
  destruct (userClients s !! u) as [devices|] eqn:Hu; [|done].
  split; [done|]. intros Hnil. exfalso. apply (Hdev u devices Hu).
  apply fmap_nil_inv in Hnil. by apply map_to_list_empty_iff.
Qed.

(** X19: the count of active connections a shard stores is the size of
    its primary map, so that the recount in [GetStats] changes
    nothing: [GetStats] returns the stored statistics. *)
Theorem GetStats_is_stored (cfg : Config.Config) m (i : nat) (s : Shard) :
  reachable cfg m -> shards m !! i = Some s ->
  Shard.GetStats s = stats s /\
  ActiveConnections (stats s) = Z.of_nat (size (clients s)).
Proof.
  intros Hr Hs.
  pose proof (tidy_count _ (tidy_shards m (reachable_tidy cfg m Hr) i s Hs)) as Hc.
  split; [|done]. unfold Shard.GetStats. rewrite <- Hc. by destruct (stats s).
Qed.

End WithLimiters.

End RegistryProps.

(** ** Delivery to one session, and the teardown of a session *)

Module TeardownProps.

Import Client Shard Manager ShardFacts SweepFacts ClientFacts RegistryFacts.
Import ManagerFacts IndexFacts TidyFacts OnceFacts RegistryProps.

Section WithLimiters.

Context {IPL UL : Type} `{!KeyedLimiter IPL} `{!KeyedLimiter UL}.

Implicit Types (m : Manager IPL UL).



(** X21: the teardown that [ReadPump] defers, [handleDisconnect] and
    then [cleanup].  For a session that is still registered it removes
    the session, takes one off the counter, closes it with the reason
    client_disconnected and calls the disconnect hook once.  For a
    session whose id is no longer registered, as after the sweep took
    it, it only closes the session: the counter stays, no hook is
    called, and no reason is logged. *)
Theorem ReadPump_exit_outcome (cfg : Config.Config) m (p : nat) (c : Client) :
  reachable cfg m -> shards m <> [] -> heap m !! p = Some c ->
  (GetClient m (ID c) = Some (Some p) ->
   exists m' c',
     ReadPump_exit m p = Some m' /\ heap m' !! p = Some c' /\
     closing c' = true /\
     closeLog c' = (if closing c then closeLog c
                    else closeLog c ++ ["client_disconnected"]) /\
     globalConns m' = globalConns m - 1 /\
     events m' = events m ++
       (if onDisconnect m then [EvDisconnect p "client_disconnected"] else []) /\
     GetClient m' (ID c) = Some None) /\
  (GetClient m (ID c) = Some None ->
   ReadPump_exit m p
   = Some (set_heap m (<[p := cleanup c]> (heap m))) /\
   closing (cleanup c) = true /\ closeLog (cleanup c) = closeLog c).
Proof.
  intros Hr Hne Hc.
  destruct (reachable_inv cfg m Hr) as [Hok|[Hno _]]; [|done].
  destruct (shardAt_is_Some m (ID c) Hok) as [s Hs].
  unfold GetClient, ReadPump_exit. rewrite Hs, Hc. simpl.
  unfold Shard.GetClient. split.
  - intros [= Hid].
    destruct (RemoveClient_present m (ID c) "client_disconnected" s p Hok Hs Hid)
      as (c0 & s' & Hc0 & _ & Hcl & _ & ->).
    assert (c0 = c) as -> by congruence.
    assert (Hlt : (p < length (heap m))%nat) by (by eapply lookup_lt_Some).
    simpl. rewrite list_lookup_insert_eq by done. simpl.
    eexists _, _. split; [done|]. simpl.
    rewrite list_lookup_insert_eq by (by rewrite length_insert).
    split; [done|]. split; [|split; [|split; [done|split; [done|]]]].
    + unfold cleanup, Close.
      destruct (closing c) eqn:Hopen; simpl; rewrite ?Hopen; by simpl.
    + unfold cleanup, Close.
      destruct (closing c) eqn:Hopen; simpl; rewrite ?Hopen; by simpl.
    + unfold shardAt, getShardID. simpl. fold (getShardID m (ID c)).
      unfold shardAt in Hs.
      rewrite list_lookup_insert_eq by (by eapply lookup_lt_Some).
      simpl. by rewrite Hcl, lookup_delete_eq.
  - intros [= Hid].
    rewrite (RemoveClient_absent m (ID c) "client_disconnected" s Hs Hid).
    simpl. rewrite Hc. simpl. split; [done|].
    unfold cleanup. by destruct (closing c) eqn:Hopen.
Qed.

(** X22: in a run in which [AuthenticateClient] is called only on
    sessions that are not authenticated yet, and with a user id that is
    not empty, removing a session that the registration of another
    session for the same user and device has superseded deletes the
    index entry of the newer session: that session stays registered and
    unchanged, but [GetUserClients] no longer returns it, so nothing
    sent to the user reaches it. *)
Theorem RemoveClient_superseded_unindexes_newer (cfg : Config.Config) m
    (id reason : string) (s : Shard) (p1 p2 : nat) (c1 c2 : Client) :
  reachable_once cfg m ->
  shardAt m (getShardID m id) = Some s -> clients s !! id = Some p1 ->
  heap m !! p1 = Some c1 -> heap m !! p2 = Some c2 -> p2 <> p1 ->
  entry (userClients s) (UserID c1) (DeviceID c1) = Some p2 ->
  exists m',
    RemoveClient m id reason = Some m' /\
    (p2 ∈ GetUserClients m (UserID c1)) /\
    (p2 ∉ GetUserClients m' (UserID c1)) /\
    GetClient m' (ID c2) = Some (Some p2) /\
    heap m' !! p2 = Some c2.
Proof.
  intros Hro Hs Hid Hc1 Hc2 Hne He.
  pose proof (reachable_once_reachable cfg m Hro) as Hr.
  pose proof (reachable_once_exact cfg m Hro) as Hex.
  destruct (reachable_inv cfg m Hr) as [Hok|Hno];
    [|by rewrite shardAt_no_shards in Hs].
  pose proof (ok_registry m Hok) as Hreg.
  pose proof (ok_mask m Hok) as Hmask.
  set (i := Z.to_nat (getShardID m id)). unfold shardAt in Hs. fold i in Hs.
  destruct (Hex i s Hs _ _ _ He) as (c & Hc & Hu & Hd & Hune & Hid2).
  assert (c = c2) as -> by congruence.
  destruct (reg_primary _ _ _ Hreg _ _ _ _ Hs Hid2) as (c0 & _ & _ & Hsh).
  clear c0.
  destruct (RemoveClient_present m id reason s p1 Hok Hs Hid)
    as (c & s' & Hc0 & Hidc & Hcl & Huc & Hrm).
  assert (c = c1) as -> by congruence.
  eexists. split; [done|].
  assert (Hlt : (i < length (shards m))%nat) by (by eapply lookup_lt_Some).
  split; [|split; [|split]].
  - apply elem_of_GetUserClients. by exists i, s, (DeviceID c1).
  - intros (j & t & d & Ht & Hentry)%elem_of_GetUserClients. simpl in Ht.
    destruct (decide (j = i)) as [->|Hji].
    + rewrite list_lookup_insert_eq in Ht by done. injection Ht as <-.
      rewrite Huc in Hentry. pose proof (entry_unindex _ _ _ _ _ Hentry) as Hold.
      destruct (Hex i s Hs _ _ _ Hold) as (c & Hc3 & _ & Hd3 & _).
      assert (c = c2) as -> by congruence.
      rewrite <- Hd3, Hd in Hentry.
      rewrite entry_unindex_own in Hentry by congruence. done.
    + rewrite list_lookup_insert_ne in Ht by done.
      destruct (reg_index _ _ _ Hreg _ _ _ _ _ Ht Hentry) as (c & Hc3 & _ & Hj).
      assert (c = c2) as -> by congruence.
      unfold shard_of in Hsh, Hj. lia.
  - unfold GetClient, shardAt. unfold shard_of in Hsh.
    replace (getShardID _ (ID c2)) with (Z.of_nat i) by (symmetry; exact Hsh).
    rewrite Nat2Z.id. simpl. rewrite list_lookup_insert_eq by done. simpl.
    unfold Shard.GetClient. rewrite Hcl, lookup_delete_ne; [by rewrite Hid2|].
    intros Heq. rewrite <- Heq in Hid2. congruence.
  - simpl. by rewrite list_lookup_insert_ne.
Qed.

End WithLimiters.

End TeardownProps.

(** ** Delivery to a user: every targeted session once *)

Module DeliveryProps.

Import Client Shard Manager ShardFacts ClientFacts RegistryFacts.
Import ManagerFacts IndexFacts TidyFacts RegistryProps Delivery.

(** Whether [WriteMessage] takes a message for the session at [p]: the
    session is open and its queue has room. *)
Definition accepts (h : list Client) (p : nat) : bool :=
  match h !! p with
  | Some c => negb (closing c) && bool_decide (Chan.len (Send c) < 256)%nat
  | None => false
  end.

(** The session after a call of [WriteMessage]. *)
Definition written (message : string) (c : Client) : Client :=
  match WriteMessage c message with
  | Some (_, c') => c'
  | None => c
  end.

Lemma wrap64_add_l x y : Int.wrap64 (Int.wrap64 x + y) = Int.wrap64 (x + y).
Proof.
  unfold Int.wrap64. f_equal.
  replace ((x + 2 ^ 63) `mod` 2 ^ 64 - 2 ^ 63 + y + 2 ^ 63)
    with ((x + 2 ^ 63) `mod` 2 ^ 64 + y) by lia.
  rewrite Zplus_mod_idemp_l. f_equal. lia.
Qed.

Lemma wrap64_add_r x y : Int.wrap64 (x + Int.wrap64 y) = Int.wrap64 (x + y).
Proof. by rewrite (Z.add_comm x), wrap64_add_l, (Z.add_comm y). Qed.

Lemma filter_ext_elem {A} (P Q : A -> Prop) `{!forall x, Decision (P x)}
    `{!forall x, Decision (Q x)} (l : list A) :
  (forall x, x ∈ l -> P x <-> Q x) -> filter P l = filter Q l.
Proof.
  induction l as [|x l IH]; intros Hl; [done|].
  rewrite !filter_cons.
  rewrite IH by (intros y Hy; apply Hl; by right).
  destruct (decide (P x)) as [Hp|Hp], (decide (Q x)) as [Hq|Hq]; try done.
  - destruct Hq. by apply (Hl x ltac:(left)).
  - destruct Hp. by apply (Hl x ltac:(left)).
Qed.

(** What [WriteMessage] does, by whether the session accepts. *)
Lemma WriteMessage_accepts h p c message :
  h !! p = Some c -> client_ok c ->
  if accepts h p
  then exists c', WriteMessage c message = Some (None, c') /\
                  Chan.buf (Send c') = Chan.buf (Send c) ++ [message]
  else exists e, WriteMessage c message = Some (Some e, c).
Proof.
  intros Hp [Hcap Hle Hclosed Hcl]. unfold accepts, WriteMessage. rewrite Hp.
  destruct (closing c) eqn:Hopen; simpl; [by eexists|].
  unfold Chan.trySend. rewrite Hclosed. unfold sendCap in *. rewrite Hcap.
  case_bool_decide; by eexists.
Qed.

Lemma deliver_fold message l :
  NoDup l ->
  forall h a,
    Int.in_int64 a ->
    (forall p, p ∈ l -> exists c, h !! p = Some c /\ client_ok c) ->
    exists h',
      foldl (deliver message) (Some (h, a)) l
      = Some (h', Int.wrap64
                    (a + Z.of_nat (length (filter (fun p => accepts h p = true) l)))) /\
      forall q, h' !! q = if bool_decide (q ∈ l) then written message <$> h !! q
                          else h !! q.
Proof.
  induction 1 as [|p l Hp Hnd IH]; intros h a Ha Hl.
  - exists h. simpl. split; [|done].
    by rewrite Z.add_0_r, IntFacts.wrap64_id.
  - destruct (Hl p ltac:(left)) as (c & Hc & Hok).
    assert (Hlt : (p < length h)%nat) by (by eapply lookup_lt_Some).
    pose proof (WriteMessage_accepts h p c message Hc Hok) as Hw.
    assert (Hrest : forall h1, h1 = <[p := written message c]> h ->
              (forall q, q ∈ l -> exists c0, h1 !! q = Some c0 /\ client_ok c0) /\
              filter (fun q => accepts h1 q = true) l
              = filter (fun q => accepts h q = true) l).
    { intros h1 ->. split.
      - intros q Hq. rewrite list_lookup_insert_ne by (by intros <-).
        apply Hl. by right.
      - apply filter_ext_elem. intros q Hq. unfold accepts.
        by rewrite list_lookup_insert_ne by (by intros <-). }
    simpl. rewrite Hc. simpl. rewrite filter_cons.
    destruct (accepts h p) eqn:Hacc.
    + destruct Hw as (c' & Hw & _). rewrite Hw. simpl.
      assert (Hwr : written message c = c') by (unfold written; by rewrite Hw).
      rewrite <- Hwr. destruct (Hrest _ eq_refl) as [Hl1 Hf].
      destruct (IH _ (Int.wrap64 (a + 1)) (IntFacts.wrap64_in_int64 _) Hl1)
        as (h' & -> & Hh').
      exists h'. rewrite Hf, wrap64_add_l. split.
      * rewrite ?decide_True by done. simpl.
        match goal with
        | |- Some (_, Int.wrap64 ?x) = Some (_, Int.wrap64 ?y) =>
            by replace x with y by lia
        end.
      * intros q. rewrite Hh'. destruct (decide (q = p)) as [->|Hne].
        -- rewrite bool_decide_eq_false_2 by done.
           rewrite bool_decide_eq_true_2 by (by left).
           rewrite list_lookup_insert_eq by done. by rewrite Hc.
        -- rewrite list_lookup_insert_ne by done.
           rewrite (bool_decide_ext (q ∈ p :: l) (q ∈ l)); [done|].
           rewrite elem_of_cons. split; [by intros [?|?]|by right].
    + destruct Hw as (e & Hw). rewrite Hw. simpl.
      assert (Hwr : written message c = c) by (unfold written; by rewrite Hw).
      destruct (Hrest (<[p := c]> h)) as [Hl1 Hf]; [by rewrite Hwr|].
      destruct (IH _ a Ha Hl1) as (h' & -> & Hh').
      exists h'. rewrite Hf. split.
      * by rewrite ?decide_False by done.
      * intros q. rewrite Hh'. destruct (decide (q = p)) as [->|Hne].
        -- rewrite bool_decide_eq_false_2 by done.
           rewrite bool_decide_eq_true_2 by (by left).
           rewrite list_lookup_insert_eq by done. rewrite Hc. simpl.
           by rewrite Hwr.
        -- rewrite list_lookup_insert_ne by done.
           rewrite (bool_decide_ext (q ∈ p :: l) (q ∈ l)); [done|].
           rewrite elem_of_cons. split; [by intros [?|?]|by right].
Qed.

Section WithLimiters.

Context {IPL UL : Type} `{!KeyedLimiter IPL} `{!KeyedLimiter UL}.

Implicit Types (m : Manager IPL UL).

Lemma send_fold u message (ss : list Shard) :
  NoDup (concat ((fun s => Shard.GetUserClients s u) <$> ss)) ->
  forall h a,
    Int.in_int64 a ->
    (forall p, p ∈ concat ((fun s => Shard.GetUserClients s u) <$> ss) ->
               exists c, h !! p = Some c /\ client_ok c) ->
    exists h',
      foldl (send_shard u message) (Some (h, a)) ss
      = Some (h', Int.wrap64
                    (a + Z.of_nat (length (filter (fun p => accepts h p = true)
                         (concat ((fun s => Shard.GetUserClients s u) <$> ss)))))) /\
      forall q, h' !! q
                = if bool_decide (q ∈ concat ((fun s => Shard.GetUserClients s u) <$> ss))
                  then written message <$> h !! q else h !! q.
Proof.
  induction ss as [|s ss IH]; intros Hnd h a Ha Hl.
  - exists h. simpl. split; [|done]. by rewrite Z.add_0_r, IntFacts.wrap64_id.
  - rewrite fmap_cons in *. simpl concat in *.
    set (l := Shard.GetUserClients s u) in *.
    set (rest := concat ((fun s => Shard.GetUserClients s u) <$> ss)) in *.
    apply NoDup_app in Hnd as (Hnd1 & Hdis & Hnd2).
    destruct (deliver_fold message l Hnd1 h 0) as (h1 & Hf1 & Hh1);
      [done|by intros p Hp; apply Hl, elem_of_app; left|].
    assert (Hrest : forall q, q ∈ rest -> h1 !! q = h !! q).
    { intros q Hq. rewrite Hh1, bool_decide_eq_false_2; [done|].
      intros Hq'. by apply (Hdis q). }
    destruct (IH Hnd2 h1
                (Int.wrap64 (a + Int.wrap64
                   (0 + Z.of_nat (length (filter (fun p => accepts h p = true) l))))))
      as (h' & Hf & Hh'); [apply IntFacts.wrap64_in_int64| |].
    { intros q Hq. rewrite (Hrest q Hq). apply Hl, elem_of_app. by right. }
    exists h'. split.
    + assert (Hstep : send_shard u message (Some (h, a)) s
                      = Some (h1, Int.wrap64 (a + Int.wrap64
                          (0 + Z.of_nat (length
                             (filter (fun p => accepts h p = true) l)))))).
      { unfold send_shard, BroadcastToUser. simpl. fold l. by rewrite Hf1. }
      change (foldl (send_shard u message) (Some (h, a)) (s :: ss))
        with (foldl (send_shard u message) (send_shard u message (Some (h, a)) s) ss).
      rewrite Hstep, Hf.
      rewrite (filter_ext_elem (fun p => accepts h1 p = true)
                 (fun p => accepts h p = true) rest).
      2:{ intros q Hq. unfold accepts. by rewrite (Hrest q Hq). }
      rewrite wrap64_add_l, filter_app, length_app, Z.add_0_l.
      set (k1 := Z.of_nat (length (filter (fun p => accepts h p = true) l))).
      replace (a + Int.wrap64 k1
               + Z.of_nat (length (filter (fun p => accepts h p = true) rest)))
        with (a + Z.of_nat (length (filter (fun p => accepts h p = true) rest))
              + Int.wrap64 k1) by lia.
      rewrite wrap64_add_r. subst k1.
      match goal with
      | |- Some (_, Int.wrap64 ?x) = Some (_, Int.wrap64 ?y) =>
          by replace x with y by lia
      end.
    + intros q. rewrite Hh'.
      destruct (decide (q ∈ rest)) as [Hq|Hq].
      * rewrite !bool_decide_eq_true_2; [|apply elem_of_app; by right|done].
        by rewrite (Hrest q Hq).
      * rewrite (bool_decide_eq_false_2 (q ∈ rest)) by done.
        rewrite Hh1.
        rewrite (bool_decide_ext (q ∈ l ++ rest) (q ∈ l)); [done|].
        rewrite elem_of_app. split; [by intros [?|?]|by left].
Qed.

(** X23: on a reachable manager in which [GetUserClients] lists no
    session twice for the user, [SendToUser] never panics and writes to
    every session that [GetUserClients] lists for the user and that is
    open with room in its queue, once: the message is appended to the
    queue of each.  Every other session is left as it was, the
    registry, the counter and the hooks are untouched, and the number
    returned is the number of sessions written to.  The list has no
    repetition in every run that authenticates no session twice
    ([GetUserClients_NoDup]); a session authenticated again under
    another device is listed twice, and is then written to twice. *)
Theorem SendToUser_exactly_once (cfg : Config.Config) m (u message : string) :
  reachable cfg m -> NoDup (GetUserClients m u) ->
  exists m',
    SendToUser m u message
    = Some (m', Int.wrap64 (Z.of_nat (length
                  (filter (fun p => accepts (heap m) p = true)
                     (GetUserClients m u))))) /\
    shards m' = shards m /\ globalConns m' = globalConns m /\
    events m' = events m /\
    forall p c, heap m !! p = Some c ->
      exists c',
        heap m' !! p = Some c' /\
        if bool_decide (p ∈ GetUserClients m u) && accepts (heap m) p
        then WriteMessage c message = Some (None, c') /\
             Chan.buf (Send c') = Chan.buf (Send c) ++ [message]
        else c' = c.
Proof.
  intros Hr Hnd.
  assert (Hvalid : forall p, p ∈ GetUserClients m u ->
            exists c, heap m !! p = Some c /\ client_ok c).
  { intros p (i & s & d & Hs & He)%elem_of_GetUserClients.
    destruct (reachable_inv cfg m Hr) as [Hok|[Hno _]];
      [|by rewrite Hno, lookup_nil in Hs].
    pose proof (ok_registry m Hok) as Hreg.
    destruct (reg_index _ _ _ Hreg _ _ _ _ _ Hs He) as (c & Hc & _).
    exists c. split; [done|]. by eapply reg_clients. }
  destruct (send_fold u message (shards m) Hnd (heap m) 0 ltac:(done) Hvalid)
    as (h' & Hf & Hh').
  unfold SendToUser. rewrite Hf. simpl. eexists. split; [done|]. simpl.
  split; [done|]. split; [done|]. split; [done|].
  intros p c Hc. rewrite Hh'. fold (GetUserClients m u). rewrite Hc. simpl.
  case_bool_decide as Hin; simpl.
  - destruct (Hvalid p Hin) as (c0 & Hc0 & Hok).
    assert (c0 = c) as -> by congruence.
    pose proof (WriteMessage_accepts (heap m) p c message Hc Hok) as Hw.
    destruct (accepts (heap m) p).
    + destruct Hw as (c' & Hw & Hbuf). exists c'. unfold written. by rewrite Hw.
    + destruct Hw as (e & Hw). exists c. unfold written. by rewrite Hw.
  - by exists c.
Qed.

End WithLimiters.

End DeliveryProps.

(** ** Statistics: the gauges match the registry *)

Module MetricsProps.

Import Client Shard Manager ShardFacts ClientFacts RegistryFacts.
Import ManagerFacts IndexFacts TidyFacts RegistryProps Metrics.

(** The sum of the active-connection counts of a list of statistics. *)
Definition sum_active (l : list (Z * ShardStats)) : Z :=
  foldr (fun e acc => ActiveConnections e.2 + acc) 0 l.

Lemma sum_active_perm l l' : l ≡ₚ l' -> sum_active l = sum_active l'.
Proof.
  induction 1 as [|e l l' _ IH|e e' l|l l' l'' _ IH1 _ IH2]; simpl in *; lia.
Qed.

Lemma set_shard_fold_total l :
  forall lab a,
    Int.in_int64 a ->
    (foldl set_shard (lab, a) l).2 = Int.wrap64 (a + sum_active l).
Proof.
  induction l as [|e l IH]; intros lab a Ha; simpl.
  - by rewrite Z.add_0_r, IntFacts.wrap64_id.
  - unfold set_shard at 2. simpl.
    rewrite IH by apply IntFacts.wrap64_in_int64.
    rewrite DeliveryProps.wrap64_add_l. f_equal. lia.
Qed.

Lemma set_shard_fold_other l :
  forall lab a k,
    k ∉ l.*1 -> (foldl set_shard (lab, a) l).1 !! pretty k = lab !! pretty k.
Proof.
  induction l as [|e l IH]; intros lab a k Hk; [done|].
  simpl. unfold set_shard at 2. simpl.
  rewrite fmap_cons, not_elem_of_cons in Hk. destruct Hk as [Hne Hk].
  rewrite IH by done. rewrite lookup_insert_ne; [done|].
  intros Heq. by apply (inj pretty) in Heq.
Qed.

Lemma set_shard_fold_label l :
  NoDup l.*1 ->
  forall lab a k st,
    (k, st) ∈ l ->
    (foldl set_shard (lab, a) l).1 !! pretty k = Some (ActiveConnections st).
Proof.
  induction l as [|e l IH]; intros Hnd lab a k st Hin;
    [by apply elem_of_nil in Hin|].
  rewrite fmap_cons in Hnd. apply NoDup_cons in Hnd as [Hfresh Hnd].
  simpl. unfold set_shard at 2. simpl.
  apply elem_of_cons in Hin as [<-|Hin].
  - simpl in *. rewrite set_shard_fold_other by done. apply lookup_insert_eq.
  - by apply IH.
Qed.

(** The statistics map of a shard array. *)
Definition stats_of (ss : list Shard) : gmap Z ShardStats :=
  foldl (fun stats e => <[Int.wrap32 (Z.of_nat e.1) := Shard.GetStats e.2]> stats)
    ∅ (imap pair ss).

Lemma stats_of_snoc ss s :
  stats_of (ss ++ [s])
  = <[Int.wrap32 (Z.of_nat (length ss)) := Shard.GetStats s]> (stats_of ss).
Proof.
  unfold stats_of. rewrite imap_app, foldl_app. simpl.
  by rewrite Nat.add_0_r.
Qed.

Lemma stats_of_keys ss :
  forall k v, stats_of ss !! k = Some v ->
    exists i, (i < length ss)%nat /\ k = Int.wrap32 (Z.of_nat i).
Proof.
  induction ss as [|s ss IH] using rev_ind; intros k v.
  - unfold stats_of. simpl. by rewrite lookup_empty.
  - rewrite stats_of_snoc, length_app. simpl.
    destruct (decide (k = Int.wrap32 (Z.of_nat (length ss)))) as [->|Hne].
    + intros _. exists (length ss). split; [lia|done].
    + rewrite lookup_insert_ne by done. intros Hk.
      destruct (IH k v Hk) as (i & Hi & ->). exists i. split; [lia|done].
Qed.

Lemma stats_of_fresh ss :
  Z.of_nat (length ss) < 2 ^ 32 ->
  stats_of ss !! Int.wrap32 (Z.of_nat (length ss)) = None.
Proof.
  intros Hlen. destruct (stats_of ss !! _) as [v|] eqn:Hk; [|done].
  apply stats_of_keys in Hk as (i & Hi & Heq).
  rewrite !IntFacts.wrap32_id in Heq by lia. lia.
Qed.

Lemma stats_of_sum ss :
  Z.of_nat (length ss) <= 2 ^ 32 ->
  sum_active (map_to_list (stats_of ss)) = registered ss.
Proof.
  induction ss as [|s ss IH] using rev_ind; intros Hlen.
  - unfold stats_of. simpl. by rewrite map_to_list_empty.
  - rewrite length_app in Hlen. simpl in Hlen.
    rewrite stats_of_snoc.
    rewrite (sum_active_perm _ _ (map_to_list_insert _ _ _ (stats_of_fresh ss ltac:(lia)))).
    simpl. rewrite IH by lia.
    rewrite registered_app, registered_cons. unfold registered at 3. simpl. lia.
Qed.

Lemma stats_of_lookup ss :
  Z.of_nat (length ss) <= 2 ^ 32 ->
  forall i s, ss !! i = Some s ->
    stats_of ss !! Z.of_nat i = Some (Shard.GetStats s).
Proof.
  induction ss as [|s0 ss IH] using rev_ind; intros Hlen i s Hs; [done|].
  rewrite length_app in Hlen. simpl in Hlen.
  rewrite stats_of_snoc, IntFacts.wrap32_id by lia.
  apply lookup_app_Some in Hs as [Hs|[Hge Hs]].
  - pose proof (lookup_lt_Some _ _ _ Hs).
    rewrite lookup_insert_ne by lia. apply IH; [lia|done].
  - apply list_lookup_singleton_Some in Hs as [Hi <-].
    replace i with (length ss) by lia. apply lookup_insert_eq.
Qed.

Section WithLimiters.

Context {IPL UL : Type} `{!KeyedLimiter IPL} `{!KeyedLimiter UL}.

Implicit Types (m : Manager IPL UL).

(** X24: what [updateMetrics] publishes for a reachable manager: the
    gauge of active connections gets the value of the global counter,
    and the gauge labelled with the index of a shard gets the number of
    sessions registered in that shard. *)
Theorem gauges_match_registry (cfg : Config.Config) m (g : Gauges) :
  reachable cfg m ->
  activeConnections (UpdateConnectionMetrics g (GetStats m)) = globalConns m /\
  forall i s, shards m !! i = Some s ->
    shardConnections (UpdateConnectionMetrics g (GetStats m)) !! pretty (Z.of_nat i)
    = Some (Z.of_nat (size (clients s))).
Proof.
  intros Hr.
  assert (Hlen : Z.of_nat (length (shards m)) <= 2 ^ 32).
  { destruct (reachable_inv cfg m Hr) as [Hok|[Hno _]]; [|by rewrite Hno].
    destruct (reachable_setup cfg m Hr) as (_ & Hmask & _).
    rewrite (ok_shards m Hok), Hmask, NewManager_shardMask.
    pose proof (IntFacts.wrap32_range (Hash.nextPowerOfTwo (requested cfg) - 1)).
    lia. }
  change (GetStats m) with (stats_of (shards m)).
  unfold UpdateConnectionMetrics.
  destruct (foldl set_shard _ _) as [labelled total] eqn:Hf. simpl. split.
  - pose proof (set_shard_fold_total (map_to_list (stats_of (shards m)))
                  (shardConnections g) 0 ltac:(done)) as Ht.
    rewrite Hf in Ht. simpl in Ht. rewrite Ht, stats_of_sum by done.
    destruct (reachable_inv cfg m Hr) as [Hok|[Hno Hg]].
    + rewrite <- (ok_count m Hok). apply IntFacts.wrap64_id.
      pose proof (ok_range m Hok). pose proof (ok_count m Hok).
      pose proof (registered_nonneg (shards m)). unfold Int.in_int64. lia.
    + by rewrite Hno, Hg.
  - intros i s Hs.
    pose proof (set_shard_fold_label (map_to_list (stats_of (shards m)))
                  (NoDup_fst_map_to_list _) (shardConnections g) 0
                  (Z.of_nat i) (Shard.GetStats s)) as Hl.
    rewrite Hf in Hl. simpl in Hl. apply Hl.
    apply elem_of_map_to_list. by apply stats_of_lookup.
Qed.

End WithLimiters.

End MetricsProps.

(** ** The sweep of the manager *)

Module SweepProps.

Import Client Shard Manager ShardFacts SweepFacts ClientFacts RegistryFacts.
Import ManagerFacts IndexFacts TidyFacts RegistryProps ShardProps.

Section WithLimiters.

Context {IPL UL : Type} `{!KeyedLimiter IPL} `{!KeyedLimiter UL}.

Implicit Types (m : Manager IPL UL).

Lemma sweep_shards_total h now timeout hook l :
  (forall s, s ∈ l -> is_Some (CleanupInactive h s now timeout)) ->
  forall acc, is_Some (foldl (sweep_shard h now timeout hook) (Some acc) l).
Proof.
  induction l as [|s l IH]; intros Hl acc; [done|].
  simpl. destruct acc as [swept ge]. simpl.
  destruct (Hl s ltac:(left)) as [[s' removed] ->]. simpl.
  apply IH. intros s0 Hs0. apply Hl. by right.
Qed.

(** X25: the sweep of a reachable manager never panics and removes
    from the registry exactly the sessions that have been idle for more
    than twice the pong wait: afterwards [GetClient] finds a session
    exactly if it found it before and the session is not that idle.
    The sweep changes no session object, so the sessions it removes
    stay open, and it calls no hook, whatever is registered. *)
Theorem sweep_removes_exactly_idle (cfg : Config.Config) m (now : Z) :
  reachable cfg m ->
  exists m',
    cleanupInactiveConnections m now = Some m' /\
    heap m' = heap m /\ events m' = events m /\
    globalConns m' = registered (shards m') /\
    forall id p,
      GetClient m' id = Some (Some p) <->
      GetClient m id = Some (Some p) /\
      exists c, heap m !! p = Some c /\
                now - LastActivity c <= Int.wrap64 (pongWait m * 2).
Proof.
  intros Hr.
  destruct (reachable_inv cfg m Hr) as [Hok|Hno].
  2:{ pose proof Hno as [Hs Hg]. exists m.
      unfold cleanupInactiveConnections. rewrite Hs. simpl.
      split; [by destruct m; simpl in *; subst|].
      split; [done|]. split; [done|]. split; [by rewrite ?Hs, Hg|].
      intros id p. unfold GetClient. rewrite shardAt_no_shards by done.
      simpl. split; [done|]. by intros [? _]. }
  pose proof (ok_registry m Hok) as Hreg.
  set (timeout := Int.wrap64 (pongWait m * 2)).
  assert (Hvalid : forall i s id p, shards m !! i = Some s ->
            clients s !! id = Some p -> is_Some (heap m !! p)).
  { intros i s id p Hs Hid.
    destruct (reg_primary _ _ _ Hreg _ _ _ _ Hs Hid) as (c & Hc & _). by exists c. }
  destruct (sweep_shards_total (heap m) now timeout (onDisconnect m) (shards m))
    with (acc := (@nil Shard, (globalConns m, events m))) as [[ss ge] Hf].
  { intros s (i & Hs)%list_elem_of_lookup.
    apply CleanupInactive_total. intros id p. by apply (Hvalid i s). }
  assert (Hcl : cleanupInactiveConnections m now
                = Some (update m (heap m) ss ge.1 (ipLimiter m) (userLimiter m) ge.2)).
  { unfold cleanupInactiveConnections. fold timeout. by rewrite Hf. }
  eexists. split; [exact Hcl|].
  destruct (cleanup_silent m now _ Hcl) as (Hev & Hheap & _).
  destruct (sweep_ok m now _ Hok Hcl) as [Hok' _].
  split; [done|]. split; [done|]. split; [apply (ok_count _ Hok')|].
  apply sweep_shards_each in Hf as (rest & Hss & Hall). simpl in Hss. subst ss.
  intros id p. unfold GetClient, shardAt, getShardID. simpl.
  fold (getShardID m id).
  destruct (shardAt_is_Some m id Hok) as [s Hs]. unfold shardAt in Hs.
  destruct (Forall2_lookup_l _ _ _ _ _ Hall Hs) as (s' & Hs' & removed & Hc).
  rewrite Hs, Hs'. simpl. unfold Shard.GetClient.
  destruct (CleanupInactive_keeps (heap m) s now timeout)
    as (s0 & removed0 & Hc0 & _ & _ & Hkeep & _).
  { intros id0 p0. by apply (Hvalid (Z.to_nat (getShardID m id)) s). }
  rewrite Hc in Hc0. injection Hc0 as <- <-.
  split.
  - intros [= Hid]. apply Hkeep in Hid as [Hid Hfresh]. by rewrite Hid.
  - intros [[= Hid] Hfresh]. f_equal. by apply Hkeep.
Qed.

End WithLimiters.

End SweepProps.

(** ** Admission: from the configuration to a registered session *)

Module AdmissionProps.

Import Client Shard Manager Server ShardFacts ClientFacts RegistryFacts.
Import ManagerFacts IndexFacts TidyFacts RegistryProps.

Section WithLimiters.

Context {IPL UL : Type} `{!KeyedLimiter IPL} `{!KeyedLimiter UL}.

Implicit Types (m : Manager IPL UL).

(** What [AddConnection] does when both limits let the connection in. *)
Lemma AddConnection_admitted m (now : Z) (id ip : string) (ipl : IPL) :
  manager_ok m -> is_registered m id = false ->
  globalConns m < maxConns m -> Allow (ipLimiter m) ip now = (true, ipl) ->
  exists m',
    AddConnection m now id ip = Some (m', inl (length (heap m))) /\
    heap m' = heap m ++ [NewClient id ip (getShardID m id) now] /\
    GetClient m' id = Some (Some (length (heap m))) /\
    (forall id', id' <> id -> GetClient m' id' = GetClient m id') /\
    globalConns m' = globalConns m + 1 /\
    events m' = events m ++ (if onConnect m then [EvConnect (length (heap m))] else []) /\
    ipLimiter m' = ipl /\ userLimiter m' = userLimiter m.
Proof.
  intros Hok Hfresh Hroom Hallow.
  pose proof Hok as [Hmask Hlen Hmax Hcount Hrange Hreg].
  destruct (shardAt_is_Some m id Hok) as [s Hs].
  pose proof (is_registered_false m id s Hfresh Hs) as Hid.
  unfold AddConnection. rewrite bool_decide_eq_false_2 by lia.
  rewrite Hallow. simpl. rewrite Hs. simpl.
  unfold AddClient. rewrite list_lookup_middle by done. simpl.
  eexists. split; [done|]. simpl. unfold shardAt in Hs.
  assert (Hlt : (Z.to_nat (getShardID m id) < length (shards m))%nat)
    by (by eapply lookup_lt_Some).
  split; [done|]. split; [|split; [|split; [|done]]].
  - unfold GetClient, shardAt, getShardID. simpl. fold (getShardID m id).
    rewrite list_lookup_insert_eq by done. simpl.
    unfold Shard.GetClient. simpl. by rewrite lookup_insert_eq.
  - intros id' Hne. unfold GetClient, shardAt, getShardID. simpl.
    fold (getShardID m id) (getShardID m id').
    destruct (decide (Z.to_nat (getShardID m id') = Z.to_nat (getShardID m id)))
      as [Heq|Hsh].
    + rewrite Heq, list_lookup_insert_eq, Hs by done. simpl.
      unfold Shard.GetClient. simpl. by rewrite lookup_insert_ne.
    + by rewrite list_lookup_insert_ne.
  - apply IntFacts.wrap64_id. unfold Int.in_int64 in *.
    pose proof (registered_nonneg (shards m)). lia.
Qed.

(** X26: on a reachable manager with shards, a connection that the
    global limit and the address limiter let in is registered under the
    id minted for it: [AddConnection] returns a new session object that
    carries the id, the address and the shard its id selects, and is
    neither authenticated nor closing; [GetClient] finds it under the
    id and finds every other id as before; the counter goes up by one
    and the connect hook, when set, is called once. *)
Theorem AddConnection_admits (cfg : Config.Config) m (now : Z) (id ip : string)
    (ipl : IPL) :
  reachable cfg m -> shards m <> [] -> is_registered m id = false ->
  globalConns m < maxConns m -> Allow (ipLimiter m) ip now = (true, ipl) ->
  exists m' c,
    AddConnection m now id ip = Some (m', inl (length (heap m))) /\
    heap m' = heap m ++ [c] /\
    ID c = id /\ IP c = ip /\ ShardID c = getShardID m id /\
    UserID c = "" /\ authenticated c = false /\ closing c = false /\
    Chan.buf (Send c) = [] /\ LastActivity c = now /\
    GetClient m' id = Some (Some (length (heap m))) /\
    (forall id', id' <> id -> GetClient m' id' = GetClient m id') /\
    globalConns m' = globalConns m + 1 /\
    events m' = events m ++ (if onConnect m then [EvConnect (length (heap m))] else []) /\
    reachable cfg m'.
Proof.
  intros Hr Hne Hfresh Hroom Hallow.
  destruct (reachable_inv cfg m Hr) as [Hok|[Hno _]]; [|done].
  destruct (AddConnection_admitted m now id ip ipl Hok Hfresh Hroom Hallow)
    as (m' & Hadd & Hheap & Hget & Hothers & Hg & Hev & _).
  exists m', (NewClient id ip (getShardID m id) now).
  repeat (split; [done|]).
  eapply rtc_r; [apply Hr|]. by eapply step_add.
Qed.

(** X27: [ServeHTTP] on a request whose handshake succeeds and that
    both limits let in answers with the upgrade alone and registers one
    session under the address of [getClientIP].  That address is the
    X-Forwarded-For header as the client sent it whenever the header is
    there: the remote address of the connection then plays no part in
    what [ServeHTTP] does, and it is also the key the address limiter
    is asked with. *)
Theorem ServeHTTP_admits (cfg : Config.Config) (s : WebSocketServer IPL UL)
    (now : Z) (id : string) (r : Request) (ipl : IPL) :
  reachable cfg (connManager s) -> shards (connManager s) <> [] ->
  handshake r = true -> is_registered (connManager s) id = false ->
  globalConns (connManager s) < maxConns (connManager s) ->
  Allow (ipLimiter (connManager s)) (getClientIP r) now = (true, ipl) ->
  (exists s' c,
     ServeHTTP s now id r = Some (s', [Upgraded]) /\
     config s' = config s /\
     GetClient (connManager s') id = Some (Some (length (heap (connManager s)))) /\
     heap (connManager s') !! length (heap (connManager s)) = Some c /\
     ID c = id /\ IP c = getClientIP r /\
     globalConns (connManager s') = globalConns (connManager s) + 1) /\
  (XForwardedFor r <> "" -> getClientIP r = XForwardedFor r) /\
  (forall remote,
     XForwardedFor r <> "" ->
     ServeHTTP s now id (mkRequest (XForwardedFor r) remote (handshake r))
     = ServeHTTP s now id r).
Proof.
  intros Hr Hne Hh Hfresh Hroom Hallow.
  destruct (reachable_inv cfg _ Hr) as [Hok|[Hno _]]; [|done].
  destruct (AddConnection_admitted _ now id _ ipl Hok Hfresh Hroom Hallow)
    as (m' & Hadd & Hheap & Hget & _ & Hg & _).
  split; [|split].
  - unfold ServeHTTP. rewrite Hh. simpl. rewrite Hadd. simpl.
    eexists _, _. split; [done|]. simpl. split; [done|]. split; [done|].
    split; [rewrite Hheap; by apply list_lookup_middle|]. done.
  - intros Hx. unfold getClientIP. by rewrite bool_decide_eq_true_2.
  - intros remote Hx. unfold ServeHTTP, getClientIP. simpl.
    by rewrite !bool_decide_eq_true_2.
Qed.


End WithLimiters.

End AdmissionProps.

(** ** The middleware: what reaches the next handler *)

Module MiddlewareProps.

Import Jwt Auth Middleware TokenProps.

Lemma strip_app prefix s : strip prefix (prefix ++ s) = Some s.
Proof.
  induction prefix as [|a prefix IH]; [done|].
  change (String a prefix ++ s)%string with (String a (prefix ++ s)%string).
  simpl. by rewrite bool_decide_eq_true_2.
Qed.

Lemma TrimPrefix_app prefix s : TrimPrefix (prefix ++ s) prefix = s.
Proof. unfold TrimPrefix. by rewrite strip_app. Qed.

(** X29: the middleware calls the next handler only with claims that
    [ValidateToken] returned for the header it read, so with claims of
    the authenticator's issuer and a user id; everything else it
    answers with status 401.  The Authorization header, when there is
    one, is the only header read: the WebSocket protocol header is a
    fallback for an absent one, never a second chance.  A header of the
    form Bearer, blank, token is validated as the token, which is also
    what [ExtractFromContext] does with such a value. *)
Theorem Middleware_admits_only_valid (parse : string -> TokenString)
    (a : Authenticator) (now : Z) (h : Header) :
  (forall claims,
     Middleware parse a now h = Next claims ->
     exists header,
       header <> "" /\
       (header = Authorization h \/
        Authorization h = "" /\ header = SecWebSocketProtocol h) /\
       ValidateToken a (parse (TrimPrefix header "Bearer ")) now = inl claims /\
       Issuer (Registered claims) = issuer a /\ UserID claims <> "") /\
  (forall status body,
     Middleware parse a now h = Answered status body -> status = 401) /\
  (forall other,
     Authorization h <> "" ->
     Middleware parse a now (mkHeader (Authorization h) other)
     = Middleware parse a now h) /\
  (forall token other,
     Middleware parse a now (mkHeader ("Bearer " ++ token) other)
     = match ExtractFromContext parse a now (Some (StringValue ("Bearer " ++ token))) with
       | inl claims => Next claims
       | inr _ => Answered 401 "invalid token"
       end /\
     ExtractFromContext parse a now (Some (StringValue ("Bearer " ++ token)))
     = ValidateToken a (parse token) now).
Proof.
  split; [|split; [|split]].
  - intros claims. unfold Middleware.
    case_bool_decide as He; [done|].
    destruct (ValidateToken a _ now) as [c|e] eqn:Hv; [|done].
    intros [= <-]. eexists. split; [exact He|]. split.
    + case_bool_decide; [by right|by left].
    + split; [done|].
      apply ValidateToken_inl in Hv as (t & _ & _ & _ & Hi & Hu).
      by split.
  - intros status body. unfold Middleware.
    case_bool_decide; [by intros [= <- _]|].
    destruct (ValidateToken a _ now); [done|]. by intros [= <- _].
  - intros other Hne. unfold Middleware. simpl.
    by rewrite (bool_decide_eq_false_2 (Authorization h = "")) by done.
  - intros token other. unfold Middleware, ExtractFromContext. simpl.
    rewrite (TrimPrefix_app "Bearer " token). split; [|done].
    by destruct (ValidateToken a (parse token) now).
Qed.

End MiddlewareProps.
(** ** The typed messages: what [ParseMessage] accepts *)

Module MessagesProps.

Import Protocol Messages.

Lemma typed_inl decode v msg :
  typed decode v = inl msg -> decode v = Some msg.
Proof. unfold typed. destruct (decode v); [by intros [= <-]|done]. Qed.

Ltac decoded H :=
  apply typed_inl in H;
  match type of H with
  | ?d _ = _ => unfold d in H
  end;
  repeat match type of H with
         | (match ?x with _ => _ end) = _ => destruct x eqn:?; simpl in H; [|done]
         | (_ ≫= _) = _ => apply bind_Some in H as (? & ? & H)
         end;
  simplify_eq.

(** The seven types [ParseMessage] has a case for. *)
Definition parsed_types : list string :=
  [TypeAuth; TypeMessage; TypeGroupMessage; TypeTyping; TypePresence; TypeACK;
   TypeHeartbeat].

(** X30: [ParseMessage] returns a message only for input whose type
    field names one of the seven types it has a case for, and the
    struct it returns is the one of that type, carrying the base fields
    as [json.Unmarshal] reads them from the same input.  The type
    error is not among the seven: the error frame that the gateway
    itself builds with [NewErrorMessage] and marshals is rejected as a
    message of unknown type. *)
Theorem ParseMessage_returns_declared_type (raw : option Json.value) (msg : Message) :
  ParseMessage raw = inl msg ->
  (exists v,
     raw = Some v /\ Unmarshal v = Some (base_of msg) /\
     Type_ (base_of msg) = type_of msg /\ type_of msg ∈ parsed_types) /\
  (forall code message details msgID ts,
     - 2 ^ 63 <= ts < 2 ^ 63 ->
     ParseMessage (Some (MarshalError (NewErrorMessage code message details msgID ts)))
     = inr (ErrUnknownType TypeError)).
Proof.
  intros Hp. split.
  - unfold ParseMessage in Hp. destruct raw as [v|]; [|done].
    destruct (Unmarshal v) as [base|] eqn:Hb; [|done].
    exists v. split; [done|]. unfold parsed_types.
    repeat (let Ht := fresh "Ht" in
            case_bool_decide as Ht;
            [decoded Hp; simpl; (split; [done|]); (split; [done|]); set_solver|]).
    discriminate Hp.
  - intros code message details msgID ts Hts.
    unfold ParseMessage, MarshalError, NewErrorMessage, NewBaseMessage, omitempty,
      Unmarshal.
    simpl. change (Json.toValidUTF8 TypeError) with "error".
    do 2 case_bool_decide;
      repeat first [ rewrite (bool_decide_eq_true_2 _ Hts)
                   | progress simpl
                   | progress PubSubFacts.names_eval
                   | progress unfold decode_field ];
      by rewrite ?bool_decide_eq_false_2 by done.
Qed.

Lemma ParseMessage_returns_declared_type_witness :
  ParseMessage (Some (Json.Obj [("type", Json.Str "heartbeat");
                                ("sequence", Json.Num 7)]))
  = inl (Beat (mkBase "heartbeat" "" 0) 7) /\
  Unmarshal (Json.Obj [("type", Json.Str "heartbeat"); ("sequence", Json.Num 7)])
  = Some (mkBase "heartbeat" "" 0).
Proof.
  destruct (ParseMessage_returns_declared_type
              (Some (Json.Obj [("type", Json.Str "heartbeat");
                               ("sequence", Json.Num 7)]))
              (Beat (mkBase "heartbeat" "" 0) 7))
    as [(v & Hv & Hb & _) _]; [by vm_compute|].
  injection Hv as <-. split; [by vm_compute|exact Hb].
Defined.

End MessagesProps.

(** ** The theorems at concrete runs *)

Module RunProps.

Import Client Shard Manager ShardFacts ClientFacts RegistryFacts.
Import ManagerFacts IndexFacts TidyFacts OnceFacts RegistryProps TeardownProps.
Import Delivery DeliveryProps Metrics MetricsProps SweepProps AdmissionProps.

Lemma two_sessions_once : reachable_once (run_config 5) (two_sessions 5).
Proof.
  unfold reachable_once. eapply rtc_l; [apply once_handlers|].
  eapply rtc_l; [eapply (once_add _ 0 "c1" "10.0.0.1" _ (inl 0%nat)); by vm_compute|].
  eapply rtc_l; [|apply rtc_refl].
  eapply (once_add _ 0 "c2" "10.0.0.2" _ (inl 1%nat)); by vm_compute.
Qed.

Lemma first_authenticated_once :
  reachable_once (run_config 5) (first_authenticated 5).
Proof.
  unfold reachable_once. eapply rtc_r; [apply two_sessions_once|].
  eapply (once_auth _ 0 "c1" "u1" "d1" _ None); [done| |by vm_compute].
  intros s p c Hs Hp Hc. vm_compute in Hs. injection Hs as <-.
  vm_compute in Hp. injection Hp as <-.
  vm_compute in Hc. by injection Hc as <-.
Qed.

Lemma superseded_once : reachable_once (run_config 5) superseded.
Proof.
  unfold reachable_once. eapply rtc_r; [apply first_authenticated_once|].
  eapply (once_auth _ 1 "c2" "u1" "d1" _ None); [done| |by vm_compute].
  intros s p c Hs Hp Hc. vm_compute in Hs. injection Hs as <-.
  vm_compute in Hp. injection Hp as <-.
  vm_compute in Hc. by injection Hc as <-.
Qed.

Lemma two_sessions_reachable : reachable (run_config 5) (two_sessions 5).
Proof. apply reachable_once_reachable, two_sessions_once. Qed.

Lemma first_authenticated_reachable :
  reachable (run_config 5) (first_authenticated 5).
Proof. apply reachable_once_reachable, first_authenticated_once. Qed.

(** A second authentication of a session is a step of the gateway as
    well: the session is then listed twice for its user, and written to
    twice. *)
Lemma reauthenticated_reachable : reachable (run_config 5) reauthenticated.
Proof.
  unfold reachable. eapply rtc_r; [apply first_authenticated_reachable|].
  eapply (step_auth _ 1 "c1" "u1" "d2" _ None). by vm_compute.
Qed.

Remark reauthenticated_listed_twice :
  GetUserClients reauthenticated "u1" = [0%nat; 0%nat] /\
  (snd <$> SendToUser reauthenticated "u1" "hi") = Some 2 /\
  (Chan.buf <$> (Send <$> ((fst <$> SendToUser reauthenticated "u1" "hi")
                           ≫= fun m' => heap m' !! 0%nat)))
  = Some ["hi"; "hi"].
Proof. vm_compute. repeat split. Qed.

(** A configuration that asks for 2^31 + 1 shards. *)
Definition oversized_config : Config.Config :=
  Config.mkConfig 524288 (60 * Config.second) 10 "secret" 0 "node-1"
    100 150 5 1000 2147483649.

Lemma getShardID_is_remainder_witness :
  getShardID (one_session 5) "c1"
  = Hash.fnv32a "c1" mod shardCount (one_session 5).
Proof.
  destruct (getShardID_is_remainder (run_config 5) (one_session 5) "c1")
    as (_ & _ & H & _); [apply one_session_reachable|by vm_compute|].
  exact H.
Defined.

Lemma oversized_shard_count_panics_witness :
  shards (NewManager oversized_config : TBManager) = [] /\
  GetClient (NewManager oversized_config : TBManager) "c1" = None.
Proof.
  destruct (oversized_shard_count_panics oversized_config
              (NewManager oversized_config : TBManager) 0 "c1" "10.0.0.1" "m" "r")
    as (H1 & _ & _ & H2 & _); [apply rtc_refl|by vm_compute|].
  split; [exact H1|exact H2].
Defined.

Lemma global_limit_holds_witness :
  0 <= globalConns (one_session 5) <= Z.max 0 (maxConns (one_session 5)).
Proof.
  destruct (global_limit_holds (run_config 5) (one_session 5) 0 "c9" "10.0.0.9")
    as (_ & H & _); [apply one_session_reachable|].
  exact H.
Defined.

Lemma user_sessions_of_u1 : GetUserClients (first_authenticated 5) "u1" = [0%nat].
Proof. by vm_compute. Qed.

Lemma user_index_is_live_witness :
  exists c,
    heap (first_authenticated 5) !! 0%nat = Some c /\ UserID c = "u1" /\
    GetClient (first_authenticated 5) (ID c) = Some (Some 0%nat).
Proof.
  destruct (user_index_is_live (run_config 5) (first_authenticated 5) "u1" 0%nat)
    as (c & Hc & Hu & _ & _ & Hg);
    [apply first_authenticated_once
    |rewrite user_sessions_of_u1; by left|].
  exists c. split; [exact Hc|]. split; [exact Hu|exact Hg].
Defined.

Lemma user_sessions_distinct_witness :
  NoDup (GetUserClients superseded "u1").
Proof.
  destruct (user_sessions_distinct (run_config 5) superseded "u1") as [H _];
    [apply superseded_once|].
  exact H.
Defined.

Lemma user_key_has_session_witness :
  userClients (default (NewShard 0) (shards (first_authenticated 5) !! 0%nat)) !! "u2"
  = None <->
  Shard.GetUserClients
    (default (NewShard 0) (shards (first_authenticated 5) !! 0%nat)) "u2" = [].
Proof.
  apply (user_key_has_session (run_config 5) (first_authenticated 5) 0%nat);
    [apply first_authenticated_reachable|by vm_compute].
Defined.

Lemma GetStats_is_stored_witness :
  ActiveConnections
    (stats (default (NewShard 0) (shards (two_sessions 5) !! 0%nat)))
  = Z.of_nat (size (clients (default (NewShard 0) (shards (two_sessions 5) !! 0%nat)))).
Proof.
  destruct (GetStats_is_stored (run_config 5) (two_sessions 5) 0%nat
              (default (NewShard 0) (shards (two_sessions 5) !! 0%nat)))
    as [_ H]; [apply two_sessions_reachable|by vm_compute|].
  exact H.
Defined.


Lemma ReadPump_exit_outcome_witness :
  exists m' c',
    ReadPump_exit (one_session 5) 0 = Some m' /\
    heap m' !! 0%nat = Some c' /\ closing c' = true /\
    globalConns m' = globalConns (one_session 5) - 1.
Proof.
  destruct (ReadPump_exit_outcome (run_config 5) (one_session 5) 0%nat
              (NewClient "c1" "10.0.0.1" 0 0))
    as [Hreg _]; [apply one_session_reachable|by vm_compute|by vm_compute|].
  destruct Hreg as (m' & c' & Hx & Hc & Hcl & _ & Hg & _); [by vm_compute|].
  exists m', c'. split; [exact Hx|]. split; [exact Hc|]. split; [exact Hcl|exact Hg].
Defined.

Lemma RemoveClient_superseded_unindexes_newer_witness :
  exists m',
    RemoveClient superseded "c1" "bye" = Some m' /\
    (1%nat ∉ GetUserClients m' "u1") /\
    GetClient m' "c2" = Some (Some 1%nat).
Proof.
  destruct (RemoveClient_superseded_unindexes_newer (run_config 5) superseded
              "c1" "bye"
              (default (NewShard 0) (shards superseded !! 0%nat)) 0%nat 1%nat
              (default (NewClient "c1" "10.0.0.1" 0 0) (heap superseded !! 0%nat))
              (default (NewClient "c2" "10.0.0.2" 0 0) (heap superseded !! 1%nat)))
    as (m' & Hrm & _ & Hout & Hget & _);
    [apply superseded_once|by vm_compute..|].
  exists m'. split; [exact Hrm|]. split; [exact Hout|exact Hget].
Defined.

Lemma SendToUser_exactly_once_witness :
  exists m',
    SendToUser (first_authenticated 5) "u1" "hi" = Some (m', 1) /\
    events m' = events (first_authenticated 5).
Proof.
  destruct (SendToUser_exactly_once (run_config 5) (first_authenticated 5) "u1" "hi")
    as (m' & Hs & _ & _ & Hev & _);
    [apply first_authenticated_reachable
    |rewrite user_sessions_of_u1; apply NoDup_singleton|].
  exists m'. split; [|exact Hev]. rewrite Hs. by vm_compute.
Defined.

Lemma gauges_match_registry_witness :
  activeConnections
    (UpdateConnectionMetrics (mkGauges 0 ∅) (GetStats (two_sessions 5)))
  = globalConns (two_sessions 5).
Proof.
  destruct (gauges_match_registry (run_config 5) (two_sessions 5) (mkGauges 0 ∅))
    as [H _]; [apply two_sessions_reachable|].
  exact H.
Defined.

Lemma sweep_removes_exactly_idle_witness :
  exists m',
    cleanupInactiveConnections (one_session 5) (121 * Config.second) = Some m' /\
    heap m' = heap (one_session 5) /\ events m' = events (one_session 5).
Proof.
  destruct (sweep_removes_exactly_idle (run_config 5) (one_session 5)
              (121 * Config.second))
    as (m' & Hc & Hh & He & _); [apply one_session_reachable|].
  exists m'. split; [exact Hc|]. split; [exact Hh|exact He].
Defined.

Lemma AddConnection_admits_witness :
  exists m' c,
    AddConnection (one_session 5) 0 "c2" "10.0.0.2" = Some (m', inl 1%nat) /\
    heap m' = heap (one_session 5) ++ [c] /\ ID c = "c2".
Proof.
  destruct (AddConnection_admits (run_config 5) (one_session 5) 0 "c2" "10.0.0.2"
              (Allow (ipLimiter (one_session 5)) "10.0.0.2" 0).2)
    as (m' & c & Ha & Hh & Hid & _);
    [apply one_session_reachable|by vm_compute..|].
  exists m', c. split; [exact Ha|]. split; [exact Hh|exact Hid].
Defined.

Lemma ServeHTTP_admits_witness :
  exists s',
    Server.ServeHTTP (Server.mkServer (run_config 5) (one_session 5)) 0 "c2"
      (Server.mkRequest "203.0.113.7" "10.0.0.2:5555" true)
    = Some (s', [Server.Upgraded]).
Proof.
  destruct (ServeHTTP_admits (run_config 5)
              (Server.mkServer (run_config 5) (one_session 5)) 0 "c2"
              (Server.mkRequest "203.0.113.7" "10.0.0.2:5555" true)
              (Allow (ipLimiter (one_session 5)) "203.0.113.7" 0).2)
    as [(s' & c & Hs & _) _];
    [apply one_session_reachable|by vm_compute..|].
  exists s'. exact Hs.
Defined.


End RunProps.
